(** * PStatTimeline: a shallow embedding of pandatool/src/pstatserver/pStatTimeline.cxx

    The timeline view of the PStats server turns the start/end events of
    each frame of each thread into rows of coloured bars, keeps the rows
    of all threads at consecutive vertical offsets, answers hit tests and
    computes guide bars and animated scrolling.

    Numbers.  The C++ code stores times in [double]s.  The ingestion, hit
    test and guide bar code only compares, adds, subtracts, multiplies and
    divides them; it is embedded over the rationals [Q], which keeps every
    definition executable.  The two places that call the transcendental
    functions of the C library ([exp] in [animate], [log10] and [pow] in the
    computation of the guide bar interval) are embedded over the reals [R]
    in the modules [Animate] and [GuideInterval].  In both embeddings a
    [double] is idealised as the exact number it denotes (no rounding, no
    NaN, no infinities).  [int] values are [Z]; conversions between [int]
    and [size_t] are written out where the source performs them, and so is
    the conversion [(int)x] of a [double] in the guide bar code, which the
    language defines only when the truncated [x] is in the range of
    [int]. *)

From Stdlib Require Import ZArith QArith Qround Bool List Permutation.
From Stdlib Require Import Reals Psatz.
From Stdlib Require String.
Import ListNotations.

Local Open Scope Z_scope.

(** ** Machine integers *)

(** Conversion of an [int] to [size_t] (64 bit), as performed implicitly when
    an [int] is compared with a [size_t]. *)
Definition size_t_of_int (z : Z) : Z := z mod 2 ^ 64.

(** Conversion of a [size_t] to [int] (32 bit, two's complement), as in the
    cast [(int)thread_row._row_offset]. *)
Definition int_of_size_t (z : Z) : Z := (z + 2 ^ 31) mod 2 ^ 32 - 2 ^ 31.

(** The half-open range [lo, lo+1, ..., hi-1] of a [for] loop over [int]. *)
Definition zrange (lo hi : Z) : list Z :=
  map (fun k => lo + Z.of_nat k) (seq 0 (Z.to_nat (hi - lo))).

(** ** Comparisons and rounding on times *)

Definition Qltb (a b : Q) : bool := negb (Qle_bool b a).

(** [std::max(a, b)] is [(a < b) ? b : a]; [std::min(a, b)] is
    [(b < a) ? b : a]. *)
Definition fmax (a b : Q) : Q := if Qltb a b then b else a.
Definition fmin (a b : Q) : Q := if Qltb b a then b else a.

(** Truncation toward zero: the value of the cast [(int)x] of a [double]
    when that value is in the range of [int]. *)
Definition Qtrunc (x : Q) : Z := Z.quot (Qnum x) (Zpos (Qden x)).

(** The range of a 32-bit [int]. *)
Definition in_int_range (z : Z) : bool := (- 2 ^ 31 <=? z) && (z <? 2 ^ 31).

(** [std::round]: to the nearest integer, halfway cases away from zero. *)
Definition Qround_half_away (x : Q) : Z :=
  if Qle_bool 0 x then Qfloor (x + (1 # 2)) else Qceiling (x - (1 # 2)).

Module Timeline.

(** ** Data model *)

(** [PStatTimeline::ColorBar]; the aggregate initialisers of the source give
    the field order [{_start, _end, _collector_index, _thread_index,
    _frame_number}]. *)
Record ColorBar : Type := mkBar {
  _start : Q;
  _end : Q;
  _collector_index : Z;
  _thread_index : Z;
  _frame_number : Z
}.

(** [typedef pvector<ColorBar> Row]. *)
Abbreviation Row := (list ColorBar) (only parsing).

(** [PStatTimeline::ThreadRow]. *)
Record ThreadRow : Type := mkThreadRow {
  _label : String.string;
  _rows : list Row;
  _row_offset : nat;
  _last_frame : Z
}.

(** One entry of a frame's recording, as read through
    [get_time_collector(i)], [get_time(i)] and [is_start(i)]. *)
Record Event : Type := mkEvent {
  ev_collector : Z;
  ev_time : Q;
  ev_is_start : bool
}.

(** What the code reads of a [PStatFrameData]. *)
Record FrameData : Type := mkFrame {
  get_start : Q;
  get_end : Q;
  events : list Event
}.

(** What the code reads of a [PStatThreadData]. *)
Record ThreadData : Type := mkThreadData {
  is_empty : bool;
  get_oldest_frame_number : Z;
  get_latest_frame_number : Z;
  get_frame : Z -> FrameData
}.

(** What the code reads of a [PStatClientData]; [get_thread_data] may
    return [nullptr]. *)
Record ClientData : Type := mkClientData {
  get_num_threads : Z;
  get_thread_data : Z -> option ThreadData;
  get_thread_name : Z -> String.string
}.

Inductive GuideBarStyle : Type := GBS_normal | GBS_frame.

(** The text of a guide bar label, kept as the value that is formatted:
    ["#" + format_string(n)], ["+" + format_number(offset)],
    [format_number(time)], or the empty string left by [_label.clear()]. *)
Inductive Label : Type :=
| LabelFrame (frame_number : Z)
| LabelOffset (offset : Q)
| LabelTime (time : Q)
| LabelCleared.

Record GuideBar : Type := mkGuideBar {
  _height : Q;
  gb_label : Label;
  _style : GuideBarStyle
}.

(** The members of [PStatTimeline] (and the [_xsize] of [PStatGraph]) that
    the embedded functions read or write. *)
Record TimelineState : Type := mkTimeline {
  _threads : list ThreadRow;
  _threads_changed : bool;
  _have_start_time : bool;
  _start_time : Q;
  _target_start_time : Q;
  _lowest_start_time : Q;
  _highest_end_time : Q;
  _time_scale : Q;
  _target_time_scale : Q;
  _xsize : Z;
  _guide_bars : list GuideBar;
  _guide_bars_changed : bool
}.

(** Declarations that the functions of pStatTimeline.cxx use but that live
    in pStatTimeline.h / pStatTimeline.I / pStatGraph, which are not part of
    the sources at hand.  They are parameters of the development. *)
Class Declarations : Type := {
  (** [ColorBar::operator <], used by [std::sort] and [std::lower_bound]. *)
  bar_lt : ColorBar -> ColorBar -> bool;
  (** Default member initialisers of a fresh [ThreadRow]. *)
  default_row_offset : nat;
  default_last_frame : Z;
  (** Inline accessors of the view. *)
  pixel_to_timestamp : TimelineState -> Z -> Q;
  pixel_to_height : TimelineState -> Z -> Q;
  height_to_pixel : TimelineState -> Q -> Z;
  get_horizontal_scroll : TimelineState -> Q;
  get_horizontal_scale : TimelineState -> Q;
  (** The guide bar interval computed from [pixel_to_height(150)] with
      [log10] and [pow] (lines 390-397); see module [GuideInterval]. *)
  guide_interval : Q -> Q;
  (** What the conversion [(int)x] of a [double] yields when the truncated
      [x] is outside the range of [int].  The language leaves the conversion
      undefined there and the embedding assumes nothing about the value
      (x86-64 yields [INT_MIN]). *)
  int_of_out_of_range : Q -> Z
}.

(** ** The bar stack of [update_bars] *)

(** [pair<int collector_index, double start_time>].  The stack is a list
    whose head is [stack.back()]; the entry with [n] entries below it is
    [stack[n]]. *)
Abbreviation StackEntry := (Z * Q)%type (only parsing).

(** [_rows.resize(n)] for [n > _rows.size()]: new rows are empty. *)
Definition resize_rows (rows : list Row) (n : nat) : list Row :=
  rows ++ repeat [] (n - length rows).

(** [_rows[i].push_back(b)].  The source indexes without a check; every
    call has [i < _rows.size()] (lemma [process_events_within]), and out of
    range the embedding leaves the rows as they are. *)
Fixpoint push_bar (rows : list Row) (i : nat) (b : ColorBar) : list Row :=
  match rows, i with
  | [], _ => []
  | r :: rs, O => (r ++ [b]) :: rs
  | r :: rs, S i' => r :: push_bar rs i' b
  end.

(** [while (!stack.empty() && stack.back().first < 0) stack.pop_back();] *)
Fixpoint pop_invalid (stack : list StackEntry) : list StackEntry :=
  match stack with
  | [] => []
  | (c, t) :: below => if c <? 0 then pop_invalid below else stack
  end.

(** The scan of the "unlikely case": going down from the top, find the first
    entry of the given collector; return its index and start time and the
    stack with that entry's collector set to [-1]. *)
Fixpoint invalidate_open (stack : list StackEntry) (collector_index : Z)
  : option (nat * Q * list StackEntry) :=
  match stack with
  | [] => None
  | (c, t) :: below =>
      if c =? collector_index then Some (length below, t, (-1, t) :: below)
      else match invalidate_open below collector_index with
           | Some (i, t', below') => Some (i, t', (c, t) :: below')
           | None => None
           end
  end.

(** The local state of the event loop. *)
Record BarState : Type := mkBarState {
  bs_stack : list StackEntry;
  bs_rows : list Row;
  changed_num_rows : bool
}.

(** One iteration of the loop over the events (lines 177-221);
    [start_time] is the member [_start_time]. *)
Definition process_event (start_time : Q) (thread_index frame_number : Z)
    (st : BarState) (e : Event) : BarState :=
  let collector_index := ev_collector e in
  let time := ev_time e in
  if ev_is_start e then
    let stack := (collector_index, fmax time start_time) :: bs_stack st in
    if (length (bs_rows st) <? length stack)%nat then
      mkBarState stack (resize_rows (bs_rows st) (length stack)) true
    else
      mkBarState stack (bs_rows st) (changed_num_rows st)
  else
    match bs_stack st with
    | [] => st
    | (c, t0) :: below =>
        if c =? collector_index then
          mkBarState (pop_invalid below)
            (push_bar (bs_rows st) (length below)
               (mkBar t0 time collector_index thread_index frame_number))
            (changed_num_rows st)
        else
          match invalidate_open (bs_stack st) collector_index with
          | Some (i, t1, stack) =>
              mkBarState stack
                (push_bar (bs_rows st) i
                   (mkBar t1 time collector_index thread_index frame_number))
                (changed_num_rows st)
          | None => st
          end
    end.

Definition process_events (start_time : Q) (thread_index frame_number : Z)
    (evs : list Event) (st : BarState) : BarState :=
  fold_left (process_event start_time thread_index frame_number) evs st.

(** "Add all unclosed bars" (lines 224-234). *)
Fixpoint add_unclosed (frame_end : Q) (thread_index frame_number : Z)
    (stack : list StackEntry) (rows : list Row) : list Row :=
  match stack with
  | [] => rows
  | (c, t0) :: below =>
      add_unclosed frame_end thread_index frame_number below
        (if 0 <=? c
         then push_bar rows (length below)
                (mkBar t0 frame_end c thread_index frame_number)
         else rows)
  end.

(** The bars of one frame added to the rows, before any re-sort; the second
    component is [changed_num_rows]. *)
Definition add_frame_bars (start_time : Q) (thread_index frame_number : Z)
    (fd : FrameData) (rows : list Row) : list Row * bool :=
  let st := process_events start_time thread_index frame_number (events fd)
              (mkBarState [] rows false) in
  (add_unclosed (get_end fd) thread_index frame_number (bs_stack st) (bs_rows st),
   changed_num_rows st).

Section WithDeclarations.
Context {D : Declarations}.

(** [std::sort(row.begin(), row.end())]: the row ordered by [operator <].
    [std::sort] does not fix the order of equivalent bars.  The embedding is
    an insertion sort, one of the orders [std::sort] may leave; the
    statements about sorted rows use only that the result is a permutation
    of the row ([sort_row_perm]) in ascending order. *)
Fixpoint insert_bar (b : ColorBar) (row : Row) : Row :=
  match row with
  | [] => [b]
  | x :: row' => if bar_lt b x then b :: x :: row' else x :: insert_bar b row'
  end.

Fixpoint sort_row (row : Row) : Row :=
  match row with
  | [] => []
  | b :: row' => insert_bar b (sort_row row')
  end.

(** [update_bars] on the [ThreadRow] it works on. *)
Definition update_thread_row (start_time : Q) (label : String.string)
    (thread_index frame_number : Z) (fd : FrameData) (tr : ThreadRow)
  : ThreadRow * bool :=
  let (rows, changed) :=
    add_frame_bars start_time thread_index frame_number fd (_rows tr) in
  if (0 <=? _last_frame tr) && (frame_number <? _last_frame tr) then
    (mkThreadRow label (map sort_row rows) (_row_offset tr) (_last_frame tr),
     changed)
  else
    (mkThreadRow label rows (_row_offset tr) frame_number, changed).

(** ** Thread registry *)

Definition new_thread_row (row_offset : nat) : ThreadRow :=
  mkThreadRow String.EmptyString [] row_offset default_last_frame.

(** [_threads[i] = tr]; every call has [i < _threads.size()]. *)
Fixpoint set_thread (threads : list ThreadRow) (i : nat) (tr : ThreadRow)
  : list ThreadRow :=
  match threads, i with
  | [], _ => []
  | _ :: rest, O => tr :: rest
  | t :: rest, S i' => t :: set_thread rest i' tr
  end.

Definition set_threads (tl : TimelineState) (threads : list ThreadRow)
    (threads_changed : bool) : TimelineState :=
  mkTimeline threads threads_changed (_have_start_time tl) (_start_time tl)
    (_target_start_time tl) (_lowest_start_time tl) (_highest_end_time tl)
    (_time_scale tl) (_target_time_scale tl) (_xsize tl) (_guide_bars tl)
    (_guide_bars_changed tl).

Definition set_time_bounds (tl : TimelineState) (have_start_time : bool)
    (start_time lowest_start_time highest_end_time : Q) : TimelineState :=
  mkTimeline (_threads tl) (_threads_changed tl) have_start_time start_time
    (_target_start_time tl) lowest_start_time highest_end_time
    (_time_scale tl) (_target_time_scale tl) (_xsize tl) (_guide_bars tl)
    (_guide_bars_changed tl).

Definition set_guide_bars (tl : TimelineState) (bars : list GuideBar)
  : TimelineState :=
  mkTimeline (_threads tl) (_threads_changed tl) (_have_start_time tl)
    (_start_time tl) (_target_start_time tl) (_lowest_start_time tl)
    (_highest_end_time tl) (_time_scale tl) (_target_time_scale tl)
    (_xsize tl) bars true.

(** [update_bars(thread_index, frame_number)] (lines 164-246).  The callers
    have already fetched the non-null thread data [td]; the thread index is a
    valid index into [_threads] at every call. *)
Definition update_bars (cd : ClientData) (td : ThreadData)
    (tl : TimelineState) (thread_index : nat) (frame_number : Z)
  : TimelineState * bool :=
  match nth_error (_threads tl) thread_index with
  | None => (tl, false)
  | Some tr =>
      let (tr', changed) :=
        update_thread_row (_start_time tl)
          (get_thread_name cd (Z.of_nat thread_index))
          (Z.of_nat thread_index) frame_number
          (get_frame td frame_number) tr in
      (set_threads tl (set_thread (_threads tl) thread_index tr')
         (_threads_changed tl), changed)
  end.

(** One iteration of the loop at lines 122-132. *)
Definition add_thread (threads : list ThreadRow) : list ThreadRow :=
  match rev threads with
  | [] => [new_thread_row default_row_offset]
  | prev :: _ =>
      threads ++ [new_thread_row (_row_offset prev + length (_rows prev) + 1)]
  end.

(** [while (thread_index >= _threads.size()) ...]. *)
Definition grow_threads (threads : list ThreadRow) (thread_index : nat)
  : list ThreadRow :=
  Nat.iter (S thread_index - length threads) add_thread threads.

(** Lines 138-142: the offsets of the thread rows after the first one of
    the list are recomputed in index order. *)
Fixpoint assign_offsets (offset : nat) (threads : list ThreadRow)
  : list ThreadRow :=
  match threads with
  | [] => []
  | tr :: rest =>
      mkThreadRow (_label tr) (_rows tr) offset (_last_frame tr)
        :: assign_offsets (offset + length (_rows tr) + 1) rest
  end.

Definition shift_following (threads : list ThreadRow) (thread_index : nat)
  : list ThreadRow :=
  match nth_error threads thread_index with
  | None => threads
  | Some thread_row =>
      firstn (S thread_index) threads
        ++ assign_offsets
             (_row_offset thread_row + length (_rows thread_row) + 1)
             (skipn (S thread_index) threads)
  end.

(** ** Guide bars (lines 382-474) *)

(** [std::lower_bound(row.begin(), row.end(), value)], returned as the part
    of the row from the iterator on: the bars after the leading ones that
    are less than [value].  On a row partitioned with respect to [value],
    which is what [std::lower_bound] requires, this is the iterator it
    returns. *)
Fixpoint lower_bound (row : Row) (value : ColorBar) : Row :=
  match row with
  | [] => []
  | b :: rest => if bar_lt b value then lower_bound rest value else row
  end.

(** [while (it != row.end() && it->_collector_index != 0) ++it;] *)
Fixpoint skip_to_frame (it : Row) : Row :=
  match it with
  | [] => []
  | b :: rest => if _collector_index b =? 0 then it else skip_to_frame rest
  end.

(** [_guide_bars.back()._label.clear()] when the new frame bar is less than
    30 pixels to the right of the last guide bar. *)
Definition clear_last_label (tl : TimelineState) (frame_start : Q)
    (bars : list GuideBar) : list GuideBar :=
  match rev bars with
  | [] => bars
  | last :: before =>
      if height_to_pixel tl (frame_start - _height last) <? 30
      then rev before ++ [mkGuideBar (_height last) LabelCleared (_style last)]
      else bars
  end.

(** The conversion [(int)x] of a [double]. *)
Definition double_to_int (x : Q) : Z :=
  if in_int_range (Qtrunc x) then Qtrunc x else int_of_out_of_range x.

(** [(int)std::round(x)]. *)
Definition round_to_int (x : Q) : Z :=
  double_to_int (inject_Z (Qround_half_away x)).

(** The "+offset" bars inside one frame (lines 448-458). *)
Definition offset_bars (interval start_time frame_start frame_width : Q)
  : list GuideBar :=
  if Qltb 0 interval then
    let first_bar :=
      Z.max (double_to_int ((start_time - frame_start) / interval)) 1 in
    let num_bars := round_to_int (frame_width / interval) in
    map (fun i =>
           let offset := (inject_Z i * interval)%Q in
           mkGuideBar (frame_start + offset) (LabelOffset offset) GBS_normal)
        (zrange first_bar num_bars)
  else [].

(** The loop at lines 414-459.  At the top of every iteration the iterator
    is at a bar of collector 0 or at the end, so the recursion walks the row
    bar by bar and passes over the bars of other collectors, which is what
    the inner [do ++it while] loop does. *)
Fixpoint frame_guide_bars (tl : TimelineState)
    (interval start_time end_time : Q) (max_frames : Z)
    (it : Row) (num_frames : Z) (bars : list GuideBar) : list GuideBar :=
  match it with
  | [] => bars
  | b :: rest =>
      if negb (_collector_index b =? 0) then
        frame_guide_bars tl interval start_time end_time max_frames
          rest num_frames bars
      else if Qltb end_time (_start b) then bars
      else
        let frame_start := _start b in
        let frame_width :=
          match skip_to_frame rest with
          | next :: _ =>
              fmin (_start next - frame_start) (end_time - frame_start)
          | [] => (end_time - frame_start)%Q
          end in
        if Qltb start_time frame_start then
          let bars1 := clear_last_label tl frame_start bars
                       ++ [mkGuideBar frame_start
                             (LabelFrame (_frame_number b)) GBS_frame] in
          if max_frames <? num_frames + 1 then []
          else
            frame_guide_bars tl interval start_time end_time max_frames
              rest (num_frames + 1)
              (bars1 ++ offset_bars interval start_time frame_start frame_width)
        else
          frame_guide_bars tl interval start_time end_time max_frames
            rest num_frames
            (bars ++ offset_bars interval start_time frame_start frame_width)
  end.

(** Lines 403-460: the guide bars taken from the frame bars of the first
    row of the first thread. *)
Definition frame_pass (tl : TimelineState) (interval start_time end_time : Q)
  : list GuideBar :=
  match _threads tl with
  | [] => []
  | thread0 :: _ =>
      match _rows thread0 with
      | [] => []
      | row :: _ =>
          frame_guide_bars tl interval start_time end_time
            (Z.quot (_xsize tl) 100)
            (skip_to_frame (lower_bound row (mkBar 0 start_time 0 0 0)))
            0 []
      end
  end.

(** Lines 462-471: gridlines at absolute times. *)
Definition absolute_bars (interval start_time end_time : Q)
  : list GuideBar :=
  let first_bar := Z.max (double_to_int (start_time / interval)) 1 in
  let num_bars := round_to_int (end_time / interval) in
  map (fun i =>
         let time := (inject_Z i * interval)%Q in
         mkGuideBar time (LabelTime time) GBS_frame)
      (zrange first_bar num_bars).

Definition is_nil {A : Type} (l : list A) : bool :=
  match l with [] => true | _ :: _ => false end.

(** The guide bars that [normal_guide_bars] leaves in [_guide_bars]. *)
Definition computed_guide_bars (tl : TimelineState) : list GuideBar :=
  let start_time := get_horizontal_scroll tl in
  let time_width := get_horizontal_scale tl in
  let end_time := (start_time + time_width)%Q in
  let interval := guide_interval (pixel_to_height tl 150) in
  let bars := frame_pass tl interval start_time end_time in
  if is_nil bars && Qltb 0 interval
  then absolute_bars interval start_time end_time
  else bars.

Definition normal_guide_bars (tl : TimelineState) : TimelineState :=
  set_guide_bars tl (computed_guide_bars tl).

(** ** Ingestion *)

(** Lines 110-120 of [new_data]: the first frame seen fixes the window
    start; afterwards the bounds over all data are widened. *)
Definition note_frame_times (tl : TimelineState) (frame_start frame_end : Q)
  : TimelineState :=
  let tl1 :=
    if negb (_have_start_time tl) then
      set_time_bounds tl true frame_start frame_start (_highest_end_time tl)
    else if Qltb (_start_time tl) (_lowest_start_time tl) then
      set_time_bounds tl (_have_start_time tl) (_start_time tl)
        (_start_time tl) (_highest_end_time tl)
    else tl in
  if Qltb (_highest_end_time tl1) frame_end then
    set_time_bounds tl1 (_have_start_time tl1) (_start_time tl1)
      (_lowest_start_time tl1) frame_end
  else tl1.

(** Lines 122-132 of [new_data]. *)
Definition register_thread (tl : TimelineState) (thread_index : nat)
  : TimelineState :=
  if (length (_threads tl) <=? thread_index)%nat then
    set_threads tl (grow_threads (_threads tl) thread_index) true
  else tl.

(** Lines 134-152 of [new_data].  The drawing hooks ([force_redraw],
    [begin_draw], [draw_thread], [end_draw]) change no member and are left
    out. *)
Definition ingest_frame (cd : ClientData) (td : ThreadData)
    (tl : TimelineState) (thread_index : nat) (frame_number : Z)
    (frame_start frame_end : Q) : TimelineState :=
  let (tl', changed) := update_bars cd td tl thread_index frame_number in
  if changed then
    normal_guide_bars
      (set_threads tl' (shift_following (_threads tl') thread_index) true)
  else if Qle_bool (_start_time tl') frame_end
          || Qle_bool frame_start (_start_time tl' + get_horizontal_scale tl')
  then normal_guide_bars tl'
  else tl'.

(** [new_data(thread_index, frame_number)] (lines 97-157) with the client
    data that [_monitor->get_client_data()] returns at the call; the final
    [idle()] hook changes no member.  The [int thread_index] is a [nat]: the
    loop at line 122 registers every thread up to it, which cannot end for a
    negative index converted to [size_t]. *)
Definition new_data (client_data : option ClientData) (tl : TimelineState)
    (thread_index : nat) (frame_number : Z) : TimelineState :=
  match client_data with
  | None => tl
  | Some cd =>
      match get_thread_data cd (Z.of_nat thread_index) with
      | None => tl
      | Some td =>
          if is_empty td then tl
          else
            let frame_data := get_frame td frame_number in
            let frame_start := get_start frame_data in
            let frame_end := get_end frame_data in
            ingest_frame cd td
              (register_thread
                 (note_frame_times tl frame_start frame_end) thread_index)
              thread_index frame_number frame_start frame_end
      end
  end.

(** A sequence of [new_data] calls, each with the client data of the
    monitor at its time. *)
Definition ingest (tl : TimelineState)
    (calls : list (option ClientData * nat * Z)) : TimelineState :=
  fold_left (fun t call => new_data (fst (fst call)) t (snd (fst call)) (snd call))
    calls tl.

(** The body of the constructor's loop over the threads (lines 42-74);
    [row_offset] is the local variable of that name. *)
Definition load_thread (cd : ClientData) (acc : TimelineState * nat)
    (thread_index : nat) : TimelineState * nat :=
  let (tl, row_offset) := acc in
  let tl1 :=
    set_threads tl (_threads tl ++ [new_thread_row row_offset])
      (_threads_changed tl) in
  let back := length (_threads tl) in
  let tl2 :=
    match get_thread_data cd (Z.of_nat thread_index) with
    | None => tl1
    | Some td =>
        let tlc := set_threads tl1 (_threads tl1) true in
        if is_empty td then tlc
        else
          let oldest_frame := get_oldest_frame_number td in
          let latest_frame := get_latest_frame_number td in
          let oldest_start_time := get_start (get_frame td oldest_frame) in
          let latest_end_time := get_end (get_frame td latest_frame) in
          let lowest :=
            if negb (_have_start_time tlc) then oldest_start_time
            else fmin (_lowest_start_time tlc) oldest_start_time in
          let tlb :=
            set_time_bounds tlc true (_start_time tlc) lowest
              (fmax (_highest_end_time tlc) latest_end_time) in
          fold_left
            (fun t frame => fst (update_bars cd td t thread_index frame))
            (zrange oldest_frame (latest_frame + 1)) tlb
    end in
  let rows_size :=
    match nth_error (_threads tl2) back with
    | Some thread_row => length (_rows thread_row)
    | None => O
    end in
  (tl2, (row_offset + rows_size + 1)%nat).

(** The constructor (lines 26-81) from the members as the member
    initialisers and the base class leave them ([init], whose [_threads] is
    empty), with the client data of the monitor.  [_guide_bar_units] and the
    registration with the monitor play no part in what follows and are left
    out. *)
Definition PStatTimeline (init : TimelineState)
    (client_data : option ClientData) : TimelineState :=
  let tl0 :=
    mkTimeline [] (_threads_changed init) (_have_start_time init)
      (_start_time init) (_target_start_time init) (_lowest_start_time init)
      (_highest_end_time init) (1 / 10000) (1 / 10000) (_xsize init)
      (_guide_bars init) (_guide_bars_changed init) in
  let tl1 :=
    match client_data with
    | None => tl0
    | Some cd =>
        fst (fold_left (load_thread cd)
               (seq 0 (Z.to_nat (get_num_threads cd))) (tl0, O))
    end in
  mkTimeline (_threads tl1) (_threads_changed tl1) (_have_start_time tl1)
    (_lowest_start_time tl1) (_lowest_start_time tl1) (_lowest_start_time tl1)
    (_highest_end_time tl1) (_time_scale tl1) (_target_time_scale tl1)
    (_xsize tl1) (_guide_bars tl1) (_guide_bars_changed tl1).

(** ** Hit test (lines 680-703) *)

Fixpoint find_bar_in (threads : list ThreadRow) (row : Z) (time : Q)
  : option ColorBar :=
  match threads with
  | [] => None
  | thread_row :: rest =>
      if size_t_of_int row <? Z.of_nat (_row_offset thread_row) then None
      else
        let row_index := row - int_of_size_t (Z.of_nat (_row_offset thread_row)) in
        if size_t_of_int row_index <? Z.of_nat (length (_rows thread_row)) then
          match nth_error (_rows thread_row) (Z.to_nat row_index) with
          | Some bars =>
              match lower_bound bars (mkBar time time 0 0 0) with
              | it :: _ =>
                  if Qle_bool (_start it) time then Some it
                  else find_bar_in rest row time
              | [] => find_bar_in rest row time
              end
          | None => find_bar_in rest row time
          end
        else find_bar_in rest row time
  end.

(** [find_bar(row, x, bar)]: [Some bar] when it returns [true] with [bar]
    filled in, [None] when it returns [false]. *)
Definition find_bar (tl : TimelineState) (row x : Z) : option ColorBar :=
  find_bar_in (_threads tl) row (pixel_to_timestamp tl x).

(** ** Drawing one thread (lines 495-505) *)

(** What a call of [draw_thread] does with [_threads]: it returns at the
    guard, or it evaluates [_threads[(size_t)thread_index]], inside or
    outside the bounds of the vector. *)
Inductive ThreadAccess : Type :=
| ReturnedAtGuard
| IndexedWithin (thread_row : ThreadRow) (rows_drawn : list nat)
| IndexedOutOfBounds (index size : nat).

Definition draw_thread (tl : TimelineState) (thread_index : Z)
  : ThreadAccess :=
  if (thread_index <? 0)
     || (Z.of_nat (length (_threads tl)) <? size_t_of_int thread_index)
  then ReturnedAtGuard
  else
    let i := Z.to_nat (size_t_of_int thread_index) in
    match nth_error (_threads tl) i with
    | Some thread_row =>
        IndexedWithin thread_row (seq 0 (length (_rows thread_row)))
    | None => IndexedOutOfBounds i (length (_threads tl))
    end.

End WithDeclarations.

(** ** Notions used in the statements *)

(** A property of all bars in the rows. *)
Definition rows_all (P : ColorBar -> Prop) (rows : list Row) : Prop :=
  Forall (Forall P) rows.

(** A property of all start times recorded on the stack. *)
Definition stack_all (Pt : Q -> Prop) (stack : list StackEntry) : Prop :=
  Forall (fun e => Pt (snd e)) stack.

(** The time stamps of the events do not decrease in event order and lie
    between [lo] and [hi]. *)
Fixpoint times_ascend (lo hi : Q) (evs : list Event) : Prop :=
  match evs with
  | [] => (lo <= hi)%Q
  | e :: rest => (lo <= ev_time e)%Q /\ times_ascend (ev_time e) hi rest
  end.

Definition bar_in_frame (fd : FrameData) (b : ColorBar) : Prop :=
  (_start b <= _end b)%Q
  /\ (get_start fd <= _start b)%Q
  /\ (_end b <= get_end fd)%Q.

(** Row-wise concatenation: row [i] of the result is row [i] of [rows]
    followed by row [i] of [extra]. *)
Fixpoint rows_app (rows extra : list Row) : list Row :=
  match rows, extra with
  | [], _ => extra
  | _, [] => rows
  | r :: rs, x :: xs => (r ++ x) :: rows_app rs xs
  end.

(** The rows that one frame produces on its own. *)
Definition frame_rows (start_time : Q) (thread_index frame_number : Z)
    (fd : FrameData) : list Row :=
  fst (add_frame_bars start_time thread_index frame_number fd []).

(** Two lists of rows hold the same bars row by row, up to the order
    inside each row. *)
Definition rows_equiv (a b : list Row) : Prop :=
  Forall2 (@Permutation ColorBar) a b.

(** The claim's relation between neighbouring threads. *)
Definition offsets_consistent (threads : list ThreadRow) : Prop :=
  forall i prev tr,
    nth_error threads i = Some prev ->
    nth_error threads (S i) = Some tr ->
    _row_offset tr = (_row_offset prev + length (_rows prev) + 1)%nat
    /\ (_row_offset prev < _row_offset tr)%nat.

(** The same, as a chain from the offset of the first thread. *)
Fixpoint offsets_from (offset : nat) (threads : list ThreadRow) : Prop :=
  match threads with
  | [] => True
  | tr :: rest =>
      _row_offset tr = offset
      /\ offsets_from (offset + length (_rows tr) + 1) rest
  end.

(** The number of global rows that the threads take, separators included. *)
Fixpoint rows_span (threads : list ThreadRow) : nat :=
  match threads with
  | [] => O
  | tr :: rest => (length (_rows tr) + 1 + rows_span rest)%nat
  end.

Definition offsets_chained (threads : list ThreadRow) : Prop :=
  exists offset, offsets_from offset threads.

(** The rows of a thread; a thread that is not registered has none. *)
Definition thread_rows (tl : TimelineState) (thread_index : nat) : list Row :=
  match nth_error (_threads tl) thread_index with
  | Some tr => _rows tr
  | None => []
  end.

(** All frames of a list added row-wise, in the order of the list. *)
Definition rows_of_frames (start_time : Q) (thread_index : Z)
    (td : ThreadData) (frames : list Z) (rows : list Row) : list Row :=
  fold_left
    (fun acc frame =>
       rows_app acc (frame_rows start_time thread_index frame (get_frame td frame)))
    frames rows.

Definition calls_for (cd : ClientData) (thread_index : nat) (frames : list Z)
  : list (option ClientData * nat * Z) :=
  map (fun frame => (Some cd, thread_index, frame)) frames.

(** The bar contains the time (bars are closed time ranges). *)
Definition bar_contains (b : ColorBar) (time : Q) : Prop :=
  (_start b <= time)%Q /\ (time <= _end b)%Q.

(** The row invariant of the data model: every bar has start <= end, and
    a bar ends before the next one starts. *)
Fixpoint row_ordered (bars : Row) : Prop :=
  match bars with
  | [] => True
  | b :: rest =>
      (_start b <= _end b)%Q
      /\ match rest with
         | [] => True
         | next :: _ => (_end b <= _start next)%Q
         end
      /\ row_ordered rest
  end.

(** The global row index falls on the given row of some thread. *)
Definition resolves_to (threads : list ThreadRow) (row : Z) (bars : Row)
  : Prop :=
  exists i tr d,
    nth_error threads i = Some tr
    /\ nth_error (_rows tr) d = Some bars
    /\ row = Z.of_nat (_row_offset tr + d).

(** The number of frame bars that the loop of [normal_guide_bars] meets
    inside the window, that is, with a start after the window start, before
    it reaches a frame bar that starts after the window end. *)
Fixpoint boundaries_in_window (start_time end_time : Q) (it : Row) : Z :=
  match it with
  | [] => 0
  | b :: rest =>
      if negb (_collector_index b =? 0) then
        boundaries_in_window start_time end_time rest
      else if Qltb end_time (_start b) then 0
      else (if Qltb start_time (_start b) then 1 else 0)
           + boundaries_in_window start_time end_time rest
  end.

(** A property of all bars of all threads. *)
Definition threads_all (P : ColorBar -> Prop) (threads : list ThreadRow)
  : Prop :=
  Forall (fun tr => rows_all P (_rows tr)) threads.

(** The bounds over all data seen hold for the bars of the view, and a
    view that has no start time yet has no bars. *)
Definition time_bounds_hold (tl : TimelineState) : Prop :=
  (_have_start_time tl = false -> threads_all (fun _ => False) (_threads tl))
  /\ threads_all
       (fun b => (_lowest_start_time tl <= _start b)%Q
                 /\ (_end b <= _highest_end_time tl)%Q)
       (_threads tl).

(** No event of the frame is later than the end of the frame. *)
Definition events_end_in_frame (fd : FrameData) : Prop :=
  Forall (fun e => (ev_time e <= get_end fd)%Q) (events fd).

(** The frame of every call has no event later than its end. *)
Definition calls_end_in_frame (calls : list (option ClientData * nat * Z))
  : Prop :=
  Forall
    (fun call =>
       match fst (fst call) with
       | Some cd =>
           match get_thread_data cd (Z.of_nat (snd (fst call))) with
           | Some td => events_end_in_frame (get_frame td (snd call))
           | None => True
           end
       | None => True
       end)
    calls.

(** The recorded frames of every thread lie, with all their events,
    between the start of the thread's oldest frame and the end of its latest
    frame. *)
Definition recorded_frames_in_range (cd : ClientData) : Prop :=
  forall thread_index td frame,
    get_thread_data cd (Z.of_nat thread_index) = Some td ->
    is_empty td = false ->
    get_oldest_frame_number td <= frame <= get_latest_frame_number td ->
    (get_end (get_frame td frame)
     <= get_end (get_frame td (get_latest_frame_number td)))%Q
    /\ Forall
         (fun e =>
            (get_start (get_frame td (get_oldest_frame_number td))
             <= ev_time e)%Q
            /\ (ev_time e
                <= get_end (get_frame td (get_latest_frame_number td)))%Q)
         (events (get_frame td frame)).

End Timeline.

(** ** The guide bar interval, over the reals (lines 389-397) *)

Module GuideInterval.

(** [log10]. *)
Definition log10 (x : R) : R := (ln x / ln 10)%R.

(** [int l = (int)std::floor(3.0 * log10(pixel_to_height(150)) + 0.5)]. *)
Definition level (target : R) : Z := Zfloor (3 * log10 target + 1 / 2)%R.

(** Lines 391-397: [pow(10.0, std::ceil(l / 3.0))], divided by 5 or 2
    according to [(l + 3000) % 3]; [%] is the remainder of the truncated
    division. *)
Definition interval_of_level (l : Z) : R :=
  let interval := Rpower 10 (IZR (Zceil (IZR l / 3))) in
  if Z.rem (l + 3000) 3 =? 1 then (interval / 5)%R
  else if Z.rem (l + 3000) 3 =? 2 then (interval / 2)%R
  else interval.

Definition guide_interval (target : R) : R := interval_of_level (level target).

(** The 1/2/5 decade sequence: 1, 2 or 5 times an integer power of 10. *)
Definition on_125_sequence (x : R) : Prop :=
  exists e : Z,
    (x = powerRZ 10 e \/ x = 2 * powerRZ 10 e \/ x = 5 * powerRZ 10 e)%R.

End GuideInterval.

(** ** The animation tick, over the reals (lines 590-675) *)

Module Animate.

(** The members of [PStatTimeline] that [animate] reads or writes. *)
Record View : Type := mkView {
  _keys_held : Z;
  _scroll_speed : R;
  _zoom_speed : R;
  _zoom_center : R;
  _time_scale : R;
  _target_time_scale : R;
  _start_time : R;
  _target_start_time : R
}.

(** Declarations of pStatTimeline.h and pStatTimeline.I that [animate]
    uses: the key flags and the inline functions that zoom and scroll. *)
Class Declarations : Type := {
  F_left : Z; F_right : Z; F_w : Z; F_a : Z; F_s : Z; F_d : Z;
  get_horizontal_scale : View -> R;
  zoom_to : View -> R -> R -> View;
  scroll_by : View -> R -> View
}.

(** [(keys & mask) != 0] as an [int]. *)
Definition held (keys mask : Z) : Z :=
  if Z.land keys mask =? 0 then 0 else 1.

(** Lines 597-614 (and 616-633): a held direction accelerates, otherwise
    the speed decays and is cut to zero below 0.2. *)
Definition next_speed (move : Z) (speed dt : R) : R :=
  if 0 <? move then
    ((if Rlt_dec speed 0 then 1 else speed) + 1)%R
  else if move <? 0 then
    ((if Rlt_dec 0 speed then -1 else speed) - 1)%R
  else if Req_dec_T speed 0 then speed
  else
    let decayed := (speed * exp (-12 * dt))%R in
    if Rlt_dec (Rabs decayed) (2 / 10) then 0%R else decayed.

Definition with_speeds (v : View) (scroll_speed zoom_speed : R) : View :=
  mkView (_keys_held v) scroll_speed zoom_speed (_zoom_center v)
    (_time_scale v) (_target_time_scale v) (_start_time v)
    (_target_start_time v).

Definition with_start_time (v : View) (start_time : R) : View :=
  mkView (_keys_held v) (_scroll_speed v) (_zoom_speed v) (_zoom_center v)
    (_time_scale v) (_target_time_scale v) start_time (_target_start_time v).

Definition with_time_scale (v : View) (time_scale : R) : View :=
  mkView (_keys_held v) (_scroll_speed v) (_zoom_speed v) (_zoom_center v)
    time_scale (_target_time_scale v) (_start_time v) (_target_start_time v).

Section WithDeclarations.
Context {D : Declarations}.

(** Lines 592-641: the speeds, then zooming and scrolling at those
    speeds. *)
Definition move_view (v : View) (dt : R) : View :=
  let hmove := held (_keys_held v) (Z.lor F_right F_d)
               - held (_keys_held v) (Z.lor F_left F_a) in
  let vmove := held (_keys_held v) F_w - held (_keys_held v) F_s in
  let v1 := with_speeds v (next_speed hmove (_scroll_speed v) dt)
              (next_speed vmove (_zoom_speed v) dt) in
  let v2 :=
    if Req_dec_T (_zoom_speed v1) 0 then v1
    else zoom_to v1
           (get_horizontal_scale v1 * Rpower (1 / 2) (_zoom_speed v1 * dt))%R
           (_zoom_center v1) in
  if Req_dec_T (_scroll_speed v2) 0 then v2
  else scroll_by v2 (_scroll_speed v2 * 300 * _time_scale v2 * dt)%R.

(** Lines 643-652. *)
Definition ease_start_time (v : View) (dt : R) : View :=
  if Req_dec_T (_target_start_time v) (_start_time v) then v
  else
    let dist := (_target_start_time v - _start_time v)%R in
    if Rlt_dec (Rabs dist) (_time_scale v * 2) then
      with_start_time v (_target_start_time v)
    else
      with_start_time v (_start_time v + dist * (1 - exp (-12 * dt)))%R.

(** Lines 654-664. *)
Definition ease_time_scale (v : View) (dt : R) : View :=
  if Req_dec_T (_target_time_scale v) (_time_scale v) then v
  else
    let dist := (_target_time_scale v - _time_scale v)%R in
    if Req_dec_T (_target_start_time v) (_start_time v) then
      if Rlt_dec (Rabs dist) (1 / 100) then
        with_time_scale v (_target_time_scale v)
      else with_time_scale v (_time_scale v + dist * (1 - exp (-12 * dt)))%R
    else with_time_scale v (_time_scale v + dist * (1 - exp (-12 * dt)))%R.

(** [animate(time, dt)]: the view after the tick and the returned flag;
    [normal_guide_bars] and [force_redraw] change none of these members. *)
Definition animate (v : View) (dt : R) : View * bool :=
  let v' := ease_time_scale (ease_start_time (move_view v dt) dt) dt in
  (v',
   negb (_keys_held v' =? 0)
   || (if Req_dec_T (_scroll_speed v') 0 then false else true)
   || (if Req_dec_T (_zoom_speed v') 0 then false else true)
   || (if Req_dec_T (_target_start_time v') (_start_time v') then false else true)
   || (if Req_dec_T (_target_time_scale v') (_time_scale v') then false else true)).

End WithDeclarations.

(** A view at rest (no key held, no speed) whose start time is one time
    unit away from its target and whose time scale is 0.0001 away from its
    target. *)
Definition far_view : View :=
  mkView 0 0 0 0 (1 / 10000) (2 / 10000) 0 1.

(** A view at rest whose start time is at its target and whose time scale
    is 0.0001 away from its target. *)
Definition near_view : View :=
  mkView 0 0 0 0 (1 / 10000) (2 / 10000) 1 1.

End Animate.

(** ** A concrete set of declarations *)

Module Reference.
Import Timeline.

(** The comparison of two bars by their end times.  Both lookups of the
    source probe a row with a bar whose end is the time looked for
    ([ColorBar {0.0, start_time}], [ColorBar {time, time}]) and describe the
    result as "the first element whose end time is larger than" that time. *)
Definition end_lt (a b : ColorBar) : bool := Qltb (_end a) (_end b).

(** Modelled from the spec: the inline accessors of pStatTimeline.I, which
    is not among the sources.  [time-scale] is in time units per pixel and
    [start-time] is the left edge of the window, pixels and times being
    related by that affine transform; the window is [_xsize] pixels wide.
    A fresh [ThreadRow] starts at offset 0 with no frame seen ([-1]). *)
Definition decls (interval : Q -> Q) : Declarations := {|
  bar_lt := end_lt;
  default_row_offset := 0%nat;
  default_last_frame := -1;
  pixel_to_timestamp := fun tl x => (_start_time tl + inject_Z x * _time_scale tl)%Q;
  pixel_to_height := fun tl x => (inject_Z x * _time_scale tl)%Q;
  height_to_pixel := fun tl h => Qtrunc (h / _time_scale tl);
  get_horizontal_scroll := _start_time;
  get_horizontal_scale := fun tl => (_time_scale tl * inject_Z (_xsize tl))%Q;
  guide_interval := interval;
  int_of_out_of_range := fun _ => - 2 ^ 31
|}.

End Reference.

(** ** Concrete inputs *)

Module Examples.
Import Timeline Reference.

(** Declarations with a guide bar interval of one time unit, which is what
    lines 390-397 compute when 150 pixels span one time unit
    ([GuideIntervalFacts.guide_interval_of_1]). *)
Definition unit_decls : Declarations := decls (fun _ => 1%Q).

(** A client with one thread, all of whose frames are [fd]. *)
Definition one_thread_client (fd : FrameData) : ClientData :=
  mkClientData 1
    (fun i => if i =? 0 then Some (mkThreadData false 1 1 (fun _ => fd))
              else None)
    (fun _ => String.EmptyString).

Definition one_thread_data (fd : FrameData) : ThreadData :=
  mkThreadData false 1 1 (fun _ => fd).

(** A view with the given window start and one registered thread without
    rows. *)
Definition view_at (start_time : Q) : TimelineState :=
  mkTimeline [mkThreadRow String.EmptyString [] 0 (-1)] false true
    start_time start_time start_time start_time (1 / 10000) (1 / 10000)
    800 [] false.

(** The frame of the spec's scenario: collector 3 nested in the frame
    collector 0. *)
Definition nested_frame : FrameData :=
  mkFrame 0 10
    [mkEvent 0 0 true; mkEvent 3 1 true; mkEvent 3 4 false;
     mkEvent 0 10 false].

(** Collector 7 ends before its child 8. *)
Definition malformed_frame : FrameData :=
  mkFrame 0 3
    [mkEvent 7 0 true; mkEvent 8 1 true; mkEvent 7 2 false;
     mkEvent 8 3 false].

(** A frame with the single bar of collector 0 from 0 to 10. *)
Definition early_frame : FrameData :=
  mkFrame 0 10 [mkEvent 0 0 true; mkEvent 0 10 false].

(** A frame with the single bar of collector 0 from 20 to 30. *)
Definition late_frame : FrameData :=
  mkFrame 20 30 [mkEvent 0 20 true; mkEvent 0 30 false].

(** A client whose only thread has recorded frame 1 ([early_frame]) and
    frame 2 ([late_frame]). *)
Definition two_frame_client : ClientData :=
  mkClientData 1
    (fun i =>
       if i =? 0
       then Some (mkThreadData false 1 2
                    (fun f => if f =? 1 then early_frame else late_frame))
       else None)
    (fun _ => String.EmptyString).

(** A client whose only thread has recorded frame 2 ([late_frame]) only. *)
Definition late_frame_client : ClientData :=
  mkClientData 1
    (fun i => if i =? 0 then Some (mkThreadData false 2 2 (fun _ => late_frame))
              else None)
    (fun _ => String.EmptyString).

(** The members of a [PStatTimeline] before the body of its constructor
    runs: nothing seen, all times zero, a widget 800 pixels wide. *)
Definition unloaded : TimelineState :=
  mkTimeline [] false false 0 0 0 0 0 0 800 [] false.

(** The view constructed on a monitor without client data. *)
Definition empty_view : TimelineState :=
  @PStatTimeline unit_decls unloaded None.

(** The view constructed on a monitor that holds frame 2 only. *)
Definition late_view : TimelineState :=
  @PStatTimeline unit_decls unloaded (Some late_frame_client).

(** Frame 1 of [two_frame_client] arrives for thread 0. *)
Definition late_arrival : list (option ClientData * nat * Z) :=
  [(Some two_frame_client, 0%nat, 1)].

(** A view with one thread whose only row holds the bars [0,10] and
    [20,30]; a pixel is 1/10000 of a time unit and the window starts at 0. *)
Definition two_bar_view : TimelineState :=
  mkTimeline
    [mkThreadRow String.EmptyString
       [[mkBar 0 10 0 0 1; mkBar 20 30 0 0 2]] 0 2]
    false true 0 0 0 30 (1 / 10000) (1 / 10000) 800 [] false.

(** The frame bars of frames 1 to 9, half a time unit each, starting at
    0.5, 1, 1.5, ..., 4.5. *)
Definition nine_frames : list ColorBar :=
  map (fun k => mkBar (Z.of_nat k # 2) (Z.of_nat (S k) # 2) 0 0 (Z.of_nat k))
      (seq 1 9).

(** A view of 800 pixels with 150 pixels per time unit, starting at time 0,
    whose first thread holds the nine frame bars: the window spans 5.33 time
    units and all nine frames start inside it. *)
Definition dense_view : TimelineState :=
  mkTimeline [mkThreadRow String.EmptyString [nine_frames] 0 9]
    false true 0 0 0 5 (1 / 150) (1 / 150) 800 [] false.

End Examples.

(** ** Notions for the ingestion *)

Module Ingestion.
Import Timeline.

(** The number of bars in the rows. *)
Definition bar_count (rows : list Row) : nat := length (concat rows).

(** The number of start events. *)
Definition start_count (evs : list Event) : nat :=
  length (filter ev_is_start evs).

(** The number of stack entries that are still open, that is, whose
    collector has not been set to [-1]. *)
Definition open_count (stack : list StackEntry) : nat :=
  length (filter (fun e => 0 <=? fst e) stack).

(** Blocks of properly nested events: every start is followed, after a
    properly nested block, by the end of the same collector. *)
Inductive well_nested : list Event -> Prop :=
| well_nested_nil : well_nested []
| well_nested_pair (c : Z) (t t' : Q) (inner rest : list Event) :
    well_nested inner -> well_nested rest ->
    well_nested (mkEvent c t true :: inner ++ mkEvent c t' false :: rest).

(** The end times of the bars do not decrease along the row. *)
Fixpoint ends_ascend (bars : Row) : Prop :=
  match bars with
  | [] => True
  | b :: rest =>
      match rest with
      | [] => True
      | next :: _ => (_end b <= _end next)%Q
      end
      /\ ends_ascend rest
  end.

(** What the constructor leaves in the thread row of thread
    [thread_index]: no rows when the client has no data for the thread, and
    otherwise the bars of the recorded frames, from the oldest to the latest,
    with starts clamped to [start_time]. *)
Definition loaded_rows (cd : ClientData) (start_time : Q) (thread_index : nat)
    (rows : list Row) : Prop :=
  match get_thread_data cd (Z.of_nat thread_index) with
  | Some td =>
      if is_empty td then rows = []
      else
        rows_equiv rows
          (rows_of_frames start_time (Z.of_nat thread_index) td
             (zrange (get_oldest_frame_number td)
                (get_latest_frame_number td + 1))
             [])
  | None => rows = []
  end.

(** The subscripts of [thread_row._rows] that [update_bars] evaluates,
    each with the size of [_rows] at that moment. *)

(** Lines 194 and 209: the row that an end event writes to, if any. *)
Definition written_row (st : BarState) (e : Event) : option nat :=
  if ev_is_start e then None
  else
    match bs_stack st with
    | [] => None
    | (c, _) :: below =>
        if c =? ev_collector e then Some (length below)
        else
          match invalidate_open (bs_stack st) (ev_collector e) with
          | Some (i, _, _) => Some i
          | None => None
          end
    end.

Fixpoint event_accesses (start_time : Q) (thread_index frame_number : Z)
    (evs : list Event) (st : BarState) : list (nat * nat) :=
  match evs with
  | [] => []
  | e :: evs' =>
      match written_row st e with
      | Some i => [(i, length (bs_rows st))]
      | None => []
      end
      ++ event_accesses start_time thread_index frame_number evs'
           (process_event start_time thread_index frame_number st e)
  end.

(** Line 228: [_rows[stack.size() - 1]] for every unclosed entry. *)
Fixpoint unclosed_accesses (stack : list StackEntry) (size : nat)
  : list (nat * nat) :=
  match stack with
  | [] => []
  | (c, _) :: below =>
      (if 0 <=? c then [(length below, size)] else [])
      ++ unclosed_accesses below size
  end.

Definition frame_accesses (start_time : Q) (thread_index frame_number : Z)
    (fd : FrameData) (rows : list Row) : list (nat * nat) :=
  let st := process_events start_time thread_index frame_number (events fd)
              (mkBarState [] rows false) in
  event_accesses start_time thread_index frame_number (events fd)
    (mkBarState [] rows false)
  ++ unclosed_accesses (bs_stack st) (length (bs_rows st)).

End Ingestion.

(** ** Drawing (lines 323-377 and 510-546) *)

Module Drawing.
Import Timeline.

(** The drawing hooks ([clear_region], [begin_draw], [draw_guide_bar],
    [draw_separator], [draw_bar], [end_draw]) have empty bodies here and are
    overridden by the user class.  The drawing functions are embedded as the
    sequence of hook calls they make. *)

(** The last argument of [draw_bar]: the name that the client data gives
    the collector, or ["Frame "] followed by the frame number. *)
Inductive BarName : Type :=
| CollectorName (collector_index : Z)
| FrameName (frame_number : Z).

Inductive DrawCall : Type :=
| clear_region
| begin_draw
| end_draw
| draw_guide_bar (x : Z) (style : GuideBarStyle)
| draw_separator (row : Z)
| draw_bar (row from_x to_x collector_index : Z) (name : BarName).

(** A drawing function yields the calls it makes, or [None] when it
    evaluates an element outside a vector or calls a member of a null
    [client_data]. *)
Definition bind {A B : Type} (m : option A) (f : A -> option B) : option B :=
  match m with
  | Some a => f a
  | None => None
  end.

Notation "x <- m ;; k" := (bind m (fun x => k))
  (at level 61, m at next level, right associativity).

(** [v[i]] for an [int] index, which is converted to [size_t]. *)
Definition at_index {A : Type} (v : list A) (i : Z) : option A :=
  nth_error v (Z.to_nat (size_t_of_int i)).

(** [thread_row._row_offset + row_index], computed in [size_t] and passed
    as the [int] row of [draw_bar]. *)
Definition bar_row (row_offset : nat) (row_index : Z) : Z :=
  int_of_size_t ((Z.of_nat row_offset + size_t_of_int row_index) mod 2 ^ 64).

(** [timestamp_to_pixel] is an inline accessor of pStatTimeline.I, as
    those of [Timeline.Declarations]. *)
Class Declarations : Type := {
  timestamp_to_pixel : TimelineState -> Q -> Z
}.

Section WithDeclarations.
Context {D : Timeline.Declarations} {P : Declarations}.

(** The test at line 531. *)
Definition on_screen (tl : TimelineState) (bar : ColorBar) : bool :=
  let from_x := timestamp_to_pixel tl (_start bar) in
  let to_x := timestamp_to_pixel tl (_end bar) in
  (0 <=? to_x) && (from_x <? to_x) && (from_x <? _xsize tl).

(** The [draw_bar] call of lines 532-540 for a bar. *)
Definition bar_call (tl : TimelineState) (row : Z) (bar : ColorBar)
  : DrawCall :=
  draw_bar row (timestamp_to_pixel tl (_start bar))
    (timestamp_to_pixel tl (_end bar)) (_collector_index bar)
    (if negb (_collector_index bar =? 0)
     then CollectorName (_collector_index bar)
     else FrameName (_frame_number bar)).

(** Lines 526-541: the body of the loop for the bar at the iterator. *)
Definition draw_one (tl : TimelineState) (client_data : option ClientData)
    (row : Z) (bar : ColorBar) : option (list DrawCall) :=
  if on_screen tl bar then
    if negb (_collector_index bar =? 0) then
      match client_data with
      | Some _ => Some [bar_call tl row bar]
      | None => None
      end
    else Some [bar_call tl row bar]
  else Some [].

(** The [do ... while] loop at lines 525-545, from the iterator [it],
    which is not at the end of the row. *)
Fixpoint draw_bars (tl : TimelineState) (client_data : option ClientData)
    (row : Z) (end_time : Q) (frame_number : Z) (it : Row)
  : option (list DrawCall) :=
  match it with
  | [] => Some []
  | bar :: rest =>
      calls <- draw_one tl client_data row bar ;;
      match rest with
      | [] => Some calls
      | next :: _ =>
          if Qle_bool (_start next) end_time
             || (_frame_number next =? frame_number)
          then
            more <- draw_bars tl client_data row end_time frame_number rest ;;
            Some (calls ++ more)
          else Some calls
      end
  end.

(** [draw_row(thread_index, row_index, start_time, end_time)]. *)
Definition draw_row (tl : TimelineState) (client_data : option ClientData)
    (thread_index row_index : Z) (start_time end_time : Q)
  : option (list DrawCall) :=
  thread_row <- at_index (_threads tl) thread_index ;;
  row <- at_index (_rows thread_row) row_index ;;
  let it := lower_bound row (mkBar 0 start_time 0 0 0) in
  match it with
  | [] => Some []
  | first :: _ =>
      draw_bars tl client_data (bar_row (_row_offset thread_row) row_index)
        end_time (_frame_number first) it
  end.

(** The rows [ri] of a thread drawn one after the other, each with the
    cast [(int)ri]. *)
Fixpoint draw_rows (tl : TimelineState) (client_data : option ClientData)
    (thread_index : Z) (start_time end_time : Q) (rows : list nat)
  : option (list DrawCall) :=
  match rows with
  | [] => Some []
  | ri :: rest =>
      calls <- draw_row tl client_data thread_index
                 (int_of_size_t (Z.of_nat ri)) start_time end_time ;;
      more <- draw_rows tl client_data thread_index start_time end_time rest ;;
      Some (calls ++ more)
  end.

(** Lines 329-334. *)
Definition draw_guide_bars (tl : TimelineState) : list DrawCall :=
  flat_map
    (fun bar =>
       let x := timestamp_to_pixel tl (_height bar) in
       if (0 <? x) && (x <? _xsize tl - 1)
       then [draw_guide_bar x (_style bar)]
       else [])
    (_guide_bars tl).

(** The loop at lines 341-348 from thread [ti] on; [threads] are the
    thread rows from [ti] on and [num_rows] is the local counter. *)
Fixpoint draw_threads (tl : TimelineState) (client_data : option ClientData)
    (start_time end_time : Q) (ti : nat) (threads : list ThreadRow)
    (num_rows : Z) : option (list DrawCall) :=
  match threads with
  | [] => Some []
  | thread_row :: rest =>
      calls <- draw_rows tl client_data (int_of_size_t (Z.of_nat ti))
                 start_time end_time (seq 0 (length (_rows thread_row))) ;;
      let num_rows' := num_rows + Z.of_nat (length (_rows thread_row)) in
      more <- draw_threads tl client_data start_time end_time (S ti) rest
                (num_rows' + 1) ;;
      Some (calls ++ draw_separator num_rows' :: more)
  end.

(** [force_redraw()] (lines 323-351). *)
Definition force_redraw (tl : TimelineState)
    (client_data : option ClientData) : option (list DrawCall) :=
  let start_time := _start_time tl in
  let end_time := (start_time + get_horizontal_scale tl)%Q in
  calls <- draw_threads tl client_data start_time end_time 0 (_threads tl) 0 ;;
  Some (clear_region :: begin_draw :: draw_guide_bars tl ++ calls ++ [end_draw]).

(** The loop at lines 364-374 from thread [ti] on. *)
Fixpoint redraw_row_in (tl : TimelineState) (client_data : option ClientData)
    (row : Z) (start_time end_time : Q) (ti : nat) (threads : list ThreadRow)
  : option (list DrawCall) :=
  match threads with
  | [] => Some []
  | thread_row :: rest =>
      if size_t_of_int row <? Z.of_nat (_row_offset thread_row) then Some []
      else
        let row_index :=
          row - int_of_size_t (Z.of_nat (_row_offset thread_row)) in
        if size_t_of_int row_index <? Z.of_nat (length (_rows thread_row))
        then
          calls <- draw_row tl client_data (int_of_size_t (Z.of_nat ti))
                     row_index start_time end_time ;;
          more <- redraw_row_in tl client_data row start_time end_time
                    (S ti) rest ;;
          Some (calls ++ more)
        else
          redraw_row_in tl client_data row start_time end_time (S ti) rest
  end.

(** [force_redraw(row, from_x, to_x)] (lines 357-377). *)
Definition force_redraw_row (tl : TimelineState)
    (client_data : option ClientData) (row from_x to_x : Z)
  : option (list DrawCall) :=
  let start_time := fmax (_start_time tl) (pixel_to_timestamp tl from_x) in
  let end_time :=
    fmin (_start_time tl + get_horizontal_scale tl)
      (pixel_to_timestamp tl to_x) in
  calls <- redraw_row_in tl client_data row start_time end_time 0
             (_threads tl) ;;
  Some (begin_draw :: calls ++ [end_draw]).

End WithDeclarations.

(** The rows of the separators among the calls. *)
Definition separators (calls : list DrawCall) : list Z :=
  flat_map (fun c => match c with draw_separator row => [row] | _ => [] end)
    calls.

(** The bar is not wholly before [start_time] nor wholly after
    [end_time]. *)
Definition bar_meets (b : ColorBar) (start_time end_time : Q) : Prop :=
  (start_time <= _end b)%Q /\ (_start b <= end_time)%Q.

(** Pixels and times related by the affine transform of
    [Reference.decls]. *)
Definition pixel_decls : Declarations := {|
  timestamp_to_pixel :=
    fun tl time => Qtrunc ((time - _start_time tl) / _time_scale tl)
|}.

(** A view of two threads: the first with a frame bar and a nested bar
    on two rows at offset 0, the second with one row at offset 3; a pixel is
    a tenth of a time unit. *)
Definition two_thread_view : TimelineState :=
  mkTimeline
    [mkThreadRow String.EmptyString
       [[mkBar 0 10 0 0 1]; [mkBar 1 4 3 0 1]] 0 1;
     mkThreadRow String.EmptyString [[mkBar 0 10 0 1 1]] 3 1]
    false true 0 0 0 10 (1 / 10) (1 / 10) 800 [] false.

End Drawing.

(** ** Notions for the guide bars *)

Module GuideBars.
Import Timeline.

Definition is_frame_bar (g : GuideBar) : bool :=
  match _style g with
  | GBS_frame => true
  | GBS_normal => false
  end.

(** The number of guide bars drawn in the style of frame boundaries. *)
Definition frame_bar_count (bars : list GuideBar) : nat :=
  length (filter is_frame_bar bars).

(** The guide bar is not right of [end_time] and less than [interval]
    left of [start_time]. *)
Definition near_window (interval start_time end_time : Q) (g : GuideBar)
  : Prop :=
  (start_time - interval < _height g)%Q /\ (_height g <= end_time)%Q.

(** The row in which [normal_guide_bars] looks for the frames (line 404);
    empty when there is no thread or the first thread has no row. *)
Definition first_row (tl : TimelineState) : Row :=
  match _threads tl with
  | [] => []
  | thread0 :: _ =>
      match _rows thread0 with
      | [] => []
      | row :: _ => row
      end
  end.

(** Every conversion to [int] that [normal_guide_bars] can evaluate has
    its value in the range of [int]: those of the window edges divided by
    the interval (lines 463-464) and, for every bar of the row, those of
    the distance from the bar's start to the window edges and to the start
    of any bar of the row, divided by the interval (lines 449-450, the
    frame width being one of these distances). *)
Definition conversions_fit (interval start_time end_time : Q) (row : Row)
  : bool :=
  in_int_range (Qtrunc (start_time / interval))
  && in_int_range (Qround_half_away (end_time / interval))
  && forallb
       (fun b =>
          in_int_range (Qtrunc ((start_time - _start b) / interval))
          && in_int_range
               (Qround_half_away ((end_time - _start b) / interval))
          && forallb
               (fun next =>
                  in_int_range
                    (Qround_half_away ((_start next - _start b) / interval)))
               row)
       row.

(** The conversions of the bars from the iterator on fit. *)
Definition bars_fit (interval start_time end_time : Q) (it : Row) : Prop :=
  forall b,
    In b it ->
    in_int_range (Qtrunc ((start_time - _start b) / interval)) = true
    /\ in_int_range (Qround_half_away ((end_time - _start b) / interval))
       = true
    /\ forall next,
         In next it ->
         in_int_range
           (Qround_half_away ((_start next - _start b) / interval)) = true.

End GuideBars.

(** ** Notions for the animation *)

Module Animation.
Import Animate.
Local Open Scope R_scope.

(** No key is held, both speeds are zero and both animated values are at
    their targets: the condition under which [animate] returns [false]. *)
Definition at_rest (v : View) : Prop :=
  _keys_held v = 0%Z
  /\ _scroll_speed v = 0
  /\ _zoom_speed v = 0
  /\ _target_start_time v = _start_time v
  /\ _target_time_scale v = _time_scale v.

(** The speed after [n] ticks of length [dt] in which no key of its
    direction pair is held (lines 609-614 and 628-633). *)
Fixpoint coast (n : nat) (speed dt : R) : R :=
  match n with
  | O => speed
  | S n' => coast n' (next_speed 0 speed dt) dt
  end.

(** A view at rest. *)
Definition still_view : View :=
  mkView 0 0 0 0 (1 / 10000) (1 / 10000) 1 1.

End Animation.

(** ** Tooltip (lines 252-265) *)

Module Tooltip.
Import Timeline.

(** [PStatClientData::has_collector], which is not among the sources. *)
Class Declarations : Type := {
  has_collector : ClientData -> Z -> bool
}.

(** The text of a tooltip: the full name that the client data gives the
    collector, followed by the formatted duration in parentheses. *)
Record Text : Type := mkText {
  text_collector : Z;
  text_duration : Q
}.

Section WithDeclarations.
Context {D : Timeline.Declarations} {C : Declarations}.

(** [get_bar_tooltip(row, x)]; [None] is the empty string. *)
Definition get_bar_tooltip (client_data : option ClientData)
    (tl : TimelineState) (row x : Z) : option Text :=
  match find_bar tl row x with
  | Some bar =>
      match client_data with
      | Some cd =>
          if has_collector cd (_collector_index bar)
          then Some (mkText (_collector_index bar) (_end bar - _start bar))
          else None
      | None => None
      end
  | None => None
  end.

End WithDeclarations.

(** A client that knows every collector. *)
Definition every_collector : Declarations := {|
  has_collector := fun _ _ => true
|}.

End Tooltip.

(** ** Views whose window has moved *)

Module Scenarios.
Import Timeline Reference Examples.

(** The view after the window start has been moved; [animate] assigns
    [_start_time] at lines 647 and 650. *)
Definition scrolled (tl : TimelineState) (start_time : Q) : TimelineState :=
  set_time_bounds tl (_have_start_time tl) start_time (_lowest_start_time tl)
    (_highest_end_time tl).

(** A frame that holds only its frame bar, from [frame_start] to
    [frame_end]. *)
Definition plain_frame (frame_start frame_end : Q) : FrameData :=
  mkFrame frame_start frame_end
    [mkEvent 0 frame_start true; mkEvent 0 frame_end false].

(** A client whose only thread has recorded the frames 1, 2 and 3, over
    the times [40,50], [55,60] and [60,70]. *)
Definition three_frame_client : ClientData :=
  mkClientData 1
    (fun i =>
       if i =? 0
       then Some (mkThreadData false 1 3
                    (fun f => if f =? 1 then plain_frame 40 50
                              else if f =? 2 then plain_frame 55 60
                              else plain_frame 60 70))
       else None)
    (fun _ => String.EmptyString).

(** Frame 1 arrives while the window starts at 0, frame 2 after the window
    start has moved to 65, and frame 3 after it has moved back to 0.  The
    bar of frame 2 starts at the window start of its arrival, after its own
    end. *)
Definition clamped_bar_view : TimelineState :=
  @new_data unit_decls (Some three_frame_client)
    (scrolled
       (@new_data unit_decls (Some three_frame_client)
          (scrolled
             (@new_data unit_decls (Some three_frame_client) (view_at 0)
                0 1)
             65)
          0 2)
       0)
    0 3.

(** A view whose window starts at 100 and whose only thread has one row,
    with the bar of frame 1 from 100 to 110. *)
Definition late_window_view : TimelineState :=
  mkTimeline [mkThreadRow String.EmptyString [[mkBar 100 110 0 0 1]] 0 1]
    false true 100 100 100 110 (1 / 10000) (1 / 10000) 800 [] false.

(** A view of 800 pixels with 150 pixels per time unit, starting at time
    0, whose first row holds the frame bars of frame 1, over [0.5,2.5], and
    of frame 2, over [2.5,4.5]. *)
Definition two_frame_view : TimelineState :=
  mkTimeline
    [mkThreadRow String.EmptyString
       [[mkBar (1 # 2) (5 # 2) 0 0 1; mkBar (5 # 2) (9 # 2) 0 0 2]] 0 2]
    false true 0 0 0 5 (1 / 150) (1 / 150) 800 [] false.

End Scenarios.

(** * Properties *)

Module TimelineFacts.
Import Timeline.

(** ** Machine integers *)

Lemma size_t_of_int_nonneg (z : Z) :
  0 <= z < 2 ^ 64 -> size_t_of_int z = z.
Proof. intro H. unfold size_t_of_int. apply Z.mod_small, H. Qed.

Lemma size_t_of_int_neg (z : Z) :
  - 2 ^ 64 <= z < 0 -> size_t_of_int z = z + 2 ^ 64.
Proof.
  intro H. unfold size_t_of_int.
  symmetry. apply (Z.mod_unique z (2 ^ 64) (-1)); lia.
Qed.

Lemma int_of_size_t_small (z : Z) :
  0 <= z < 2 ^ 31 -> int_of_size_t z = z.
Proof.
  intro H. unfold int_of_size_t. rewrite Z.mod_small; lia.
Qed.

(** ** Times *)

Lemma Qltb_lt (a b : Q) : Qltb a b = true <-> (a < b)%Q.
Proof.
  unfold Qltb. rewrite negb_true_iff.
  destruct (Qle_bool b a) eqn:E.
  - apply Qle_bool_iff in E. split; [discriminate | intro H].
    exfalso. apply (Qlt_not_le _ _ H E).
  - split; [intros _ | reflexivity].
    apply Qnot_le_lt. intro H. apply Qle_bool_iff in H. congruence.
Qed.

Lemma Qltb_ge (a b : Q) : Qltb a b = false <-> (b <= a)%Q.
Proof.
  unfold Qltb. rewrite negb_false_iff. apply Qle_bool_iff.
Qed.

Lemma fmax_ge_l (a b : Q) : (a <= fmax a b)%Q.
Proof.
  unfold fmax. destruct (Qltb a b) eqn:E.
  - apply Qltb_lt in E. apply Qlt_le_weak, E.
  - apply Qle_refl.
Qed.

Lemma fmax_ge_r (a b : Q) : (b <= fmax a b)%Q.
Proof.
  unfold fmax. destruct (Qltb a b) eqn:E.
  - apply Qle_refl.
  - apply Qltb_ge in E. exact E.
Qed.

Lemma fmax_absorb (a b : Q) : (b <= a)%Q -> fmax a b = a.
Proof.
  intro H. unfold fmax. apply Qltb_ge in H. now rewrite H.
Qed.

(** ** Lists of thread rows and of rows *)

Lemma nth_error_set_thread_same (threads : list ThreadRow) (i : nat)
    (tr : ThreadRow) :
  (i < length threads)%nat -> nth_error (set_thread threads i tr) i = Some tr.
Proof.
  revert i. induction threads as [|t rest IH]; intros [|i] H; simpl in *;
    try lia; [reflexivity | apply IH; lia].
Qed.

Section Facts.
Context {D : Declarations}.

(** ** What one frame adds to the rows *)

Lemma rows_all_push (P : ColorBar -> Prop) (rows : list Row) (i : nat)
    (b : ColorBar) :
  rows_all P rows -> P b -> rows_all P (push_bar rows i b).
Proof.
  unfold rows_all. intros H Hb. revert i.
  induction H as [|r rs Hr Hrs IH]; intros [|i]; simpl; constructor; auto.
  apply Forall_app. split; [exact Hr | constructor; [exact Hb | constructor]].
Qed.

Lemma rows_all_resize (P : ColorBar -> Prop) (rows : list Row) (n : nat) :
  rows_all P rows -> rows_all P (resize_rows rows n).
Proof.
  unfold rows_all, resize_rows. intro H. apply Forall_app. split; [exact H|].
  induction (n - length rows)%nat; simpl; constructor; auto.
Qed.

Lemma rows_all_impl (P P' : ColorBar -> Prop) (rows : list Row) :
  (forall b, P b -> P' b) -> rows_all P rows -> rows_all P' rows.
Proof.
  intros HP H. unfold rows_all in *.
  eapply Forall_impl; [|exact H]. intros r Hr.
  eapply Forall_impl; [|exact Hr]. exact HP.
Qed.

Lemma rows_all_In (P : ColorBar -> Prop) (rows : list Row) :
  rows_all P rows <-> (forall b, In b (concat rows) -> P b).
Proof.
  unfold rows_all. split.
  - intros H b Hb. apply in_concat in Hb. destruct Hb as [r [Hr Hb]].
    rewrite Forall_forall in H. specialize (H r Hr).
    rewrite Forall_forall in H. auto.
  - intro H. apply Forall_forall. intros r Hr. apply Forall_forall.
    intros b Hb. apply H. apply in_concat. eauto.
Qed.

Lemma length_push_bar (rows : list Row) (i : nat) (b : ColorBar) :
  length (push_bar rows i b) = length rows.
Proof.
  revert i. induction rows as [|r rs IH]; intros [|i]; simpl; auto.
Qed.

Lemma length_resize_rows (rows : list Row) (n : nat) :
  length (resize_rows rows n) = (length rows + (n - length rows))%nat.
Proof.
  unfold resize_rows. now rewrite length_app, repeat_length.
Qed.

(** Facts about the stack that only concern the recorded start times. *)
Section StackTimes.
Variable Pt : Q -> Prop.

Lemma stack_all_pop_invalid (stack : list StackEntry) :
  stack_all Pt stack -> stack_all Pt (pop_invalid stack).
Proof.
  unfold stack_all. induction 1 as [|[c t] below Ht Hbelow IH]; simpl.
  - constructor.
  - destruct (c <? 0); [exact IH | constructor; assumption].
Qed.

Lemma invalidate_open_times (stack : list StackEntry) (collector_index : Z)
    (i : nat) (t : Q) (stack' : list StackEntry) :
  invalidate_open stack collector_index = Some (i, t, stack') ->
  stack_all Pt stack -> Pt t /\ stack_all Pt stack'.
Proof.
  unfold stack_all. revert i t stack'.
  induction stack as [|[c t0] below IH]; simpl; intros i t stack' H Hall.
  - discriminate.
  - inversion Hall as [|? ? Ht Hbelow]; subst.
    destruct (c =? collector_index).
    + inversion H; subst. split; [exact Ht|].
      constructor; assumption.
    + destruct (invalidate_open below collector_index)
        as [[[i1 t1] below1]|] eqn:E; [|discriminate].
      inversion H; subst.
      destruct (IH _ _ _ eq_refl Hbelow) as [H1 H2].
      split; [exact H1 | constructor; assumption].
Qed.

End StackTimes.

Lemma invalidate_open_length (stack : list StackEntry) (collector_index : Z)
    (i : nat) (t : Q) (stack' : list StackEntry) :
  invalidate_open stack collector_index = Some (i, t, stack') ->
  length stack' = length stack /\ (i < length stack)%nat.
Proof.
  revert i t stack'.
  induction stack as [|[c t0] below IH]; simpl; intros i t stack' H.
  - discriminate.
  - destruct (c =? collector_index).
    + inversion H; subst. simpl. split; lia.
    + destruct (invalidate_open below collector_index)
        as [[[i1 t1] below1]|] eqn:E; [|discriminate].
      inversion H; subst. destruct (IH _ _ _ eq_refl). simpl. split; lia.
Qed.

Lemma length_pop_invalid (stack : list StackEntry) :
  (length (pop_invalid stack) <= length stack)%nat.
Proof.
  induction stack as [|[c t] below IH]; simpl; [lia|].
  destruct (c <? 0); simpl; lia.
Qed.

(** Every [_rows[i].push_back] of the event loop is within the bounds of
    [_rows]: the stack is never higher than the number of rows. *)
Lemma process_event_within (start_time : Q) (thread_index frame_number : Z)
    (st : BarState) (e : Event) :
  (length (bs_stack st) <= length (bs_rows st))%nat ->
  let st' := process_event start_time thread_index frame_number st e in
  (length (bs_stack st') <= length (bs_rows st'))%nat
  /\ (length (bs_rows st) <= length (bs_rows st'))%nat.
Proof.
  intro H. unfold process_event.
  destruct (ev_is_start e).
  - destruct (Nat.ltb_spec (length (bs_rows st))
                (length ((ev_collector e, fmax (ev_time e) start_time)
                           :: bs_stack st))) as [Hlt|Hge]; simpl in *.
    + rewrite length_resize_rows. lia.
    + lia.
  - destruct (bs_stack st) as [|[c t0] below] eqn:Es;
      [rewrite Es; simpl; lia|].
    destruct (c =? ev_collector e).
    + simpl in *. rewrite length_push_bar.
      pose proof (length_pop_invalid below). lia.
    + destruct (invalidate_open ((c, t0) :: below) (ev_collector e))
        as [[[i t1] stack']|] eqn:E.
      * apply invalidate_open_length in E. simpl in *.
        rewrite length_push_bar. lia.
      * rewrite Es. simpl in *. lia.
Qed.

Lemma process_events_within (start_time : Q) (thread_index frame_number : Z)
    (evs : list Event) (st : BarState) :
  (length (bs_stack st) <= length (bs_rows st))%nat ->
  let st' := process_events start_time thread_index frame_number evs st in
  (length (bs_stack st') <= length (bs_rows st'))%nat
  /\ (length (bs_rows st) <= length (bs_rows st'))%nat.
Proof.
  revert st. induction evs as [|e evs IH]; intros st H; simpl.
  - lia.
  - destruct (process_event_within start_time thread_index frame_number st e H)
      as [H1 H2].
    destruct (IH _ H1) as [H3 H4]. split; [exact H3 | lia].
Qed.

(** One event keeps a property [P] of all bars in the rows, given a
    property of the start times on the stack that may weaken from [Pt] to
    [Pt'] as time advances. *)
Lemma process_event_inv (Pt Pt' : Q -> Prop) (P : ColorBar -> Prop)
    (start_time : Q) (thread_index frame_number : Z)
    (st : BarState) (e : Event) :
  (forall s, Pt s -> Pt' s) ->
  (ev_is_start e = true -> Pt' (fmax (ev_time e) start_time)) ->
  (ev_is_start e = false ->
   forall s, Pt s ->
     P (mkBar s (ev_time e) (ev_collector e) thread_index frame_number)) ->
  stack_all Pt (bs_stack st) -> rows_all P (bs_rows st) ->
  let st' := process_event start_time thread_index frame_number st e in
  stack_all Pt' (bs_stack st') /\ rows_all P (bs_rows st').
Proof.
  intros Hweak Hstart Hend Hstack Hrows.
  assert (Hstack' : stack_all Pt' (bs_stack st)).
  { eapply Forall_impl; [|exact Hstack]. intros a Ha. apply Hweak, Ha. }
  unfold process_event. destruct (ev_is_start e).
  - assert (Hpush : stack_all Pt'
              ((ev_collector e, fmax (ev_time e) start_time) :: bs_stack st)).
    { constructor; [apply Hstart; reflexivity | exact Hstack']. }
    destruct (_ <? _)%nat; simpl; split; auto using rows_all_resize.
  - destruct (bs_stack st) as [|[c t0] below] eqn:Es.
    + split; [rewrite Es; constructor | exact Hrows].
    + destruct (c =? ev_collector e).
      * inversion Hstack as [|? ? Ht Hbelow]; subst. simpl in Ht.
        inversion Hstack' as [|? ? _ Hbelow']; subst.
        simpl. split.
        -- apply stack_all_pop_invalid, Hbelow'.
        -- apply rows_all_push; [exact Hrows | apply Hend; auto].
      * destruct (invalidate_open ((c, t0) :: below) (ev_collector e))
          as [[[i t1] stack']|] eqn:E.
        -- simpl. split.
           ++ apply (invalidate_open_times Pt' _ _ _ _ _ E Hstack').
           ++ apply rows_all_push; [exact Hrows|]. apply Hend; [reflexivity|].
              apply (invalidate_open_times Pt _ _ _ _ _ E Hstack).
        -- split; [rewrite Es; exact Hstack' | exact Hrows].
Qed.

Lemma add_unclosed_inv (Pt : Q -> Prop) (P : ColorBar -> Prop)
    (frame_end : Q) (thread_index frame_number : Z)
    (stack : list (Z * Q)) (rows : list Row) :
  (forall s c, Pt s -> P (mkBar s frame_end c thread_index frame_number)) ->
  stack_all Pt stack -> rows_all P rows ->
  rows_all P (add_unclosed frame_end thread_index frame_number stack rows).
Proof.
  intros HP Hstack. revert rows.
  induction Hstack as [|[c t0] below Ht Hbelow IH]; intros rows Hrows; simpl.
  - exact Hrows.
  - apply IH. destruct (0 <=? c); [|exact Hrows].
    apply rows_all_push; [exact Hrows | apply HP, Ht].
Qed.

(** ** Interval containment *)

Lemma times_ascend_le (lo hi : Q) (evs : list Event) :
  times_ascend lo hi evs -> (lo <= hi)%Q.
Proof.
  revert lo. induction evs as [|e rest IH]; simpl; intros lo H.
  - exact H.
  - destruct H as [H1 H2]. apply IH in H2. lra.
Qed.

Lemma process_events_in_frame (fd : FrameData)
    (start_time : Q) (thread_index frame_number : Z)
    (evs : list Event) (cur : Q) (st : BarState) :
  (start_time <= get_start fd)%Q ->
  (get_start fd <= cur)%Q ->
  times_ascend cur (get_end fd) evs ->
  stack_all (fun s => (get_start fd <= s)%Q /\ (s <= cur)%Q) (bs_stack st) ->
  rows_all (bar_in_frame fd) (bs_rows st) ->
  let st' := process_events start_time thread_index frame_number evs st in
  stack_all (fun s => (get_start fd <= s)%Q /\ (s <= get_end fd)%Q)
    (bs_stack st')
  /\ rows_all (bar_in_frame fd) (bs_rows st').
Proof.
  intros Hfloor. revert cur st.
  induction evs as [|e rest IH]; simpl; intros cur st Hcur Hasc Hstack Hrows.
  - split; [|exact Hrows].
    eapply Forall_impl; [|exact Hstack]. simpl. intros a [H1 H2]. lra.
  - destruct Hasc as [Hle Hrest].
    pose proof (times_ascend_le _ _ _ Hrest) as Hhi.
    destruct (process_event_inv
                (fun s => (get_start fd <= s)%Q /\ (s <= cur)%Q)
                (fun s => (get_start fd <= s)%Q /\ (s <= ev_time e)%Q)
                (bar_in_frame fd) start_time thread_index frame_number st e)
      as [Hs Hr]; auto.
    + intros s [H1 H2]. lra.
    + intros _. rewrite fmax_absorb by lra. lra.
    + intros _ s [H1 H2]. unfold bar_in_frame. simpl. lra.
    + apply (IH (ev_time e)); auto. lra.
Qed.

(** ** The bars of a frame do not depend on the rows they are added to *)

Lemma rows_app_nil_r (rows : list Row) : rows_app rows [] = rows.
Proof. destruct rows; reflexivity. Qed.

Lemma resize_rows_id (rows : list Row) (n : nat) :
  (n <= length rows)%nat -> resize_rows rows n = rows.
Proof.
  intro H. unfold resize_rows.
  replace (n - length rows)%nat with O by lia. apply app_nil_r.
Qed.

Lemma resize_rows_nil (n : nat) : resize_rows [] n = repeat [] n.
Proof. unfold resize_rows. simpl. now rewrite Nat.sub_0_r. Qed.

Lemma resize_rows_cons (r : list ColorBar) (rows : list Row) (n : nat) :
  resize_rows (r :: rows) (S n) = r :: resize_rows rows n.
Proof. reflexivity. Qed.

Lemma rows_app_resize (rows extra : list Row) (n : nat) :
  rows_app rows (resize_rows extra n) = resize_rows (rows_app rows extra) n.
Proof.
  revert extra n. induction rows as [|r rs IH]; intros extra n.
  - reflexivity.
  - destruct extra as [|x xs]; destruct n as [|n].
    + rewrite (resize_rows_id (rows_app (r :: rs) []) 0) by lia. reflexivity.
    + specialize (IH [] n). rewrite rows_app_nil_r in *.
      rewrite resize_rows_cons, <- IH, !resize_rows_nil.
      simpl. now rewrite app_nil_r.
    + rewrite !resize_rows_id by (simpl; lia). reflexivity.
    + rewrite resize_rows_cons. simpl rows_app.
      rewrite resize_rows_cons, IH. reflexivity.
Qed.

Lemma rows_app_push (rows extra : list Row) (i : nat) (b : ColorBar) :
  (i < length extra)%nat ->
  push_bar (rows_app rows extra) i b = rows_app rows (push_bar extra i b).
Proof.
  revert extra i. induction rows as [|r rs IH]; intros [|x xs] i H;
    simpl in *; try lia; try reflexivity.
  destruct i as [|i]; simpl.
  - now rewrite app_assoc.
  - rewrite IH by lia. reflexivity.
Qed.

Lemma resize_rows_if (rows : list Row) (n : nat) :
  (if (length rows <? n)%nat then resize_rows rows n else rows)
  = resize_rows rows n.
Proof.
  destruct (Nat.ltb_spec (length rows) n); [reflexivity|].
  symmetry. apply resize_rows_id. assumption.
Qed.

Lemma process_event_rows_app (start_time : Q) (thread_index frame_number : Z)
    (rows : list Row) (st : BarState) (e : Event) (flag : bool) :
  (length (bs_stack st) <= length (bs_rows st))%nat ->
  let st' := process_event start_time thread_index frame_number st e in
  let stR := process_event start_time thread_index frame_number
               (mkBarState (bs_stack st) (rows_app rows (bs_rows st)) flag) e in
  bs_stack stR = bs_stack st' /\ bs_rows stR = rows_app rows (bs_rows st').
Proof.
  intro H. unfold process_event. simpl.
  destruct (ev_is_start e).
  - split.
    + destruct (_ <? _)%nat; destruct (_ <? _)%nat; reflexivity.
    + transitivity
        (resize_rows (rows_app rows (bs_rows st)) (S (length (bs_stack st)))).
      * rewrite <- (resize_rows_if (rows_app rows (bs_rows st))).
        simpl. destruct (_ <? _)%nat; reflexivity.
      * rewrite <- rows_app_resize.
        rewrite <- (resize_rows_if (bs_rows st)).
        simpl. destruct (length (bs_rows st) <? _)%nat; reflexivity.
  - destruct (bs_stack st) as [|[c t0] below] eqn:Es.
    + rewrite Es. split; reflexivity.
    + simpl in H. destruct (c =? ev_collector e).
      * simpl. split; [reflexivity|]. apply rows_app_push. lia.
      * destruct (invalidate_open ((c, t0) :: below) (ev_collector e))
          as [[[i t1] stack']|] eqn:E.
        -- simpl. split; [reflexivity|]. apply rows_app_push.
           apply invalidate_open_length in E. simpl in E. lia.
        -- rewrite Es. split; reflexivity.
Qed.

Lemma process_events_rows_app (start_time : Q) (thread_index frame_number : Z)
    (rows : list Row) (evs : list Event) (st : BarState) (flag : bool) :
  (length (bs_stack st) <= length (bs_rows st))%nat ->
  let st' := process_events start_time thread_index frame_number evs st in
  let stR := process_events start_time thread_index frame_number evs
               (mkBarState (bs_stack st) (rows_app rows (bs_rows st)) flag) in
  bs_stack stR = bs_stack st' /\ bs_rows stR = rows_app rows (bs_rows st').
Proof.
  revert st flag. induction evs as [|e rest IH]; intros st flag H; simpl.
  - split; reflexivity.
  - destruct (process_event_rows_app start_time thread_index frame_number
                rows st e flag H) as [H1 H2].
    destruct (process_event_within start_time thread_index frame_number st e H)
      as [H3 _].
    specialize (IH _ (changed_num_rows
                        (process_event start_time thread_index frame_number
                           (mkBarState (bs_stack st)
                              (rows_app rows (bs_rows st)) flag) e)) H3).
    rewrite <- H1, <- H2 in IH.
    destruct (process_event start_time thread_index frame_number
                (mkBarState (bs_stack st) (rows_app rows (bs_rows st)) flag) e)
      as [s1 r1 c1]. exact IH.
Qed.

Lemma add_unclosed_rows_app (frame_end : Q) (thread_index frame_number : Z)
    (rows : list Row) (stack : list (Z * Q)) (extra : list Row) :
  (length stack <= length extra)%nat ->
  add_unclosed frame_end thread_index frame_number stack (rows_app rows extra)
  = rows_app rows
      (add_unclosed frame_end thread_index frame_number stack extra).
Proof.
  revert extra. induction stack as [|[c t0] below IH]; intros extra H; simpl.
  - reflexivity.
  - simpl in H. destruct (0 <=? c).
    + rewrite rows_app_push by lia. apply IH.
      rewrite length_push_bar. lia.
    + apply IH. lia.
Qed.

(** Adding the bars of a frame to existing rows appends, row by row, the
    rows that the frame produces on its own. *)
Lemma add_frame_bars_rows_app (start_time : Q) (thread_index frame_number : Z)
    (fd : FrameData) (rows : list Row) :
  fst (add_frame_bars start_time thread_index frame_number fd rows)
  = rows_app rows (frame_rows start_time thread_index frame_number fd).
Proof.
  unfold frame_rows, add_frame_bars. simpl.
  pose proof (process_events_rows_app start_time thread_index frame_number
                rows (events fd) (mkBarState [] [] false) false) as H.
  simpl in H. rewrite rows_app_nil_r in H.
  destruct H as [H1 H2]; [lia|]. rewrite H1, H2.
  apply add_unclosed_rows_app.
  apply (process_events_within start_time thread_index frame_number
           (events fd) (mkBarState [] [] false)). simpl. lia.
Qed.

(** ** Sorting a row permutes it *)

Lemma insert_bar_perm (b : ColorBar) (row : Row) :
  Permutation (insert_bar b row) (b :: row).
Proof.
  induction row as [|x row IH]; simpl.
  - apply Permutation_refl.
  - destruct (bar_lt b x).
    + apply Permutation_refl.
    + eapply perm_trans; [apply perm_skip, IH | apply perm_swap].
Qed.

Lemma sort_row_perm (row : Row) : Permutation (sort_row row) row.
Proof.
  induction row as [|b row IH]; simpl.
  - apply perm_nil.
  - eapply perm_trans; [apply insert_bar_perm | apply perm_skip, IH].
Qed.

Lemma map_sort_row_perm (rows : list Row) :
  Forall2 (@Permutation ColorBar) (map sort_row rows) rows.
Proof.
  induction rows; simpl; constructor; auto using sort_row_perm.
Qed.

(** ** [update_bars] on the thread it is called for *)

Lemma rows_equiv_refl (a : list Row) : rows_equiv a a.
Proof. induction a; constructor; auto. Qed.

Lemma rows_equiv_sym (a b : list Row) : rows_equiv a b -> rows_equiv b a.
Proof.
  induction 1; constructor; auto using Permutation_sym.
Qed.

Lemma rows_equiv_trans (a b c : list Row) :
  rows_equiv a b -> rows_equiv b c -> rows_equiv a c.
Proof.
  intro H. revert c.
  induction H as [|x y a b Hxy Hab IH]; intros c Hc; inversion Hc; subst;
    constructor.
  - eapply Permutation_trans; eassumption.
  - apply IH. assumption.
Qed.

(** ** Malformed nesting *)

(** C1.  For a frame whose events are [start A, start B, end A, end B]
    with [A <> B], [update_bars] adds exactly two bars to the rows of the
    thread: the bar of [A] at the end of row 0, ending at the time of the
    [end A] event, and the bar of [B] at the end of row 1; all other rows are
    unchanged.  The rows of the thread are then these rows, bar for bar when
    the frame is in order and as the same bars in every row, in the order
    the re-sort leaves, when the frame is out of order.  After [end A] the
    stack still has two entries, the slot of [A] holding collector [-1]
    below the entry of [B].  The row count is reported as changed exactly
    when there were fewer than two rows. *)
Theorem update_bars_malformed_nesting
    (cd : ClientData) (td : ThreadData) (tl : TimelineState)
    (thread_index : nat) (frame_number : Z) (tr : ThreadRow)
    (A B : Z) (tA tB tA' tB' : Q) :
  nth_error (_threads tl) thread_index = Some tr ->
  events (get_frame td frame_number) =
    [mkEvent A tA true; mkEvent B tB true;
     mkEvent A tA' false; mkEvent B tB' false] ->
  A <> B ->
  let barA := mkBar (fmax tA (_start_time tl)) tA' A
                (Z.of_nat thread_index) frame_number in
  let barB := mkBar (fmax tB (_start_time tl)) tB' B
                (Z.of_nat thread_index) frame_number in
  let emitted :=
    push_bar (push_bar (resize_rows (_rows tr) 2) 0 barA) 1 barB in
  let out_of_order :=
    (0 <=? _last_frame tr) && (frame_number <? _last_frame tr) in
  let result := update_bars cd td tl thread_index frame_number in
  (exists tr',
      nth_error (_threads (fst result)) thread_index = Some tr'
      /\ (out_of_order = false -> _rows tr' = emitted)
      /\ rows_equiv (_rows tr') emitted)
  /\ nth_error emitted 0 = Some (nth 0 (_rows tr) [] ++ [barA])
  /\ nth_error emitted 1 = Some (nth 1 (_rows tr) [] ++ [barB])
  /\ (forall i, (2 <= i)%nat -> nth_error emitted i = nth_error (_rows tr) i)
  /\ length (concat emitted) = (length (concat (_rows tr)) + 2)%nat
  /\ bs_stack
       (process_events (_start_time tl) (Z.of_nat thread_index) frame_number
          [mkEvent A tA true; mkEvent B tB true; mkEvent A tA' false]
          (mkBarState [] (_rows tr) false))
     = [(B, fmax tB (_start_time tl)); (-1, fmax tA (_start_time tl))]
  /\ snd result = (length (_rows tr) <? 2)%nat.
Proof.
  intros Htr Hev HAB barA barB emitted out_of_order result.
  assert (HBA : (B =? A) = false) by (apply Z.eqb_neq; congruence).
  assert (Hrun :
    add_frame_bars (_start_time tl) (Z.of_nat thread_index) frame_number
      (get_frame td frame_number) (_rows tr)
    = (emitted, (length (_rows tr) <? 2)%nat)).
  { unfold add_frame_bars, process_events. rewrite Hev.
    subst emitted barA barB.
    destruct (_rows tr) as [|r0 [|r1 rest]];
      unfold process_event; cbn -[Z.eqb fmax];
      repeat (first [rewrite HBA | rewrite Z.eqb_refl]; cbn -[Z.eqb fmax]);
      rewrite ?app_nil_r; reflexivity. }
  assert (Hlt : (thread_index < length (_threads tl))%nat)
    by (apply nth_error_Some; congruence).
  repeat split.
  - subst result. unfold update_bars, update_thread_row.
    rewrite Htr, Hrun. fold out_of_order.
    destruct out_of_order; simpl;
      rewrite nth_error_set_thread_same by exact Hlt;
      eexists; (split; [reflexivity|]); cbn [_rows]; split.
    + intro H. discriminate H.
    + apply map_sort_row_perm.
    + intros _. reflexivity.
    + apply rows_equiv_refl.
  - subst emitted. destruct (_rows tr) as [|r0 [|r1 rest]]; reflexivity.
  - subst emitted. destruct (_rows tr) as [|r0 [|r1 rest]]; reflexivity.
  - intros i Hi. subst emitted.
    destruct i as [|[|i]]; try lia.
    destruct (_rows tr) as [|r0 [|r1 rest]]; simpl;
      rewrite ?app_nil_r; destruct i; reflexivity.
  - subst emitted. destruct (_rows tr) as [|r0 [|r1 rest]]; simpl;
      rewrite ?app_nil_r, ?length_app; simpl; rewrite ?length_app; simpl; lia.
  - unfold process_events.
    destruct (_rows tr) as [|r0 [|r1 rest]];
      unfold process_event; cbn -[Z.eqb fmax];
      repeat (first [rewrite HBA | rewrite Z.eqb_refl]; cbn -[Z.eqb fmax]);
      reflexivity.
  - subst result. unfold update_bars, update_thread_row.
    rewrite Htr, Hrun. destruct ((0 <=? _last_frame tr) && _); reflexivity.
Qed.

Lemma update_bars_unfold (cd : ClientData) (td : ThreadData)
    (tl : TimelineState) (thread_index : nat) (frame_number : Z)
    (tr : ThreadRow) :
  nth_error (_threads tl) thread_index = Some tr ->
  let r := update_thread_row (_start_time tl)
             (get_thread_name cd (Z.of_nat thread_index))
             (Z.of_nat thread_index) frame_number
             (get_frame td frame_number) tr in
  update_bars cd td tl thread_index frame_number
  = (set_threads tl (set_thread (_threads tl) thread_index (fst r))
       (_threads_changed tl), snd r).
Proof.
  intros H r. unfold update_bars. rewrite H. subst r.
  destruct (update_thread_row _ _ _ _ _ _). reflexivity.
Qed.

Lemma update_thread_row_rows (start_time : Q) (label : String.string)
    (thread_index frame_number : Z) (fd : FrameData) (tr : ThreadRow) :
  let r := update_thread_row start_time label thread_index frame_number fd tr in
  rows_equiv (_rows (fst r))
    (rows_app (_rows tr) (frame_rows start_time thread_index frame_number fd))
  /\ _row_offset (fst r) = _row_offset tr
  /\ snd r = snd (add_frame_bars start_time thread_index frame_number fd
                    (_rows tr)).
Proof.
  unfold update_thread_row.
  pose proof (add_frame_bars_rows_app start_time thread_index frame_number
                fd (_rows tr)) as H.
  destruct (add_frame_bars start_time thread_index frame_number fd (_rows tr))
    as [rows changed]. simpl in H. subst rows.
  destruct (_ && _); simpl; repeat split.
  - apply map_sort_row_perm.
  - apply rows_equiv_refl.
Qed.

(** After [update_bars] the rows of the thread hold, row by row, the bars
    they held before and the bars of the frame. *)
Lemma update_bars_rows (cd : ClientData) (td : ThreadData)
    (tl : TimelineState) (thread_index : nat) (frame_number : Z)
    (tr : ThreadRow) :
  nth_error (_threads tl) thread_index = Some tr ->
  exists tr',
    nth_error (_threads (fst (update_bars cd td tl thread_index frame_number)))
      thread_index = Some tr'
    /\ _row_offset tr' = _row_offset tr
    /\ rows_equiv (_rows tr')
         (rows_app (_rows tr)
            (frame_rows (_start_time tl) (Z.of_nat thread_index) frame_number
               (get_frame td frame_number))).
Proof.
  intro H. rewrite (update_bars_unfold _ _ _ _ _ _ H). simpl.
  assert (Hlt : (thread_index < length (_threads tl))%nat)
    by (apply nth_error_Some; congruence).
  rewrite nth_error_set_thread_same by exact Hlt.
  eexists. split; [reflexivity|].
  destruct (update_thread_row_rows (_start_time tl)
              (get_thread_name cd (Z.of_nat thread_index))
              (Z.of_nat thread_index) frame_number
              (get_frame td frame_number) tr) as [H1 [H2 _]].
  split; assumption.
Qed.

(** C3 (amended).  When the window start time is not after the start of
    the frame and the time stamps of the frame's events do not decrease and
    lie within the frame, every bar that [update_bars] adds for the frame
    (closed by its end event, by the scan for a mismatched end, or at the end
    of the frame) has start <= end and lies within the frame's
    [start, end]; these bars are appended to the rows of the thread. *)
Theorem update_bars_intervals_in_frame
    (cd : ClientData) (td : ThreadData) (tl : TimelineState)
    (thread_index : nat) (frame_number : Z) (tr : ThreadRow) :
  nth_error (_threads tl) thread_index = Some tr ->
  (_start_time tl <= get_start (get_frame td frame_number))%Q ->
  times_ascend (get_start (get_frame td frame_number))
    (get_end (get_frame td frame_number))
    (events (get_frame td frame_number)) ->
  (exists tr',
      nth_error
        (_threads (fst (update_bars cd td tl thread_index frame_number)))
        thread_index = Some tr'
      /\ rows_equiv (_rows tr')
           (rows_app (_rows tr)
              (frame_rows (_start_time tl) (Z.of_nat thread_index)
                 frame_number (get_frame td frame_number))))
  /\ (forall b,
        In b (concat (frame_rows (_start_time tl) (Z.of_nat thread_index)
                        frame_number (get_frame td frame_number))) ->
        bar_in_frame (get_frame td frame_number) b).
Proof.
  intros Htr Hfloor Hasc. split.
  - destruct (update_bars_rows cd td tl thread_index frame_number tr Htr)
      as [tr' [H1 [_ H2]]]. eauto.
  - apply rows_all_In. unfold frame_rows, add_frame_bars. simpl.
    destruct (process_events_in_frame (get_frame td frame_number)
                (_start_time tl) (Z.of_nat thread_index) frame_number
                (events (get_frame td frame_number))
                (get_start (get_frame td frame_number))
                (mkBarState [] [] false)) as [Hs Hr]; auto.
    + lra.
    + constructor.
    + constructor.
    + eapply add_unclosed_inv; [|exact Hs|exact Hr].
      intros s c [H1 H2]. unfold bar_in_frame. simpl. lra.
Qed.

(** ** Row counts *)

Lemma process_event_unchanged (start_time : Q) (thread_index frame_number : Z)
    (st : BarState) (e : Event) :
  let st' := process_event start_time thread_index frame_number st e in
  changed_num_rows st' = false ->
  changed_num_rows st = false /\ length (bs_rows st') = length (bs_rows st).
Proof.
  unfold process_event. destruct (ev_is_start e).
  - destruct (_ <? _)%nat; cbn [changed_num_rows bs_rows];
      [discriminate | auto].
  - destruct (bs_stack st) as [|[c t0] below]; [auto|].
    destruct (c =? ev_collector e); cbn [changed_num_rows bs_rows].
    + intro H. rewrite length_push_bar. auto.
    + destruct (invalidate_open _ _) as [[[i t1] stack']|];
        cbn [changed_num_rows bs_rows]; [|auto].
      intro H. rewrite length_push_bar. auto.
Qed.

Lemma process_events_unchanged (start_time : Q) (thread_index frame_number : Z)
    (evs : list Event) (st : BarState) :
  let st' := process_events start_time thread_index frame_number evs st in
  changed_num_rows st' = false ->
  changed_num_rows st = false /\ length (bs_rows st') = length (bs_rows st).
Proof.
  revert st. induction evs as [|e rest IH]; intros st; simpl.
  - auto.
  - intro H. destruct (IH _ H) as [H1 H2].
    destruct (process_event_unchanged _ _ _ _ _ H1) as [H3 H4].
    split; [exact H3 | congruence].
Qed.

Lemma length_add_unclosed (frame_end : Q) (thread_index frame_number : Z)
    (stack : list (Z * Q)) (rows : list Row) :
  length (add_unclosed frame_end thread_index frame_number stack rows)
  = length rows.
Proof.
  revert rows. induction stack as [|[c t0] below IH]; intros rows; simpl.
  - reflexivity.
  - rewrite IH. destruct (0 <=? c); [apply length_push_bar | reflexivity].
Qed.

(** [update_bars] reports every change of the number of rows. *)
Lemma update_thread_row_unchanged (start_time : Q) (label : String.string)
    (thread_index frame_number : Z) (fd : FrameData) (tr : ThreadRow) :
  let r := update_thread_row start_time label thread_index frame_number fd tr in
  snd r = false -> length (_rows (fst r)) = length (_rows tr).
Proof.
  unfold update_thread_row, add_frame_bars.
  destruct (_ && _); simpl; intro H;
    apply process_events_unchanged in H; destruct H as [_ H]; simpl in H;
    rewrite ?length_map, length_add_unclosed; exact H.
Qed.

(** ** Offsets of the thread rows *)

Lemma offsets_from_consistent (offset : nat) (threads : list ThreadRow) :
  offsets_from offset threads -> offsets_consistent threads.
Proof.
  revert offset. induction threads as [|t rest IH]; intros offset H i prev tr.
  - destruct i; discriminate.
  - destruct H as [H1 H2]. destruct i as [|i]; simpl.
    + intros Hp Ht. inversion Hp; subst prev.
      destruct rest as [|t2 rest2]; [discriminate|].
      inversion Ht; subst tr. destruct H2 as [H2 _]. lia.
    + intros Hp Ht. exact (IH _ H2 i prev tr Hp Ht).
Qed.

Lemma offsets_from_app (offset : nat) (pre post : list ThreadRow) :
  offsets_from offset (pre ++ post)
  <-> offsets_from offset pre /\ offsets_from (offset + rows_span pre) post.
Proof.
  revert offset. induction pre as [|t pre IH]; intros offset; simpl.
  - rewrite Nat.add_0_r. tauto.
  - rewrite IH.
    replace (offset + length (_rows t) + 1 + rows_span pre)%nat
      with (offset + (length (_rows t) + 1 + rows_span pre))%nat by lia.
    tauto.
Qed.

Lemma offsets_from_assign (offset : nat) (threads : list ThreadRow) :
  offsets_from offset (assign_offsets offset threads).
Proof.
  revert offset. induction threads as [|t rest IH]; intros offset; simpl.
  - exact I.
  - split; [reflexivity | apply IH].
Qed.

Lemma set_thread_app (pre post : list ThreadRow) (tr tr' : ThreadRow) :
  set_thread (pre ++ tr :: post) (length pre) tr' = pre ++ tr' :: post.
Proof.
  induction pre as [|t pre IH]; simpl; [reflexivity | now rewrite IH].
Qed.

Lemma nth_error_split_thread (threads : list ThreadRow) (i : nat)
    (tr : ThreadRow) :
  nth_error threads i = Some tr ->
  exists pre post, threads = pre ++ tr :: post /\ length pre = i.
Proof.
  intro H. destruct (nth_error_split _ _ H) as [pre [post [H1 H2]]]. eauto.
Qed.

Lemma add_thread_chained (threads : list ThreadRow) :
  offsets_chained threads -> offsets_chained (add_thread threads).
Proof.
  intros [offset H]. unfold add_thread.
  destruct (rev threads) as [|prev before] eqn:E.
  - exists default_row_offset. simpl. auto.
  - assert (Hthreads : threads = rev before ++ [prev]).
    { rewrite <- (rev_involutive threads), E. reflexivity. }
    exists offset. rewrite Hthreads in *.
    apply offsets_from_app in H. destruct H as [H1 [H2 _]].
    apply offsets_from_app. split.
    + apply offsets_from_app. simpl. auto.
    + simpl. split; [|exact I].
      assert (Hspan : forall l t, rows_span (l ++ [t])
                = (rows_span l + (length (_rows t) + 1))%nat).
      { intros l t. induction l as [|a l IHl]; simpl; lia. }
      rewrite Hspan. lia.
Qed.

Lemma grow_threads_chained (threads : list ThreadRow) (thread_index : nat) :
  offsets_chained threads -> offsets_chained (grow_threads threads thread_index).
Proof.
  intro H. unfold grow_threads.
  induction (S thread_index - length threads)%nat; simpl;
    auto using add_thread_chained.
Qed.

Lemma length_add_thread (threads : list ThreadRow) :
  length (add_thread threads) = S (length threads).
Proof.
  unfold add_thread.
  destruct (rev threads) eqn:E; [|rewrite length_app; simpl; lia].
  apply (f_equal (@length _)) in E. rewrite length_rev in E.
  simpl in *. lia.
Qed.

Lemma length_grow_threads (threads : list ThreadRow) (thread_index : nat) :
  (thread_index < length (grow_threads threads thread_index))%nat.
Proof.
  unfold grow_threads.
  assert (H : forall n l, length (Nat.iter n add_thread l) = (n + length l)%nat).
  { induction n as [|n IH]; intro l; simpl; [reflexivity|].
    rewrite length_add_thread, IH. reflexivity. }
  rewrite H. lia.
Qed.

(** [update_bars] replaces the thread row it is called for and nothing
    else; the row keeps its offset, and its row count when no change is
    reported. *)
Lemma update_bars_split (cd : ClientData) (td : ThreadData)
    (tl : TimelineState) (frame_number : Z)
    (pre post : list ThreadRow) (tr : ThreadRow) :
  _threads tl = pre ++ tr :: post ->
  exists tr' changed,
    update_bars cd td tl (length pre) frame_number
    = (set_threads tl (pre ++ tr' :: post) (_threads_changed tl), changed)
    /\ _row_offset tr' = _row_offset tr
    /\ (changed = false -> length (_rows tr') = length (_rows tr))
    /\ rows_equiv (_rows tr')
         (rows_app (_rows tr)
            (frame_rows (_start_time tl) (Z.of_nat (length pre)) frame_number
               (get_frame td frame_number))).
Proof.
  intro H.
  assert (Hnth : nth_error (_threads tl) (length pre) = Some tr).
  { rewrite H, nth_error_app2, Nat.sub_diag by lia. reflexivity. }
  rewrite (update_bars_unfold _ _ _ _ _ _ Hnth). cbv zeta.
  rewrite H, set_thread_app.
  eexists. eexists. split; [reflexivity|].
  destruct (update_thread_row_rows (_start_time tl)
              (get_thread_name cd (Z.of_nat (length pre)))
              (Z.of_nat (length pre)) frame_number
              (get_frame td frame_number) tr) as [H1 [H2 _]].
  split; [exact H2|]. split; [|exact H1].
  apply update_thread_row_unchanged.
Qed.

Lemma shift_following_app (pre post : list ThreadRow) (tr : ThreadRow) :
  shift_following (pre ++ tr :: post) (length pre)
  = pre ++ tr
      :: assign_offsets (_row_offset tr + length (_rows tr) + 1) post.
Proof.
  unfold shift_following.
  rewrite nth_error_app2, Nat.sub_diag by lia. simpl nth_error. cbv iota.
  replace (S (length pre)) with (length (pre ++ [tr]))
    by (rewrite length_app; simpl; lia).
  replace (pre ++ tr :: post) with ((pre ++ [tr]) ++ post)
    by (rewrite <- app_assoc; reflexivity).
  rewrite firstn_app, skipn_app, Nat.sub_diag, firstn_all, skipn_all.
  simpl. rewrite app_nil_r, <- app_assoc. reflexivity.
Qed.

Lemma ingest_frame_chained (cd : ClientData) (td : ThreadData)
    (tl : TimelineState) (thread_index : nat) (frame_number : Z)
    (frame_start frame_end : Q) :
  (thread_index < length (_threads tl))%nat ->
  offsets_chained (_threads tl) ->
  offsets_chained
    (_threads (ingest_frame cd td tl thread_index frame_number
                 frame_start frame_end)).
Proof.
  intros Hlt [offset Hch].
  destruct (nth_error (_threads tl) thread_index) as [tr|] eqn:Hnth;
    [|apply nth_error_None in Hnth; lia].
  destruct (nth_error_split_thread _ _ _ Hnth) as [pre [post [Hsplit Hlen]]].
  subst thread_index.
  destruct (update_bars_split cd td tl frame_number pre post tr Hsplit)
    as [tr' [changed [Hup [Hoff [Hsame _]]]]].
  unfold ingest_frame. rewrite Hup.
  rewrite Hsplit in Hch. apply offsets_from_app in Hch.
  destruct Hch as [Hpre [Htr Hpost]].
  exists offset. destruct changed.
  - simpl. rewrite shift_following_app. apply offsets_from_app.
    split; [exact Hpre|]. simpl. split; [congruence|].
    rewrite <- Htr, Hoff. apply offsets_from_assign.
  - assert (Hthreads : offsets_from offset (pre ++ tr' :: post)).
    { apply offsets_from_app. split; [exact Hpre|]. simpl.
      split; [congruence|]. rewrite (Hsame eq_refl). exact Hpost. }
    destruct (_ || _); simpl; exact Hthreads.
Qed.

Lemma threads_note_frame_times (tl : TimelineState) (frame_start frame_end : Q) :
  _threads (note_frame_times tl frame_start frame_end) = _threads tl.
Proof.
  unfold note_frame_times.
  destruct (negb (_have_start_time tl)); [|destruct (Qltb _ _)];
    match goal with |- context [if ?c then _ else _] => destruct c end;
    reflexivity.
Qed.

Lemma register_thread_chained (tl : TimelineState) (thread_index : nat) :
  offsets_chained (_threads tl) ->
  offsets_chained (_threads (register_thread tl thread_index))
  /\ (thread_index < length (_threads (register_thread tl thread_index)))%nat.
Proof.
  intro H. unfold register_thread.
  destruct (Nat.leb_spec (length (_threads tl)) thread_index); simpl.
  - split; [apply grow_threads_chained, H | apply length_grow_threads].
  - split; [exact H | lia].
Qed.

Lemma new_data_chained (client_data : option ClientData) (tl : TimelineState)
    (thread_index : nat) (frame_number : Z) :
  offsets_chained (_threads tl) ->
  offsets_chained (_threads (new_data client_data tl thread_index frame_number)).
Proof.
  intro H. unfold new_data.
  destruct client_data as [cd|]; [|exact H].
  destruct (get_thread_data cd (Z.of_nat thread_index)) as [td|]; [|exact H].
  destruct (is_empty td); [exact H|].
  rewrite <- (threads_note_frame_times tl
                (get_start (get_frame td frame_number))
                (get_end (get_frame td frame_number))) in H.
  destruct (register_thread_chained _ thread_index H) as [H1 H2].
  apply ingest_frame_chained; assumption.
Qed.

Lemma ingest_chained (calls : list (option ClientData * nat * Z))
    (tl : TimelineState) :
  offsets_chained (_threads tl) -> offsets_chained (_threads (ingest tl calls)).
Proof.
  revert tl. induction calls as [|call calls IH]; intros tl H; simpl.
  - exact H.
  - apply IH, new_data_chained, H.
Qed.

(** The initial load of one thread's frames only replaces that thread's
    row, which keeps its offset. *)
Lemma load_frames_split (cd : ClientData) (td : ThreadData)
    (frames : list Z) (pre post : list ThreadRow) (tr : ThreadRow)
    (tl : TimelineState) :
  _threads tl = pre ++ tr :: post ->
  exists tr',
    _threads (fold_left
                (fun t frame => fst (update_bars cd td t (length pre) frame))
                frames tl)
    = pre ++ tr' :: post
    /\ _row_offset tr' = _row_offset tr.
Proof.
  revert tr tl. induction frames as [|frame frames IH]; intros tr tl H; simpl.
  - eauto.
  - destruct (update_bars_split cd td tl frame pre post tr H)
      as [tr1 [changed [Hup [Hoff _]]]].
    rewrite Hup. simpl.
    destruct (IH tr1 (set_threads tl (pre ++ tr1 :: post) (_threads_changed tl))
                eq_refl) as [tr' [H1 H2]].
    exists tr'. split; [exact H1 | congruence].
Qed.

Lemma rows_span_app (pre post : list ThreadRow) :
  rows_span (pre ++ post) = (rows_span pre + rows_span post)%nat.
Proof.
  induction pre as [|t pre IH]; simpl; [reflexivity | lia].
Qed.

Lemma load_thread_offsets (cd : ClientData) (tl : TimelineState)
    (row_offset : nat) :
  offsets_from 0 (_threads tl) ->
  row_offset = rows_span (_threads tl) ->
  let r := load_thread cd (tl, row_offset) (length (_threads tl)) in
  offsets_from 0 (_threads (fst r))
  /\ snd r = rows_span (_threads (fst r))
  /\ length (_threads (fst r)) = S (length (_threads tl)).
Proof.
  intros Hch Hro. unfold load_thread.
  set (tl1 := set_threads tl (_threads tl ++ [new_thread_row row_offset])
                (_threads_changed tl)).
  assert (Hshape : forall t : TimelineState,
             (exists tr', _threads t = _threads tl ++ [tr']
                          /\ _row_offset tr' = row_offset) ->
             let r := (t, (row_offset
                           + match nth_error (_threads t) (length (_threads tl))
                             with
                             | Some thread_row => length (_rows thread_row)
                             | None => 0
                             end + 1)%nat) in
             offsets_from 0 (_threads (fst r))
             /\ snd r = rows_span (_threads (fst r))
             /\ length (_threads (fst r)) = S (length (_threads tl))).
  { intros t [tr' [Ht Hoff]]. simpl. rewrite Ht.
    rewrite nth_error_app2, Nat.sub_diag by lia. simpl.
    rewrite rows_span_app, length_app. simpl. repeat split; try lia.
    apply offsets_from_app. split; [exact Hch|]. simpl. split; [lia | exact I]. }
  assert (H1 : exists tr', _threads tl1 = _threads tl ++ [tr']
                           /\ _row_offset tr' = row_offset)
    by (eexists; split; reflexivity).
  destruct (get_thread_data cd (Z.of_nat (length (_threads tl)))) as [td|].
  - destruct (is_empty td).
    + apply Hshape. exact H1.
    + apply Hshape.
      match goal with
      | |- context [fold_left ?f ?l ?t0] =>
          destruct (load_frames_split cd td l (_threads tl) []
                      (new_thread_row row_offset) t0 eq_refl) as [tr' [Ha Hb]]
      end.
      exists tr'. split; [exact Ha | exact Hb].
  - apply Hshape. exact H1.
Qed.

Lemma load_threads_offsets (cd : ClientData) (n : nat) (tl : TimelineState)
    (row_offset : nat) :
  offsets_from 0 (_threads tl) ->
  row_offset = rows_span (_threads tl) ->
  offsets_from 0
    (_threads (fst (fold_left (load_thread cd)
                      (seq (length (_threads tl)) n) (tl, row_offset)))).
Proof.
  revert tl row_offset. induction n as [|n IH]; intros tl row_offset H1 H2.
  - exact H1.
  - cbn [seq fold_left].
    destruct (load_thread_offsets cd tl row_offset H1 H2) as [Ha [Hb Hc]].
    destruct (load_thread cd (tl, row_offset) (length (_threads tl)))
      as [tl' ro']. cbn [fst snd] in Ha, Hb, Hc.
    rewrite <- Hc. apply IH; assumption.
Qed.

Lemma constructor_chained (init : TimelineState)
    (client_data : option ClientData) :
  offsets_chained (_threads (PStatTimeline init client_data)).
Proof.
  exists O. unfold PStatTimeline. simpl.
  destruct client_data as [cd|]; [|exact I].
  match goal with
  | |- context [fold_left _ _ (?t0, O)] =>
      exact (load_threads_offsets cd (Z.to_nat (get_num_threads cd)) t0 O I eq_refl)
  end.
Qed.

(** C4.  After the constructor and any sequence of [new_data] calls, every
    thread row but the first starts right after the rows of the thread
    before it and one separator; so the offsets strictly increase. *)
Theorem offsets_consistent_after_ingestion
    (init : TimelineState) (client_data : option ClientData)
    (calls : list (option ClientData * nat * Z)) :
  offsets_consistent
    (_threads (ingest (PStatTimeline init client_data) calls)).
Proof.
  destruct (ingest_chained calls (PStatTimeline init client_data)
              (constructor_chained init client_data)) as [offset H].
  exact (offsets_from_consistent offset _ H).
Qed.

(** ** Order of ingestion *)

Lemma rows_app_equiv (a a' extra : list Row) :
  rows_equiv a a' -> rows_equiv (rows_app a extra) (rows_app a' extra).
Proof.
  intro H. revert extra.
  induction H as [|x y a a' Hxy Ha IH]; intros [|e extra]; simpl.
  - constructor.
  - apply rows_equiv_refl.
  - constructor; assumption.
  - constructor; [apply Permutation_app_tail, Hxy | apply IH].
Qed.

Lemma rows_app_comm (a b : list Row) :
  rows_equiv (rows_app a b) (rows_app b a).
Proof.
  revert b. induction a as [|x a IH]; intros [|y b]; simpl;
    try apply rows_equiv_refl.
  constructor; [apply Permutation_app_comm | apply IH].
Qed.

Lemma rows_app_swap (rows a b : list Row) :
  rows_equiv (rows_app (rows_app rows a) b) (rows_app (rows_app rows b) a).
Proof.
  revert a b. induction rows as [|r rows IH]; intros a b.
  - apply rows_app_comm.
  - destruct a as [|x a]; destruct b as [|y b]; simpl;
      try apply rows_equiv_refl.
    constructor; [|apply IH].
    rewrite <- !app_assoc. apply Permutation_app_head, Permutation_app_comm.
Qed.

Lemma rows_of_frames_equiv (start_time : Q) (thread_index : Z)
    (td : ThreadData) (frames : list Z) (rows rows' : list Row) :
  rows_equiv rows rows' ->
  rows_equiv (rows_of_frames start_time thread_index td frames rows)
    (rows_of_frames start_time thread_index td frames rows').
Proof.
  revert rows rows'. induction frames as [|f frames IH]; intros rows rows' H.
  - exact H.
  - simpl. apply IH, rows_app_equiv, H.
Qed.

Lemma rows_of_frames_perm (start_time : Q) (thread_index : Z)
    (td : ThreadData) (frames frames' : list Z) :
  Permutation frames frames' ->
  forall rows,
    rows_equiv (rows_of_frames start_time thread_index td frames rows)
      (rows_of_frames start_time thread_index td frames' rows).
Proof.
  induction 1 as [|f l l' Hp IH|f g l|l l' l'' H1 IH1 H2 IH2]; intro rows.
  - apply rows_equiv_refl.
  - simpl. apply IH.
  - simpl. apply rows_of_frames_equiv, rows_app_swap.
  - eapply rows_equiv_trans; [apply IH1 | apply IH2].
Qed.

Lemma add_thread_last (threads : list ThreadRow) :
  exists tr, add_thread threads = threads ++ [tr] /\ _rows tr = [].
Proof.
  unfold add_thread. destruct (rev threads) as [|prev before] eqn:E.
  - apply (f_equal (@rev _)) in E. rewrite rev_involutive in E. subst threads.
    eexists. split; reflexivity.
  - eexists. split; reflexivity.
Qed.

Lemma grow_threads_rows (threads : list ThreadRow) (thread_index : nat) :
  (length threads <= thread_index)%nat ->
  exists tr,
    nth_error (grow_threads threads thread_index) thread_index = Some tr
    /\ _rows tr = [].
Proof.
  intro H. unfold grow_threads.
  remember (S thread_index - length threads)%nat as n eqn:En.
  assert (Hn : thread_index = (n + length threads - 1)%nat) by lia.
  assert (Hpos : (0 < n)%nat) by lia. clear En H.
  destruct n as [|n]; [lia|]. simpl.
  destruct (add_thread_last (Nat.iter n add_thread threads)) as [tr [H1 H2]].
  exists tr. split; [|exact H2].
  rewrite H1. rewrite nth_error_app2.
  - assert (Hlen : forall k l, length (Nat.iter k add_thread l)
                               = (k + length l)%nat).
    { induction k as [|k IH]; intro l; simpl; [reflexivity|].
      rewrite length_add_thread, IH. reflexivity. }
    rewrite Hlen. replace (thread_index - (n + length threads))%nat with O by lia.
    reflexivity.
  - assert (Hlen : forall k l, length (Nat.iter k add_thread l)
                               = (k + length l)%nat).
    { induction k as [|k IH]; intro l; simpl; [reflexivity|].
      rewrite length_add_thread, IH. reflexivity. }
    rewrite Hlen. lia.
Qed.

Lemma thread_rows_register (tl : TimelineState) (thread_index : nat) :
  thread_rows (register_thread tl thread_index) thread_index
  = thread_rows tl thread_index.
Proof.
  unfold register_thread, thread_rows.
  destruct (Nat.leb_spec (length (_threads tl)) thread_index) as [H|H];
    [|reflexivity].
  simpl. destruct (grow_threads_rows _ _ H) as [tr [H1 H2]]. rewrite H1, H2.
  apply nth_error_None in H. now rewrite H.
Qed.

(** One frame ingested into a view that has its start time: the rows of
    the thread gain the rows of the frame, and the start time stays. *)
Lemma ingest_frame_rows (cd : ClientData) (td : ThreadData)
    (tl : TimelineState) (thread_index : nat) (frame_number : Z)
    (frame_start frame_end : Q) :
  (thread_index < length (_threads tl))%nat ->
  let tl' := ingest_frame cd td tl thread_index frame_number
               frame_start frame_end in
  rows_equiv (thread_rows tl' thread_index)
    (rows_app (thread_rows tl thread_index)
       (frame_rows (_start_time tl) (Z.of_nat thread_index) frame_number
          (get_frame td frame_number)))
  /\ _start_time tl' = _start_time tl
  /\ _have_start_time tl' = _have_start_time tl.
Proof.
  intros Hlt.
  destruct (nth_error (_threads tl) thread_index) as [tr|] eqn:Hnth;
    [|apply nth_error_None in Hnth; lia].
  destruct (nth_error_split_thread _ _ _ Hnth) as [pre [post [Hsplit Hlen]]].
  subst thread_index.
  destruct (update_bars_split cd td tl frame_number pre post tr Hsplit)
    as [tr' [changed [Hup [Hoff [_ Hrows]]]]].
  unfold ingest_frame, thread_rows. rewrite Hup, Hnth.
  destruct changed.
  - simpl. rewrite shift_following_app.
    rewrite nth_error_app2, Nat.sub_diag by lia. simpl. auto.
  - assert (H : nth_error (pre ++ tr' :: post) (length pre) = Some tr')
      by (rewrite nth_error_app2, Nat.sub_diag by lia; reflexivity).
    destruct (_ || _); simpl; rewrite H; auto.
Qed.

Lemma note_frame_times_started (tl : TimelineState) (frame_start frame_end : Q) :
  _have_start_time tl = true ->
  _start_time (note_frame_times tl frame_start frame_end) = _start_time tl
  /\ _have_start_time (note_frame_times tl frame_start frame_end) = true.
Proof.
  intro H. unfold note_frame_times. rewrite H. simpl.
  destruct (Qltb (_start_time tl) (_lowest_start_time tl));
    match goal with |- context [if ?c then _ else _] => destruct c end;
    simpl; auto.
Qed.

Lemma new_data_rows (cd : ClientData) (td : ThreadData) (tl : TimelineState)
    (thread_index : nat) (frame_number : Z) :
  get_thread_data cd (Z.of_nat thread_index) = Some td ->
  is_empty td = false ->
  _have_start_time tl = true ->
  let tl' := new_data (Some cd) tl thread_index frame_number in
  rows_equiv (thread_rows tl' thread_index)
    (rows_app (thread_rows tl thread_index)
       (frame_rows (_start_time tl) (Z.of_nat thread_index) frame_number
          (get_frame td frame_number)))
  /\ _start_time tl' = _start_time tl
  /\ _have_start_time tl' = true.
Proof.
  intros Htd Hne Hhave. unfold new_data. rewrite Htd, Hne.
  set (fs := get_start (get_frame td frame_number)).
  set (fe := get_end (get_frame td frame_number)).
  destruct (note_frame_times_started tl fs fe Hhave) as [Hs Hh].
  set (tl1 := note_frame_times tl fs fe) in *.
  assert (Hreg : _start_time (register_thread tl1 thread_index) = _start_time tl1
                 /\ _have_start_time (register_thread tl1 thread_index)
                    = _have_start_time tl1).
  { unfold register_thread. destruct (_ <=? _)%nat; split; reflexivity. }
  destruct Hreg as [Hrs Hrh].
  assert (Hlt : (thread_index
                 < length (_threads (register_thread tl1 thread_index)))%nat).
  { unfold register_thread.
    destruct (Nat.leb_spec (length (_threads tl1)) thread_index); simpl;
      [apply length_grow_threads | lia]. }
  destruct (ingest_frame_rows cd td (register_thread tl1 thread_index)
              thread_index frame_number fs fe Hlt) as [H1 [H2 H3]].
  rewrite thread_rows_register in H1.
  assert (Hthr : thread_rows tl1 thread_index = thread_rows tl thread_index).
  { unfold thread_rows, tl1. now rewrite threads_note_frame_times. }
  rewrite Hthr, Hrs, Hs in H1.
  split; [exact H1|]. split; congruence.
Qed.

Lemma ingest_calls_cons (cd : ClientData) (thread_index : nat) (f : Z)
    (frames : list Z) (tl : TimelineState) :
  ingest tl (calls_for cd thread_index (f :: frames))
  = ingest (new_data (Some cd) tl thread_index f)
      (calls_for cd thread_index frames).
Proof. reflexivity. Qed.

Lemma rows_of_frames_cons (start_time : Q) (thread_index : Z)
    (td : ThreadData) (f : Z) (frames : list Z) (rows : list Row) :
  rows_of_frames start_time thread_index td (f :: frames) rows
  = rows_of_frames start_time thread_index td frames
      (rows_app rows (frame_rows start_time thread_index f (get_frame td f))).
Proof. reflexivity. Qed.

Lemma ingest_rows (cd : ClientData) (td : ThreadData) (thread_index : nat)
    (frames : list Z) (tl : TimelineState) :
  get_thread_data cd (Z.of_nat thread_index) = Some td ->
  is_empty td = false ->
  _have_start_time tl = true ->
  rows_equiv
    (thread_rows (ingest tl (calls_for cd thread_index frames)) thread_index)
    (rows_of_frames (_start_time tl) (Z.of_nat thread_index) td frames
       (thread_rows tl thread_index)).
Proof.
  intros Htd Hne. revert tl.
  induction frames as [|f frames IH]; intros tl Hhave.
  - apply rows_equiv_refl.
  - rewrite ingest_calls_cons, rows_of_frames_cons.
    destruct (new_data_rows cd td tl thread_index f Htd Hne Hhave)
      as [H1 [H2 H3]].
    eapply rows_equiv_trans; [apply IH, H3|].
    rewrite H2. apply rows_of_frames_equiv, H1.
Qed.

Lemma ingest_no_data (cd : ClientData) (thread_index : nat)
    (frames : list Z) (tl : TimelineState) :
  match get_thread_data cd (Z.of_nat thread_index) with
  | Some td => is_empty td = true
  | None => True
  end ->
  ingest tl (calls_for cd thread_index frames) = tl.
Proof.
  intro H. induction frames as [|f frames IH]; [reflexivity|].
  rewrite ingest_calls_cons. unfold new_data at 1.
  destruct (get_thread_data cd (Z.of_nat thread_index)) as [td|];
    [rewrite H|]; exact IH.
Qed.

(** C2 (amended).  Once the view has its start time, so that every frame
    is clamped to the same window start, ingesting the frames of a thread
    in any two orders that are permutations of each other leaves rows that
    hold the same bars, row by row. *)
Theorem ingest_order_irrelevant_once_started
    (cd : ClientData) (tl : TimelineState) (thread_index : nat)
    (frames frames' : list Z) :
  _have_start_time tl = true ->
  Permutation frames frames' ->
  rows_equiv
    (thread_rows (ingest tl (calls_for cd thread_index frames)) thread_index)
    (thread_rows (ingest tl (calls_for cd thread_index frames')) thread_index).
Proof.
  intros Hhave Hperm.
  destruct (get_thread_data cd (Z.of_nat thread_index)) as [td|] eqn:Htd.
  - destruct (is_empty td) eqn:Hne.
    + rewrite !ingest_no_data by (rewrite Htd; exact Hne).
      apply rows_equiv_refl.
    + eapply rows_equiv_trans; [apply (ingest_rows cd td); assumption|].
      eapply rows_equiv_trans; [apply rows_of_frames_perm, Hperm|].
      apply rows_equiv_sym. apply (ingest_rows cd td); assumption.
  - rewrite !ingest_no_data by (rewrite Htd; exact I).
    apply rows_equiv_refl.
Qed.

(** ** Bounds over the data seen *)

Lemma update_bars_time_bounds (cd : ClientData) (td : ThreadData)
    (tl : TimelineState) (thread_index : nat) (frame_number : Z) :
  let tl' := fst (update_bars cd td tl thread_index frame_number) in
  _lowest_start_time tl' = _lowest_start_time tl
  /\ _highest_end_time tl' = _highest_end_time tl
  /\ _start_time tl' = _start_time tl.
Proof.
  unfold update_bars.
  destruct (nth_error (_threads tl) thread_index); [|auto].
  destruct (update_thread_row _ _ _ _ _ _). simpl. auto.
Qed.

Lemma ingest_frame_time_bounds (cd : ClientData) (td : ThreadData)
    (tl : TimelineState) (thread_index : nat) (frame_number : Z)
    (frame_start frame_end : Q) :
  let tl' := ingest_frame cd td tl thread_index frame_number
               frame_start frame_end in
  _lowest_start_time tl' = _lowest_start_time tl
  /\ _highest_end_time tl' = _highest_end_time tl.
Proof.
  unfold ingest_frame.
  destruct (update_bars_time_bounds cd td tl thread_index frame_number)
    as [H1 [H2 _]].
  destruct (update_bars cd td tl thread_index frame_number) as [tl' changed].
  simpl in H1, H2. destruct changed; [simpl; auto|].
  destruct (_ || _); simpl; auto.
Qed.

(** What [new_data] does to the lowest start time: the first frame seen
    sets it to the start of that frame; afterwards only a window start below
    it lowers it, and the start of the frame plays no part. *)
Lemma new_data_lowest_start_time (cd : ClientData) (td : ThreadData)
    (tl : TimelineState) (thread_index : nat) (frame_number : Z) :
  get_thread_data cd (Z.of_nat thread_index) = Some td ->
  is_empty td = false ->
  _lowest_start_time (new_data (Some cd) tl thread_index frame_number)
  = if negb (_have_start_time tl) then get_start (get_frame td frame_number)
    else if Qltb (_start_time tl) (_lowest_start_time tl) then _start_time tl
    else _lowest_start_time tl.
Proof.
  intros Htd Hne. unfold new_data. rewrite Htd, Hne.
  match goal with
  | |- context [ingest_frame cd td ?t ?i ?f ?a ?b] =>
      destruct (ingest_frame_time_bounds cd td t i f a b) as [H _]
  end.
  rewrite H. unfold register_thread, note_frame_times.
  destruct (negb (_have_start_time tl)); [|destruct (Qltb _ _)];
    repeat match goal with
           | |- context [if ?c then _ else _] => destruct c
           end; reflexivity.
Qed.

Lemma fmin_le_l (a b : Q) : (fmin a b <= a)%Q.
Proof.
  unfold fmin. destruct (Qltb b a) eqn:E.
  - apply Qltb_lt in E. lra.
  - lra.
Qed.

Lemma fmin_le_r (a b : Q) : (fmin a b <= b)%Q.
Proof.
  unfold fmin. destruct (Qltb b a) eqn:E.
  - lra.
  - apply Qltb_ge in E. exact E.
Qed.

Lemma rows_all_app (P : ColorBar -> Prop) (rows extra : list Row) :
  rows_all P rows -> rows_all P extra -> rows_all P (rows_app rows extra).
Proof.
  unfold rows_all. intro H. revert extra.
  induction H as [|r rs Hr Hrs IH]; intros extra He; simpl; [exact He|].
  destruct He as [|x xs Hx Hxs]; constructor; auto.
  apply Forall_app. auto.
Qed.

Lemma rows_all_equiv (P : ColorBar -> Prop) (rows rows' : list Row) :
  rows_equiv rows rows' -> rows_all P rows' -> rows_all P rows.
Proof.
  unfold rows_all. induction 1 as [|r r' rs rs' Hr Hrs IH]; intro H.
  - constructor.
  - inversion H; subst. constructor; [|auto].
    apply Forall_forall. intros b Hb.
    match goal with
    | Hall : Forall P r' |- _ => rewrite Forall_forall in Hall; apply Hall
    end.
    apply (Permutation_in _ Hr Hb).
Qed.

(** The bars of a frame lie between [lo] and [hi] when the clamped start
    times are not below [lo] and neither the events nor the end of the frame
    are after [hi]. *)
Lemma frame_rows_between (lo hi start_time : Q)
    (thread_index frame_number : Z) (fd : FrameData) :
  Forall (fun e => (lo <= fmax (ev_time e) start_time)%Q
                   /\ (ev_time e <= hi)%Q) (events fd) ->
  (get_end fd <= hi)%Q ->
  rows_all (fun b => (lo <= _start b)%Q /\ (_end b <= hi)%Q)
    (frame_rows start_time thread_index frame_number fd).
Proof.
  intros Hev Hend. unfold frame_rows, add_frame_bars. simpl.
  assert (H : forall evs st,
             Forall (fun e => (lo <= fmax (ev_time e) start_time)%Q
                              /\ (ev_time e <= hi)%Q) evs ->
             stack_all (fun s => (lo <= s)%Q) (bs_stack st) ->
             rows_all (fun b => (lo <= _start b)%Q /\ (_end b <= hi)%Q)
               (bs_rows st) ->
             let st' := process_events start_time thread_index frame_number
                          evs st in
             stack_all (fun s => (lo <= s)%Q) (bs_stack st')
             /\ rows_all (fun b => (lo <= _start b)%Q /\ (_end b <= hi)%Q)
                  (bs_rows st')).
  { induction evs as [|e evs IH]; intros st Hall Hs Hr; simpl; [auto|].
    inversion Hall as [|? ? [He1 He2] Hrest]; subst.
    destruct (process_event_inv (fun s => (lo <= s)%Q) (fun s => (lo <= s)%Q)
                (fun b => (lo <= _start b)%Q /\ (_end b <= hi)%Q)
                start_time thread_index frame_number st e) as [Hs' Hr'];
      [auto | auto | intros _ s Hs0; simpl; auto | auto | auto |].
    apply IH; assumption. }
  destruct (H (events fd) (mkBarState [] [] false) Hev) as [Hs Hr];
    try constructor.
  eapply add_unclosed_inv; [|exact Hs|exact Hr].
  intros s c Hsc. simpl. split; assumption.
Qed.

Lemma threads_all_impl (P P' : ColorBar -> Prop) (threads : list ThreadRow) :
  (forall b, P b -> P' b) -> threads_all P threads -> threads_all P' threads.
Proof.
  intros HP H. unfold threads_all in *.
  eapply Forall_impl; [|exact H]. intros tr Htr.
  eapply rows_all_impl; eassumption.
Qed.

Lemma threads_all_add_thread (P : ColorBar -> Prop)
    (threads : list ThreadRow) :
  threads_all P threads -> threads_all P (add_thread threads).
Proof.
  intro H. destruct (add_thread_last threads) as [tr [H1 H2]].
  rewrite H1. unfold threads_all. apply Forall_app. split; [exact H|].
  constructor; [|constructor]. rewrite H2. constructor.
Qed.

Lemma threads_all_grow (P : ColorBar -> Prop) (threads : list ThreadRow)
    (thread_index : nat) :
  threads_all P threads -> threads_all P (grow_threads threads thread_index).
Proof.
  intro H. unfold grow_threads.
  induction (S thread_index - length threads)%nat; simpl;
    auto using threads_all_add_thread.
Qed.

Lemma threads_all_assign_offsets (P : ColorBar -> Prop) (offset : nat)
    (threads : list ThreadRow) :
  threads_all P threads -> threads_all P (assign_offsets offset threads).
Proof.
  unfold threads_all. intro H. revert offset.
  induction H as [|tr rest Htr Hrest IH]; intro offset; simpl; constructor;
    auto.
Qed.

(** [update_bars] keeps a property of all bars that the bars of the frame
    have. *)
Lemma update_bars_threads_all (P : ColorBar -> Prop)
    (cd : ClientData) (td : ThreadData) (tl : TimelineState)
    (thread_index : nat) (frame_number : Z) :
  threads_all P (_threads tl) ->
  rows_all P (frame_rows (_start_time tl) (Z.of_nat thread_index) frame_number
                (get_frame td frame_number)) ->
  threads_all P
    (_threads (fst (update_bars cd td tl thread_index frame_number))).
Proof.
  intros Hall Hnew.
  destruct (nth_error (_threads tl) thread_index) as [tr|] eqn:Hnth.
  - destruct (nth_error_split_thread _ _ _ Hnth) as [pre [post [Hsplit Hlen]]].
    subst thread_index.
    destruct (update_bars_split cd td tl frame_number pre post tr Hsplit)
      as [tr' [changed [Hup [_ [_ Hrows]]]]].
    rewrite Hup. simpl. rewrite Hsplit in Hall. unfold threads_all in *.
    apply Forall_app in Hall. destruct Hall as [Hpre Hrest].
    inversion Hrest as [|? ? Htr Hpost]; subst.
    apply Forall_app. split; [exact Hpre|]. constructor; [|exact Hpost].
    eapply rows_all_equiv; [exact Hrows|]. apply rows_all_app; assumption.
  - unfold update_bars. rewrite Hnth. exact Hall.
Qed.

Lemma ingest_frame_threads_all (P : ColorBar -> Prop)
    (cd : ClientData) (td : ThreadData) (tl : TimelineState)
    (thread_index : nat) (frame_number : Z) (frame_start frame_end : Q) :
  threads_all P (_threads tl) ->
  rows_all P (frame_rows (_start_time tl) (Z.of_nat thread_index) frame_number
                (get_frame td frame_number)) ->
  threads_all P
    (_threads (ingest_frame cd td tl thread_index frame_number
                 frame_start frame_end)).
Proof.
  intros Hall Hnew.
  pose proof (update_bars_threads_all P cd td tl thread_index frame_number
                Hall Hnew) as H.
  unfold ingest_frame.
  destruct (update_bars cd td tl thread_index frame_number) as [tl' changed].
  simpl in H. destruct changed.
  - simpl. unfold shift_following.
    destruct (nth_error (_threads tl') thread_index) as [tr|]; [|exact H].
    rewrite <- (firstn_skipn (S thread_index) (_threads tl')) in H.
    unfold threads_all in *. apply Forall_app in H. destruct H as [H1 H2].
    apply Forall_app. split; [exact H1|].
    apply threads_all_assign_offsets, H2.
  - destruct (_ || _); simpl; exact H.
Qed.

Lemma note_frame_times_bounds (tl : TimelineState)
    (frame_start frame_end : Q) :
  let tl' := note_frame_times tl frame_start frame_end in
  _have_start_time tl' = true
  /\ (_lowest_start_time tl' <= _start_time tl')%Q
  /\ (frame_end <= _highest_end_time tl')%Q
  /\ (_highest_end_time tl <= _highest_end_time tl')%Q
  /\ (_have_start_time tl = true ->
      (_lowest_start_time tl' <= _lowest_start_time tl)%Q).
Proof.
  unfold note_frame_times.
  destruct (_have_start_time tl) eqn:Hh; simpl.
  - destruct (Qltb (_start_time tl) (_lowest_start_time tl)) eqn:E1;
      [apply Qltb_lt in E1 | apply Qltb_ge in E1];
      match goal with
      | |- context [if Qltb ?a ?b then _ else _] =>
          destruct (Qltb a b) eqn:E2;
          [apply Qltb_lt in E2 | apply Qltb_ge in E2]
      end; simpl in *; repeat split; try assumption; try lra.
  - match goal with
    | |- context [if Qltb ?a ?b then _ else _] =>
        destruct (Qltb a b) eqn:E2;
        [apply Qltb_lt in E2 | apply Qltb_ge in E2]
    end; simpl in *; repeat split; try discriminate; try lra.
Qed.

(** One [new_data] call keeps the bounds, for a frame without events after
    its end. *)
Lemma new_data_time_bounds (client_data : option ClientData)
    (tl : TimelineState) (thread_index : nat) (frame_number : Z) :
  match client_data with
  | Some cd =>
      match get_thread_data cd (Z.of_nat thread_index) with
      | Some td => events_end_in_frame (get_frame td frame_number)
      | None => True
      end
  | None => True
  end ->
  time_bounds_hold tl ->
  time_bounds_hold (new_data client_data tl thread_index frame_number).
Proof.
  intros Hfd Hinv. unfold new_data.
  destruct client_data as [cd|]; [|exact Hinv].
  destruct (get_thread_data cd (Z.of_nat thread_index)) as [td|];
    [|exact Hinv].
  destruct (is_empty td); [exact Hinv|].
  set (fd := get_frame td frame_number) in *.
  destruct (note_frame_times_bounds tl (get_start fd) (get_end fd))
    as [Hh [Hlo [Hfe [Hhi Hlow]]]].
  set (tl1 := note_frame_times tl (get_start fd) (get_end fd)) in *.
  set (P := fun b : ColorBar =>
              (_lowest_start_time tl1 <= _start b)%Q
              /\ (_end b <= _highest_end_time tl1)%Q).
  assert (H1 : threads_all P (_threads tl1)).
  { unfold tl1. rewrite threads_note_frame_times.
    destruct Hinv as [Hnone Hall].
    destruct (_have_start_time tl) eqn:Hhave.
    - eapply threads_all_impl; [|exact Hall]. unfold P.
      specialize (Hlow eq_refl). intros b [Ha Hb]. split; lra.
    - eapply threads_all_impl; [|exact (Hnone eq_refl)]. intros b []. }
  set (tl2 := register_thread tl1 thread_index).
  assert (Hsame : _lowest_start_time tl2 = _lowest_start_time tl1
                  /\ _highest_end_time tl2 = _highest_end_time tl1
                  /\ _start_time tl2 = _start_time tl1
                  /\ _have_start_time tl2 = _have_start_time tl1).
  { unfold tl2, register_thread. destruct (_ <=? _)%nat; repeat split. }
  destruct Hsame as [Hs1 [Hs2 [Hs3 Hs4]]].
  assert (H2 : threads_all P (_threads tl2)).
  { unfold tl2, register_thread. destruct (_ <=? _)%nat; simpl;
      [apply threads_all_grow|]; exact H1. }
  assert (Hnew : rows_all P
                   (frame_rows (_start_time tl2) (Z.of_nat thread_index)
                      frame_number fd)).
  { unfold P. apply frame_rows_between; [|exact Hfe].
    unfold events_end_in_frame in Hfd.
    eapply Forall_impl; [|exact Hfd]. simpl. intros e He. split.
    - rewrite Hs3. pose proof (fmax_ge_r (ev_time e) (_start_time tl1)). lra.
    - lra. }
  pose proof (ingest_frame_threads_all P cd td tl2 thread_index frame_number
                (get_start fd) (get_end fd) H2 Hnew) as H3.
  destruct (ingest_frame_time_bounds cd td tl2 thread_index frame_number
              (get_start fd) (get_end fd)) as [Hb1 Hb2].
  assert (Hhave' : _have_start_time
                     (ingest_frame cd td tl2 thread_index frame_number
                        (get_start fd) (get_end fd)) = true).
  { unfold ingest_frame.
    pose proof (update_bars_unfold cd td tl2 thread_index frame_number) as Hu.
    unfold update_bars in *.
    destruct (nth_error (_threads tl2) thread_index) as [tr|].
    - destruct (update_thread_row _ _ _ _ _ tr) as [tr' changed].
      destruct changed; [|destruct (_ || _)]; simpl; congruence.
    - destruct (_ || _); simpl; congruence. }
  split.
  - intro Hf. congruence.
  - rewrite Hb1, Hb2, Hs1, Hs2. exact H3.
Qed.

Lemma in_zrange (lo hi x : Z) : In x (zrange lo hi) -> lo <= x < hi.
Proof.
  unfold zrange. intro H. apply in_map_iff in H.
  destruct H as [k [Hk Hin]]. apply in_seq in Hin. lia.
Qed.

Lemma update_bars_have_start_time (cd : ClientData) (td : ThreadData)
    (tl : TimelineState) (thread_index : nat) (frame_number : Z) :
  _have_start_time (fst (update_bars cd td tl thread_index frame_number))
  = _have_start_time tl.
Proof.
  unfold update_bars.
  destruct (nth_error (_threads tl) thread_index); [|reflexivity].
  destruct (update_thread_row _ _ _ _ _ _). reflexivity.
Qed.

(** The initial load of the frames of one thread keeps a property of all
    bars that the bars of every loaded frame have, and leaves the time
    members alone. *)
Lemma load_frames_threads_all (P : ColorBar -> Prop)
    (cd : ClientData) (td : ThreadData) (thread_index : nat)
    (frames : list Z) (tl : TimelineState) :
  threads_all P (_threads tl) ->
  (forall frame, In frame frames ->
     rows_all P (frame_rows (_start_time tl) (Z.of_nat thread_index) frame
                   (get_frame td frame))) ->
  let tl' := fold_left
               (fun t frame => fst (update_bars cd td t thread_index frame))
               frames tl in
  threads_all P (_threads tl')
  /\ _lowest_start_time tl' = _lowest_start_time tl
  /\ _highest_end_time tl' = _highest_end_time tl
  /\ _have_start_time tl' = _have_start_time tl.
Proof.
  revert tl. induction frames as [|f frames IH]; intros tl Hall Hnew; simpl.
  - auto.
  - destruct (update_bars_time_bounds cd td tl thread_index f)
      as [H1 [H2 H3]].
    pose proof (update_bars_have_start_time cd td tl thread_index f) as H4.
    destruct (IH (fst (update_bars cd td tl thread_index f))) as [Ha [Hb [Hc Hd]]].
    + apply update_bars_threads_all; [exact Hall|]. apply Hnew. left. reflexivity.
    + intros frame Hin. rewrite H3. apply Hnew. right. exact Hin.
    + repeat split; congruence.
Qed.

Lemma load_thread_time_bounds (cd : ClientData) (tl : TimelineState)
    (row_offset thread_index : nat) :
  recorded_frames_in_range cd ->
  time_bounds_hold tl ->
  time_bounds_hold (fst (load_thread cd (tl, row_offset) thread_index)).
Proof.
  intros Hcd [Hnone Hall]. unfold load_thread.
  set (threads1 := _threads tl ++ [new_thread_row row_offset]).
  assert (Hext : forall P, threads_all P (_threads tl) -> threads_all P threads1).
  { intros P H. unfold threads_all, threads1. apply Forall_app.
    split; [exact H|]. constructor; [constructor | constructor]. }
  cbn [fst].
  destruct (get_thread_data cd (Z.of_nat thread_index)) as [td|] eqn:Htd.
  - destruct (is_empty td) eqn:Hne.
    + split; simpl; auto.
    + set (oldest := get_oldest_frame_number td).
      set (latest := get_latest_frame_number td).
      set (lo := if negb (_have_start_time tl)
                 then get_start (get_frame td oldest)
                 else fmin (_lowest_start_time tl)
                        (get_start (get_frame td oldest))).
      set (hi := fmax (_highest_end_time tl) (get_end (get_frame td latest))).
      set (P := fun b : ColorBar => (lo <= _start b)%Q /\ (_end b <= hi)%Q).
      assert (Hlo : (lo <= get_start (get_frame td oldest))%Q).
      { unfold lo. destruct (negb _); [lra | apply fmin_le_r]. }
      assert (Hhi : (get_end (get_frame td latest) <= hi)%Q)
        by apply fmax_ge_r.
      assert (Hold : threads_all P threads1).
      { apply Hext. destruct (_have_start_time tl) eqn:Hhave.
        - eapply threads_all_impl; [|exact Hall]. unfold P, lo, hi. simpl.
          pose proof (fmin_le_l (_lowest_start_time tl)
                        (get_start (get_frame td oldest))).
          pose proof (fmax_ge_l (_highest_end_time tl)
                        (get_end (get_frame td latest))).
          intros b [Ha Hb]. split; lra.
        - eapply threads_all_impl; [|exact (Hnone eq_refl)]. intros b []. }
      match goal with
      | |- time_bounds_hold (fold_left ?f ?frames ?t0) =>
          destruct (load_frames_threads_all P cd td thread_index frames t0)
            as [Ha [Hb [Hc Hd]]]
      end.
      * exact Hold.
      * intros frame Hin. apply in_zrange in Hin.
        destruct (Hcd thread_index td frame Htd Hne) as [He Hev];
          [fold oldest latest; lia|].
        fold oldest latest in He, Hev.
        unfold P. apply frame_rows_between; [|lra].
        eapply Forall_impl; [|exact Hev]. simpl. intros e [He1 He2].
        pose proof (fmax_ge_l (ev_time e) (_start_time tl)).
        split; lra.
      * split.
        -- intro Hf. rewrite Hd in Hf. discriminate Hf.
        -- rewrite Hb, Hc. exact Ha.
  - split; simpl; auto.
Qed.

Lemma load_threads_time_bounds (cd : ClientData) (indices : list nat)
    (tl : TimelineState) (row_offset : nat) :
  recorded_frames_in_range cd ->
  time_bounds_hold tl ->
  time_bounds_hold (fst (fold_left (load_thread cd) indices (tl, row_offset))).
Proof.
  intro Hcd. revert tl row_offset.
  induction indices as [|i indices IH]; intros tl row_offset H;
    cbn [fold_left].
  - exact H.
  - pose proof (load_thread_time_bounds cd tl row_offset i Hcd H) as H1.
    destruct (load_thread cd (tl, row_offset) i) as [tl' ro'].
    apply IH. exact H1.
Qed.

Lemma constructor_time_bounds (init : TimelineState)
    (client_data : option ClientData) :
  match client_data with
  | Some cd => recorded_frames_in_range cd
  | None => True
  end ->
  time_bounds_hold (PStatTimeline init client_data).
Proof.
  intro Hcd. unfold PStatTimeline.
  match goal with
  | |- context [mkTimeline [] ?a ?b ?c ?d ?e ?f ?g ?h ?i ?j ?k] =>
      set (tl0 := mkTimeline [] a b c d e f g h i j k)
  end.
  assert (H0 : time_bounds_hold tl0) by (split; intros; constructor).
  destruct client_data as [cd|].
  - pose proof (load_threads_time_bounds cd
                  (seq 0 (Z.to_nat (get_num_threads cd))) tl0 O Hcd H0) as H.
    destruct H as [H1 H2]. split; simpl; assumption.
  - destruct H0 as [H1 H2]. split; simpl; assumption.
Qed.

(** The bounds over all data, after the constructor and any sequence of
    [new_data] calls: when the frames loaded by the constructor lie in the
    range of their thread's recording and no ingested frame has an event
    after its end, the lowest start time is not after the start of any bar
    and the highest end time is not before the end of any bar. *)
Theorem time_bounds_after_ingestion
    (init : TimelineState) (client_data : option ClientData)
    (calls : list (option ClientData * nat * Z)) :
  match client_data with
  | Some cd => recorded_frames_in_range cd
  | None => True
  end ->
  calls_end_in_frame calls ->
  threads_all
    (fun b =>
       (_lowest_start_time (ingest (PStatTimeline init client_data) calls)
        <= _start b)%Q
       /\ (_end b
           <= _highest_end_time (ingest (PStatTimeline init client_data) calls))%Q)
    (_threads (ingest (PStatTimeline init client_data) calls)).
Proof.
  intros Hcd Hcalls.
  assert (H : forall calls tl,
             calls_end_in_frame calls -> time_bounds_hold tl ->
             time_bounds_hold (ingest tl calls)).
  { clear. induction calls as [|call calls IH]; intros tl Hc Htl; simpl.
    - exact Htl.
    - inversion Hc as [|? ? Hcall Hrest]; subst.
      apply IH; [exact Hrest|].
      apply new_data_time_bounds; assumption. }
  exact (proj2 (H calls _ Hcalls (constructor_time_bounds init client_data Hcd))).
Qed.

(** ** Drawing one thread *)

(** The guard of [draw_thread] lets the index equal to the number of
    threads through, and [_threads] is then indexed one past its end. *)
Lemma draw_thread_at_size (tl : TimelineState) :
  Z.of_nat (length (_threads tl)) < 2 ^ 64 ->
  draw_thread tl (Z.of_nat (length (_threads tl)))
  = IndexedOutOfBounds (length (_threads tl)) (length (_threads tl)).
Proof.
  intro H. unfold draw_thread.
  rewrite size_t_of_int_nonneg by lia.
  destruct (Z.ltb_spec (Z.of_nat (length (_threads tl))) 0); [lia|].
  rewrite Z.ltb_irrefl. simpl. rewrite Nat2Z.id.
  destruct (nth_error (_threads tl) (length (_threads tl))) eqn:E;
    [|reflexivity].
  assert (nth_error (_threads tl) (length (_threads tl)) = None)
    by (apply nth_error_None; lia).
  congruence.
Qed.

(** Every other index outside the vector is stopped by the guard. *)
Lemma draw_thread_guarded (tl : TimelineState) (thread_index : Z) :
  thread_index < 0
  \/ Z.of_nat (length (_threads tl)) < thread_index < 2 ^ 64 ->
  draw_thread tl thread_index = ReturnedAtGuard.
Proof.
  intro H. unfold draw_thread. destruct H as [H|H].
  - destruct (Z.ltb_spec thread_index 0); [reflexivity | lia].
  - rewrite size_t_of_int_nonneg by lia.
    destruct (Z.ltb_spec (Z.of_nat (length (_threads tl))) thread_index);
      [|lia].
    now rewrite orb_true_r.
Qed.

(** ** Hit test *)

Lemma row_ordered_after (b : ColorBar) (rest : Row) :
  row_ordered (b :: rest) ->
  forall n, In n rest -> (_end b <= _start n)%Q.
Proof.
  revert b. induction rest as [|x rest IH]; intros b H n Hn.
  - destruct Hn.
  - destruct H as [H1 [H2 H3]]. destruct Hn as [Hn|Hn].
    + subst. exact H2.
    + pose proof (IH x H3 n Hn) as H4. destruct H3 as [H5 _]. lra.
Qed.

(** On an ordered row, with bars compared by their end times, the lookup
    of [find_bar] succeeds exactly when some bar of the row contains the
    time, and it yields such a bar. *)
Lemma lower_bound_contains (bars : Row) (time : Q) :
  (forall a b, bar_lt a b = Qltb (_end a) (_end b)) ->
  row_ordered bars ->
  match lower_bound bars (mkBar time time 0 0 0) with
  | it :: _ =>
      In it bars
      /\ (time <= _end it)%Q
      /\ ((_start it <= time)%Q <-> exists b, In b bars /\ bar_contains b time)
  | [] => ~ exists b, In b bars /\ bar_contains b time
  end.
Proof.
  intros Hlt. induction bars as [|b rest IH]; intro Hord; simpl.
  - intros [b [[] _]].
  - rewrite Hlt. simpl.
    destruct (Qltb (_end b) time) eqn:E.
    + apply Qltb_lt in E.
      assert (Hrest : row_ordered rest) by (destruct Hord as [_ [_ H]]; exact H).
      specialize (IH Hrest).
      assert (Hsame : (exists x, In x (b :: rest) /\ bar_contains x time)
                      <-> exists x, In x rest /\ bar_contains x time).
      { split; intros [x [Hx Hc]].
        - destruct Hx as [Hx|Hx]; [|eauto].
          subst x. destruct Hc as [_ Hc]. lra.
        - exists x. split; [right; exact Hx | exact Hc]. }
      destruct (lower_bound rest (mkBar time time 0 0 0)) as [|it tail].
      * rewrite Hsame. exact IH.
      * destruct IH as [H1 [H2 H3]].
        split; [right; exact H1|]. split; [exact H2|].
        rewrite Hsame. exact H3.
    + apply Qltb_ge in E. split; [left; reflexivity|]. split; [exact E|].
      split.
      * intro Hs. exists b. split; [left; reflexivity | split; assumption].
      * intros [x [[Hx|Hx] [Hc1 Hc2]]].
        -- subst x. exact Hc1.
        -- pose proof (row_ordered_after b rest Hord x Hx).
           destruct Hord as [Hse _]. unfold bar_contains in *. lra.
Qed.

Lemma resolves_to_cons (tr : ThreadRow) (rest : list ThreadRow) (row : Z)
    (bars : Row) :
  resolves_to (tr :: rest) row bars
  <-> (exists d, nth_error (_rows tr) d = Some bars
                 /\ row = Z.of_nat (_row_offset tr + d))
      \/ resolves_to rest row bars.
Proof.
  unfold resolves_to. split.
  - intros [i [t [d [H1 [H2 H3]]]]]. destruct i as [|i]; simpl in H1.
    + inversion H1; subst t. left. eauto.
    + right. exists i, t, d. auto.
  - intros [[d [H1 H2]]|[i [t [d [H1 [H2 H3]]]]]].
    + exists O, tr, d. auto.
    + exists (S i), t, d. auto.
Qed.

Lemma resolves_to_from (offset : nat) (threads : list ThreadRow) (row : Z)
    (bars : Row) :
  offsets_from offset threads -> resolves_to threads row bars ->
  Z.of_nat offset <= row.
Proof.
  revert offset. induction threads as [|tr rest IH]; intros offset Hch Hres.
  - destruct Hres as [i [t [d [H _]]]]. destruct i; discriminate.
  - destruct Hch as [H1 H2]. apply resolves_to_cons in Hres.
    destruct Hres as [[d [_ Hd]]|Hres]; [lia|].
    specialize (IH _ H2 Hres). lia.
Qed.

Lemma find_bar_in_before (offset : nat) (threads : list ThreadRow) (row : Z)
    (time : Q) :
  offsets_from offset threads -> 0 <= row < Z.of_nat offset ->
  Z.of_nat offset < 2 ^ 31 ->
  find_bar_in threads row time = None.
Proof.
  intros Hch Hrow Hoff. destruct threads as [|tr rest]; [reflexivity|].
  destruct Hch as [H1 _]. simpl.
  rewrite size_t_of_int_nonneg by lia.
  destruct (Z.ltb_spec row (Z.of_nat (_row_offset tr))); [reflexivity | lia].
Qed.

(** The hit test on the list of thread rows. *)
Lemma find_bar_in_spec (threads : list ThreadRow) (row : Z) (time : Q)
    (offset : nat) :
  (forall a b, bar_lt a b = Qltb (_end a) (_end b)) ->
  offsets_from offset threads ->
  Forall (fun tr => Forall row_ordered (_rows tr)
                    /\ Z.of_nat (_row_offset tr + length (_rows tr)) < 2 ^ 31 - 1)
    threads ->
  - 2 ^ 31 <= row < 2 ^ 31 ->
  match find_bar_in threads row time with
  | Some b =>
      exists bars,
        resolves_to threads row bars /\ In b bars /\ bar_contains b time
  | None =>
      ~ exists bars b,
          resolves_to threads row bars /\ In b bars /\ bar_contains b time
  end.
Proof.
  intros Hlt. revert offset.
  induction threads as [|tr rest IH]; intros offset Hch Hall Hrow.
  - simpl. intros [bars [b [[i [t [d [H _]]]] _]]]. destruct i; discriminate.
  - destruct Hch as [Hoff Hch]. inversion Hall as [|? ? [Hord Hsize] Hrest]; subst.
    assert (Hnone_rest :
      forall bars, resolves_to rest row bars ->
        Z.of_nat (_row_offset tr + length (_rows tr) + 1) <= row).
    { intros bars H. apply (resolves_to_from _ _ _ _ Hch H). }
    simpl.
    destruct (Z.ltb_spec (size_t_of_int row) (Z.of_nat (_row_offset tr)))
      as [Hbefore|Hnot].
    + (* break *)
      assert (Hpos : 0 <= row).
      { destruct (Z.lt_ge_cases row 0) as [Hneg|]; [|assumption].
        rewrite size_t_of_int_neg in Hbefore by lia. lia. }
      rewrite size_t_of_int_nonneg in Hbefore by lia.
      intros [bars [b [Hres _]]]. apply resolves_to_cons in Hres.
      destruct Hres as [[d [_ Hd]]|Hres]; [lia|].
      specialize (Hnone_rest _ Hres). lia.
    + rewrite int_of_size_t_small by lia.
      set (row_index := row - Z.of_nat (_row_offset tr)).
      destruct (Z.ltb_spec (size_t_of_int row_index)
                  (Z.of_nat (length (_rows tr)))) as [Hin|Hout].
      * (* the row index falls on a row of this thread *)
        assert (Hidx : 0 <= row_index).
        { destruct (Z.lt_ge_cases row_index 0) as [Hneg|]; [|assumption].
          subst row_index.
          rewrite size_t_of_int_neg in Hin by lia. lia. }
        rewrite size_t_of_int_nonneg in Hin by lia.
        assert (Hr0 : 0 <= row) by lia.
        destruct (nth_error (_rows tr) (Z.to_nat row_index)) as [bars|] eqn:Hnth;
          [|apply nth_error_None in Hnth; lia].
        assert (Hhere : resolves_to (tr :: rest) row bars).
        { apply resolves_to_cons. left. exists (Z.to_nat row_index).
          split; [exact Hnth | subst row_index; lia]. }
        assert (Honly : forall bars' , resolves_to (tr :: rest) row bars' ->
                                       bars' = bars).
        { intros bars' H. apply resolves_to_cons in H.
          destruct H as [[d [Hd1 Hd2]]|H].
          - assert (d = Z.to_nat row_index) by (subst row_index; lia).
            subst d. congruence.
          - specialize (Hnone_rest _ H). subst row_index. lia. }
        assert (Hnext : find_bar_in rest row time = None).
        { apply (find_bar_in_before _ _ _ _ Hch); subst row_index; lia. }
        assert (Hbars : row_ordered bars).
        { rewrite Forall_forall in Hord. apply Hord.
          apply (nth_error_In _ _ Hnth). }
        pose proof (lower_bound_contains bars time Hlt Hbars) as Hlb.
        destruct (lower_bound bars (mkBar time time 0 0 0)) as [|it tail].
        -- rewrite Hnext. intros [bars' [b [Hres Hb]]].
           apply Honly in Hres. subst bars'. apply Hlb. eauto.
        -- destruct Hlb as [H1 [H2 H3]].
           destruct (Qle_bool (_start it) time) eqn:E.
           ++ apply Qle_bool_iff in E. exists bars.
              split; [exact Hhere|]. split; [exact H1 | split; assumption].
           ++ rewrite Hnext. intros [bars' [b [Hres Hb]]].
              apply Honly in Hres. subst bars'.
              assert (Hs : (_start it <= time)%Q) by (apply H3; eauto).
              apply Qle_bool_iff in Hs. congruence.
      * (* separator, or a row of a later thread *)
        assert (Hskip : forall bars, resolves_to (tr :: rest) row bars ->
                                     resolves_to rest row bars).
        { intros bars H. apply resolves_to_cons in H.
          destruct H as [[d [Hd1 Hd2]]|H]; [|exact H].
          exfalso.
          assert (Hd : (d < length (_rows tr))%nat)
            by (apply nth_error_Some; congruence).
          subst row_index.
          rewrite size_t_of_int_nonneg in Hout by lia. lia. }
        specialize (IH _ Hch Hrest Hrow).
        destruct (find_bar_in rest row time) as [b|].
        -- destruct IH as [bars [H1 H2]]. exists bars.
           split; [apply resolves_to_cons; right; exact H1 | exact H2].
        -- intros [bars [b [Hres Hb]]]. apply IH. exists bars, b.
           split; [apply Hskip, Hres | exact Hb].
Qed.

Lemma offsets_consistent_from (threads : list ThreadRow) :
  offsets_consistent threads ->
  offsets_from (match threads with [] => O | tr :: _ => _row_offset tr end)
    threads.
Proof.
  induction threads as [|tr rest IH]; intro H; simpl.
  - exact I.
  - split; [reflexivity|].
    assert (Hrest : offsets_consistent rest).
    { intros i prev t Hp Ht. exact (H (S i) prev t Hp Ht). }
    specialize (IH Hrest). destruct rest as [|tr2 rest2]; [exact I|].
    destruct (H O tr tr2 eq_refl eq_refl) as [Heq _].
    rewrite <- Heq. exact IH.
Qed.

(** C6 (amended).  With bars compared by their end times, consistent
    offsets and rows in which every bar has its start not after its end and
    ends not after the next bar starts, [find_bar] returns a bar if and only
    if the time at pixel
    [x] lies in some bar of the row that the global row index falls on, and
    the bar it returns is such a bar; when the index falls on a separator,
    before the first or beyond the last row, or the time lies in a gap, it
    returns none. *)
Theorem find_bar_iff_contained (tl : TimelineState) (row x : Z) :
  (forall a b, bar_lt a b = Qltb (_end a) (_end b)) ->
  offsets_consistent (_threads tl) ->
  Forall (fun tr => Forall row_ordered (_rows tr)
                    /\ Z.of_nat (_row_offset tr + length (_rows tr)) < 2 ^ 31 - 1)
    (_threads tl) ->
  - 2 ^ 31 <= row < 2 ^ 31 ->
  ((exists b, find_bar tl row x = Some b)
   <-> exists bars b,
         resolves_to (_threads tl) row bars /\ In b bars
         /\ bar_contains b (pixel_to_timestamp tl x))
  /\ (forall b,
        find_bar tl row x = Some b ->
        exists bars,
          resolves_to (_threads tl) row bars /\ In b bars
          /\ bar_contains b (pixel_to_timestamp tl x)).
Proof.
  intros Hlt Hoff Hall Hrow.
  pose proof (find_bar_in_spec (_threads tl) row (pixel_to_timestamp tl x) _
                Hlt (offsets_consistent_from _ Hoff) Hall Hrow) as H.
  unfold find_bar. destruct (find_bar_in (_threads tl) row _) as [b|].
  - destruct H as [bars Hb]. split.
    + split; [intros _; exists bars, b; exact Hb | intros _; eauto].
    + intros b' Hb'. inversion Hb'; subst b'. eauto.
  - split.
    + split; [intros [b Hb]; discriminate | intro H'; contradiction].
    + intros b Hb. discriminate.
Qed.

(** ** Guide bars *)

Lemma boundaries_in_window_nonneg (start_time end_time : Q) (it : Row) :
  0 <= boundaries_in_window start_time end_time it.
Proof.
  induction it as [|b rest IH]; simpl; [lia|].
  destruct (negb _); [exact IH|].
  destruct (Qltb end_time _); [lia|].
  destruct (Qltb start_time _); lia.
Qed.

(** The frame pass drops everything as soon as the count of frame
    boundaries passes [max_frames]. *)
Lemma frame_guide_bars_abort (tl : TimelineState)
    (interval start_time end_time : Q) (max_frames : Z) (it : Row)
    (num_frames : Z) (bars : list GuideBar) :
  num_frames <= max_frames ->
  max_frames < num_frames + boundaries_in_window start_time end_time it ->
  frame_guide_bars tl interval start_time end_time max_frames it
    num_frames bars = [].
Proof.
  revert num_frames bars.
  induction it as [|b rest IH]; intros num_frames bars Hle Hgt; simpl in *.
  - lia.
  - destruct (negb (_collector_index b =? 0)); [apply IH; assumption|].
    destruct (Qltb end_time (_start b)); [lia|].
    destruct (Qltb start_time (_start b)).
    + destruct (Z.ltb_spec max_frames (num_frames + 1)); [reflexivity|].
      apply IH; lia.
    + apply IH; lia.
Qed.

Lemma Qtrunc_inject_Z (z : Z) : Qtrunc (inject_Z z) = z.
Proof. unfold Qtrunc, inject_Z. cbn [Qnum Qden]. apply Z.quot_1_r. Qed.

Lemma double_to_int_fits (x : Q) :
  in_int_range (Qtrunc x) = true -> double_to_int x = Qtrunc x.
Proof. intro H. unfold double_to_int. rewrite H. reflexivity. Qed.

Lemma round_to_int_fits (x : Q) :
  in_int_range (Qround_half_away x) = true ->
  round_to_int x = Qround_half_away x.
Proof.
  intro H. unfold round_to_int.
  rewrite double_to_int_fits; rewrite Qtrunc_inject_Z; [reflexivity | exact H].
Qed.

Lemma frame_pass_first_row (tl : TimelineState)
    (interval start_time end_time : Q) :
  GuideBars.first_row tl = [] \/
  frame_pass tl interval start_time end_time
  = frame_guide_bars tl interval start_time end_time
      (Z.quot (_xsize tl) 100)
      (skip_to_frame
         (lower_bound (GuideBars.first_row tl) (mkBar 0 start_time 0 0 0)))
      0 [].
Proof.
  unfold GuideBars.first_row, frame_pass.
  destruct (_threads tl) as [|thread0 others]; [left; reflexivity|].
  destruct (_rows thread0) as [|row rows]; [left; reflexivity|].
  right. reflexivity.
Qed.

(** C8 (amended).  On a first row in ascending order of end time, with
    the bars compared by their end times: when more frame boundaries lie
    inside the window than [widget-width / 100], the pass over the frame
    bars aborts and leaves no guide bar.  The pass also leaves none when
    there is no thread or the first thread has no row.  Whenever the pass
    leaves no guide bar and the interval is positive, for whichever of these
    reasons, the guide bars of the view are the gridlines at absolute times;
    when the two conversions to [int] have their values in the range of
    [int], these are the multiples [i * interval] from
    [max ((int)(start / interval), 1)] up to, and not including,
    [(int)round (end / interval)].  When the pass leaves guide bars, they
    are the guide bars of the view and no gridline at an absolute time is
    added. *)
Theorem guide_bars_abort_falls_back (tl : TimelineState) :
  let start_time := get_horizontal_scroll tl in
  let end_time := (start_time + get_horizontal_scale tl)%Q in
  let interval := guide_interval (pixel_to_height tl 150) in
  let pass := frame_pass tl interval start_time end_time in
  ((forall a b, bar_lt a b = Qltb (_end a) (_end b)) ->
   Ingestion.ends_ascend (GuideBars.first_row tl) ->
   0 <= _xsize tl ->
   Z.quot (_xsize tl) 100
   < boundaries_in_window start_time end_time
       (skip_to_frame
          (lower_bound (GuideBars.first_row tl) (mkBar 0 start_time 0 0 0))) ->
   pass = [])
  /\ (_threads tl = []
      \/ (exists thread0 others,
            _threads tl = thread0 :: others /\ _rows thread0 = []) ->
      pass = [])
  /\ (pass = [] -> (0 < interval)%Q ->
      _guide_bars (normal_guide_bars tl)
      = absolute_bars interval start_time end_time)
  /\ (in_int_range (Qtrunc (start_time / interval)) = true ->
      in_int_range (Qround_half_away (end_time / interval)) = true ->
      absolute_bars interval start_time end_time
      = map (fun i =>
               mkGuideBar (inject_Z i * interval)
                 (LabelTime (inject_Z i * interval)) GBS_frame)
          (zrange (Z.max (Qtrunc (start_time / interval)) 1)
             (Qround_half_away (end_time / interval))))
  /\ (pass <> [] -> _guide_bars (normal_guide_bars tl) = pass).
Proof.
  intros start_time end_time interval pass.
  split; [|split; [|split; [|split]]].
  - intros _ _ Hx Hcount. subst pass.
    destruct (frame_pass_first_row tl interval start_time end_time)
      as [E|E].
    + rewrite E in Hcount. cbn [lower_bound skip_to_frame
                                 boundaries_in_window] in Hcount.
      assert (0 <= Z.quot (_xsize tl) 100) by (apply Z.quot_pos; lia). lia.
    + rewrite E. apply frame_guide_bars_abort; [|lia].
      apply Z.quot_pos; lia.
  - subst pass. unfold frame_pass.
    intros [E|[thread0 [others [E1 E2]]]].
    + rewrite E. reflexivity.
    + rewrite E1, E2. reflexivity.
  - intros Hpass Hpos. unfold normal_guide_bars, computed_guide_bars.
    cbv zeta. cbn [_guide_bars set_guide_bars].
    fold start_time. fold end_time. fold interval. fold pass.
    rewrite Hpass. apply Qltb_lt in Hpos. rewrite Hpos. reflexivity.
  - intros Hfirst Hnum. unfold absolute_bars. cbv zeta.
    rewrite (double_to_int_fits _ Hfirst), (round_to_int_fits _ Hnum).
    reflexivity.
  - intros Hpass. unfold normal_guide_bars, computed_guide_bars.
    cbv zeta. cbn [_guide_bars set_guide_bars].
    fold start_time. fold end_time. fold interval. fold pass.
    destruct pass as [|g pass']; [contradiction|]. reflexivity.
Qed.

End Facts.

(** ** Closed instances *)

Section Instances.
Import Examples.
#[local] Existing Instance unit_decls.

Lemma update_bars_malformed_nesting_witness :
  nth_error (_threads (view_at 0)) 0 = Some (mkThreadRow String.EmptyString [] 0 (-1))
  /\ events (get_frame (one_thread_data malformed_frame) 5)
     = [mkEvent 7 0 true; mkEvent 8 1 true; mkEvent 7 2 false;
        mkEvent 8 3 false]
  /\ 7 <> 8
  /\ snd (update_bars (one_thread_client malformed_frame)
            (one_thread_data malformed_frame) (view_at 0) 0 5) = true.
Proof.
  assert (H0 : nth_error (_threads (view_at 0)) 0
               = Some (mkThreadRow String.EmptyString [] 0 (-1)))
    by reflexivity.
  assert (H1 : events (get_frame (one_thread_data malformed_frame) 5)
               = [mkEvent 7 0 true; mkEvent 8 1 true; mkEvent 7 2 false;
                  mkEvent 8 3 false]) by reflexivity.
  assert (H2 : 7 <> 8) by lia.
  split; [exact H0|]. split; [exact H1|]. split; [exact H2|].
  exact (proj2 (proj2 (proj2 (proj2 (proj2 (proj2
           (update_bars_malformed_nesting
              (one_thread_client malformed_frame)
              (one_thread_data malformed_frame) (view_at 0) 0%nat 5 _
              7 8 0 1 2 3 H0 H1 H2))))))).
Defined.

Lemma update_bars_intervals_in_frame_witness :
  (_start_time (view_at 0)
   <= get_start (get_frame (one_thread_data nested_frame) 5))%Q
  /\ times_ascend 0 10 (events nested_frame)
  /\ forall b,
       In b (concat (frame_rows 0 0 5 nested_frame)) ->
       bar_in_frame nested_frame b.
Proof.
  assert (H0 : nth_error (_threads (view_at 0)) 0
               = Some (mkThreadRow String.EmptyString [] 0 (-1)))
    by reflexivity.
  assert (H1 : (_start_time (view_at 0)
                <= get_start (get_frame (one_thread_data nested_frame) 5))%Q)
    by (unfold Qle; simpl; lia).
  assert (H2 : times_ascend 0 10 (events nested_frame))
    by (simpl; unfold Qle; simpl; repeat split; lia).
  split; [exact H1|]. split; [exact H2|].
  exact (proj2 (update_bars_intervals_in_frame
                  (one_thread_client nested_frame)
                  (one_thread_data nested_frame) (view_at 0) 0%nat 5 _
                  H0 H1 H2)).
Defined.

(** C3 as stated fails: with the window scrolled to time 100, the frame
    from 0 to 10, whose events are in order and inside the frame, yields a
    bar that starts at 100 and ends at 10. *)
Lemma interval_containment_fails_when_clamped :
  times_ascend (get_start early_frame) (get_end early_frame)
    (events early_frame)
  /\ exists tr' b,
       nth_error
         (_threads (fst (update_bars (one_thread_client early_frame)
                           (one_thread_data early_frame) (view_at 100) 0 5)))
         0 = Some tr'
       /\ In b (concat (_rows tr'))
       /\ In b (concat (frame_rows (_start_time (view_at 100)) 0 5 early_frame))
       /\ ~ bar_in_frame early_frame b.
Proof.
  split.
  - simpl; unfold Qle; simpl; repeat split; lia.
  - eexists. exists (mkBar 100 10 0 0 5).
    split; [reflexivity|]. split; [left; reflexivity|].
    split; [left; reflexivity|].
    unfold bar_in_frame, Qle. simpl. lia.
Qed.

Lemma ingest_order_irrelevant_once_started_witness :
  _have_start_time (view_at 0) = true
  /\ Permutation [1; 2] [2; 1]
  /\ rows_equiv
       (thread_rows (ingest (view_at 0) (calls_for two_frame_client 0 [1; 2])) 0)
       (thread_rows (ingest (view_at 0) (calls_for two_frame_client 0 [2; 1])) 0).
Proof.
  assert (H0 : _have_start_time (view_at 0) = true) by reflexivity.
  assert (H1 : Permutation [1; 2] [2; 1]) by apply perm_swap.
  split; [exact H0|]. split; [exact H1|].
  exact (ingest_order_irrelevant_once_started two_frame_client (view_at 0)
           0%nat [1; 2] [2; 1] H0 H1).
Defined.

(** C2 as stated fails: on a view that has not seen data, the first frame
    ingested sets the window start, to which the bars of the other frame are
    clamped.  Frames 1 and 2 in ascending order give the bars [0,10] and
    [20,30]; in descending order they give [20,10] and [20,30]. *)
Lemma ingest_order_matters_before_start :
  Permutation [1; 2] [2; 1]
  /\ thread_rows (ingest empty_view (calls_for two_frame_client 0 [1; 2])) 0
     = [[mkBar 0 10 0 0 1; mkBar 20 30 0 0 2]]
  /\ thread_rows (ingest empty_view (calls_for two_frame_client 0 [2; 1])) 0
     = [[mkBar 20 10 0 0 1; mkBar 20 30 0 0 2]]
  /\ ~ rows_equiv
         (thread_rows (ingest empty_view (calls_for two_frame_client 0 [1; 2])) 0)
         (thread_rows (ingest empty_view (calls_for two_frame_client 0 [2; 1])) 0).
Proof.
  assert (Ha : thread_rows
                 (ingest empty_view (calls_for two_frame_client 0 [1; 2])) 0
               = [[mkBar 0 10 0 0 1; mkBar 20 30 0 0 2]])
    by (vm_compute; reflexivity).
  assert (Hb : thread_rows
                 (ingest empty_view (calls_for two_frame_client 0 [2; 1])) 0
               = [[mkBar 20 10 0 0 1; mkBar 20 30 0 0 2]])
    by (vm_compute; reflexivity).
  split; [apply perm_swap|]. split; [exact Ha|]. split; [exact Hb|].
  rewrite Ha, Hb. intro H. inversion H as [|? ? ? ? Hperm _]; subst.
  assert (Hin : In (mkBar 0 10 0 0 1) [mkBar 20 10 0 0 1; mkBar 20 30 0 0 2]).
  { apply (Permutation_in _ Hperm). left. reflexivity. }
  simpl in Hin. destruct Hin as [Hin|[Hin|[]]]; discriminate Hin.
Qed.

(** C5, evaluated.  The view is constructed on frame 2, which starts at
    20, so the lowest start time is 20.  Frame 1, which starts at 0, arrives
    afterwards: [new_data] compares the window start, not the frame start,
    with the lowest start time, which stays at 20. *)
Theorem new_data_keeps_lowest_start_time :
  _lowest_start_time late_view = 20%Q
  /\ get_start early_frame = 0%Q
  /\ _lowest_start_time (new_data (Some two_frame_client) late_view 0 1) = 20%Q
  /\ thread_rows (new_data (Some two_frame_client) late_view 0 1) 0
     = [[mkBar 20 10 0 0 1; mkBar 20 30 0 0 2]].
Proof.
  repeat split; vm_compute; reflexivity.
Qed.

(** C10, evaluated.  With one thread registered, [draw_thread(1, ...)]
    passes the guard, which only rejects indices greater than the size, and
    indexes [_threads] at its size; on an empty view [draw_thread(0, ...)]
    does the same. *)
Theorem draw_thread_indexes_at_size :
  draw_thread (view_at 0) 1 = IndexedOutOfBounds 1 1
  /\ draw_thread empty_view 0 = IndexedOutOfBounds 0 0.
Proof.
  split; vm_compute; reflexivity.
Qed.

Lemma find_bar_iff_contained_witness :
  (forall a b, bar_lt a b = Qltb (_end a) (_end b))
  /\ offsets_consistent (_threads two_bar_view)
  /\ - 2 ^ 31 <= 0 < 2 ^ 31
  /\ find_bar two_bar_view 0 50000 = Some (mkBar 0 10 0 0 1)
  /\ exists bars,
       resolves_to (_threads two_bar_view) 0 bars
       /\ In (mkBar 0 10 0 0 1) bars
       /\ bar_contains (mkBar 0 10 0 0 1) (pixel_to_timestamp two_bar_view 50000).
Proof.
  assert (H0 : forall a b, bar_lt a b = Qltb (_end a) (_end b))
    by (intros a b; reflexivity).
  assert (H1 : offsets_consistent (_threads two_bar_view)).
  { intros i prev tr Hp Ht. destruct i; discriminate Ht. }
  assert (H2 : Forall
                 (fun tr => Forall row_ordered (_rows tr)
                            /\ Z.of_nat (_row_offset tr + length (_rows tr))
                               < 2 ^ 31 - 1)
                 (_threads two_bar_view)).
  { repeat constructor; simpl; unfold Qle; simpl; lia. }
  assert (H3 : - 2 ^ 31 <= 0 < 2 ^ 31) by lia.
  assert (H4 : find_bar two_bar_view 0 50000 = Some (mkBar 0 10 0 0 1))
    by (vm_compute; reflexivity).
  split; [exact H0|]. split; [exact H1|]. split; [exact H3|].
  split; [exact H4|].
  exact (proj2 (find_bar_iff_contained two_bar_view 0 50000 H0 H1 H2 H3)
           (mkBar 0 10 0 0 1) H4).
Defined.

(** C6 as stated fails on rows that [update_bars] can leave.  The window
    starts at 0 when the frame over [40,50] arrives, at 65 when the frame
    over [55,60] arrives, whose bar is therefore [65,60], and at 0 again
    when the frame over [60,70] arrives.  The row is in ascending order of
    end time, so the lookup is within its precondition; at time 60 it stops
    at the bar [65,60], which does not contain 60, and [find_bar] returns
    none although the next bar, [60,70], contains 60. *)
Lemma find_bar_misses_bar_behind_clamped_bar :
  map _rows (_threads Scenarios.clamped_bar_view)
  = [[[mkBar 40 50 0 0 1; mkBar 65 60 0 0 2; mkBar 60 70 0 0 3]]]
  /\ (forall a b, bar_lt a b = Qltb (_end a) (_end b))
  /\ Ingestion.ends_ascend
       [mkBar 40 50 0 0 1; mkBar 65 60 0 0 2; mkBar 60 70 0 0 3]
  /\ offsets_consistent (_threads Scenarios.clamped_bar_view)
  /\ (pixel_to_timestamp Scenarios.clamped_bar_view 600000 == 60)%Q
  /\ (exists bars b,
        resolves_to (_threads Scenarios.clamped_bar_view) 0 bars
        /\ In b bars
        /\ bar_contains b
             (pixel_to_timestamp Scenarios.clamped_bar_view 600000))
  /\ find_bar Scenarios.clamped_bar_view 0 600000 = None.
Proof.
  assert (Hrows : _threads Scenarios.clamped_bar_view
                  = [mkThreadRow String.EmptyString
                       [[mkBar 40 50 0 0 1; mkBar 65 60 0 0 2;
                         mkBar 60 70 0 0 3]] 0 3])
    by (vm_compute; reflexivity).
  split; [rewrite Hrows; reflexivity|].
  split; [intros a b; reflexivity|].
  split; [simpl; repeat split; unfold Qle; simpl; lia|].
  split.
  { rewrite Hrows. intros i prev tr Hp Ht. destruct i; discriminate Ht. }
  split; [vm_compute; reflexivity|].
  split.
  - exists [mkBar 40 50 0 0 1; mkBar 65 60 0 0 2; mkBar 60 70 0 0 3],
           (mkBar 60 70 0 0 3).
    split.
    + rewrite Hrows.
      exists O, (mkThreadRow String.EmptyString
                   [[mkBar 40 50 0 0 1; mkBar 65 60 0 0 2;
                     mkBar 60 70 0 0 3]] 0 3), O.
      repeat split.
    + split; [simpl; auto|].
      unfold bar_contains. split; vm_compute; intro H; discriminate H.
  - vm_compute. reflexivity.
Qed.

Lemma guide_bars_abort_falls_back_witness :
  (forall a b, bar_lt a b = Qltb (_end a) (_end b))
  /\ Ingestion.ends_ascend (GuideBars.first_row dense_view)
  /\ 0 <= _xsize dense_view
  /\ Z.quot (_xsize dense_view) 100
     < boundaries_in_window (get_horizontal_scroll dense_view)
         (get_horizontal_scroll dense_view + get_horizontal_scale dense_view)
         (skip_to_frame
            (lower_bound (GuideBars.first_row dense_view)
               (mkBar 0 (get_horizontal_scroll dense_view) 0 0 0)))
  /\ frame_pass dense_view (guide_interval (pixel_to_height dense_view 150))
       (get_horizontal_scroll dense_view)
       (get_horizontal_scroll dense_view + get_horizontal_scale dense_view)
     = []
  /\ _guide_bars (normal_guide_bars dense_view)
     = absolute_bars (guide_interval (pixel_to_height dense_view 150))
         (get_horizontal_scroll dense_view)
         (get_horizontal_scroll dense_view + get_horizontal_scale dense_view).
Proof.
  assert (Hlt : forall a b, bar_lt a b = Qltb (_end a) (_end b))
    by (intros a b; reflexivity).
  assert (Hasc : Ingestion.ends_ascend (GuideBars.first_row dense_view))
    by (simpl; repeat split; unfold Qle; simpl; lia).
  assert (H0 : 0 <= _xsize dense_view) by (simpl; lia).
  assert (H1 : Z.quot (_xsize dense_view) 100
               < boundaries_in_window (get_horizontal_scroll dense_view)
                   (get_horizontal_scroll dense_view
                    + get_horizontal_scale dense_view)
                   (skip_to_frame
                      (lower_bound (GuideBars.first_row dense_view)
                         (mkBar 0 (get_horizontal_scroll dense_view) 0 0 0))))
    by (vm_compute; reflexivity).
  assert (Hpos : (0 < guide_interval (pixel_to_height dense_view 150))%Q)
    by reflexivity.
  pose proof (proj1 (guide_bars_abort_falls_back dense_view) Hlt Hasc H0 H1)
    as Hpass.
  split; [exact Hlt|]. split; [exact Hasc|]. split; [exact H0|].
  split; [exact H1|]. split; [exact Hpass|].
  exact (proj1 (proj2 (proj2 (guide_bars_abort_falls_back dense_view)))
           Hpass Hpos).
Defined.

(** C8 as stated fails: in a view whose first row holds nine frame bars
    inside the window, more than 800/100, the pass over the frame bars
    aborts, and the guide bars are then not empty but the four gridlines at
    the absolute times 1, 2, 3 and 4, although frame data is available. *)
Lemma guide_bars_not_empty_after_abort :
  _threads dense_view = [mkThreadRow String.EmptyString [nine_frames] 0 9]
  /\ Z.quot (_xsize dense_view) 100
     < boundaries_in_window (get_horizontal_scroll dense_view)
         (get_horizontal_scroll dense_view + get_horizontal_scale dense_view)
         (skip_to_frame
            (lower_bound nine_frames
               (mkBar 0 (get_horizontal_scroll dense_view) 0 0 0)))
  /\ map _height (_guide_bars (normal_guide_bars dense_view))
     = [1 * 1; 2 * 1; 3 * 1; 4 * 1]%Q
  /\ _guide_bars (normal_guide_bars dense_view) <> [].
Proof.
  split; [reflexivity|]. split; [vm_compute; reflexivity|].
  split; [vm_compute; reflexivity|]. vm_compute. discriminate.
Qed.

Lemma time_bounds_after_ingestion_witness :
  recorded_frames_in_range late_frame_client
  /\ calls_end_in_frame late_arrival
  /\ threads_all
       (fun b =>
          (_lowest_start_time (ingest late_view late_arrival) <= _start b)%Q
          /\ (_end b <= _highest_end_time (ingest late_view late_arrival))%Q)
       (_threads (ingest late_view late_arrival)).
Proof.
  assert (H0 : recorded_frames_in_range late_frame_client).
  { intros i td frame Htd _ _. simpl in Htd.
    destruct (Z.of_nat i =? 0); [|discriminate Htd].
    injection Htd as Htd. subst td. simpl.
    split; [unfold Qle; simpl; lia|].
    repeat constructor; unfold Qle; simpl; lia. }
  assert (H1 : calls_end_in_frame late_arrival).
  { repeat constructor; unfold Qle; simpl; lia. }
  split; [exact H0|]. split; [exact H1|].
  exact (time_bounds_after_ingestion unloaded (Some late_frame_client)
           late_arrival H0 H1).
Defined.

(** The scenario of the spec: thread 0, frame 5, collector 3 from 1 to 4
    nested in collector 0 from 0 to 10. *)
Example nested_frame_rows :
  frame_rows 0 0 5 nested_frame
  = [[mkBar 0 10 0 0 5]; [mkBar 1 4 3 0 5]].
Proof. reflexivity. Qed.

End Instances.

End TimelineFacts.

(** ** The guide bar interval *)

Module GuideIntervalFacts.
Import GuideInterval.
Local Open Scope R_scope.

Lemma Rpower_10_IZR (z : Z) : Rpower 10 (IZR z) = powerRZ 10 z.
Proof. symmetry. apply powerRZ_Rpower. lra. Qed.

Lemma Zceil_third (q r : Z) :
  (0 <= r < 3)%Z ->
  Zceil (IZR (3 * q + r) / 3) = (if (r =? 0)%Z then q else q + 1)%Z.
Proof.
  intro Hr. apply Zceil_eq. rewrite plus_IZR, mult_IZR.
  assert (H : (r = 0 \/ r = 1 \/ r = 2)%Z) by lia.
  destruct H as [H|[H|H]]; subst r; simpl; rewrite ?plus_IZR; lra.
Qed.

Lemma powerRZ_10_succ (q : Z) : powerRZ 10 (q + 1) = 10 * powerRZ 10 q.
Proof. rewrite powerRZ_add by lra. simpl. lra. Qed.

(** The interval as a step of the 1/2/5 sequence. *)
Lemma interval_of_level_step (l : Z) :
  (-3000 <= l)%Z ->
  interval_of_level l
  = IZR (match (l mod 3)%Z with 0%Z => 1 | 1%Z => 2 | _ => 5 end)
    * powerRZ 10 (l / 3).
Proof.
  intro Hl. unfold interval_of_level. cbv zeta.
  pose proof (Z.div_mod l 3 ltac:(lia)) as Hdm.
  pose proof (Z.mod_pos_bound l 3 ltac:(lia)) as Hm.
  assert (Hrem : Z.rem (l + 3000) 3 = (l mod 3)%Z).
  { rewrite Z.rem_mod_nonneg by lia.
    replace (l + 3000)%Z with (l + 1000 * 3)%Z by lia.
    apply Z.mod_add. lia. }
  rewrite Hrem.
  replace (IZR l) with (IZR (3 * (l / 3) + l mod 3)) by (f_equal; lia).
  rewrite Zceil_third by exact Hm.
  rewrite Rpower_10_IZR.
  assert (H : (l mod 3 = 0 \/ l mod 3 = 1 \/ l mod 3 = 2)%Z) by lia.
  destruct H as [H|[H|H]]; rewrite H; simpl Z.eqb; cbv iota;
    rewrite ?powerRZ_10_succ; lra.
Qed.

Lemma interval_of_level_on_sequence (l : Z) :
  on_125_sequence (interval_of_level l).
Proof.
  destruct (Z.le_gt_cases (-3000) l) as [Hl|Hl].
  - rewrite (interval_of_level_step l Hl). exists (l / 3)%Z.
    pose proof (Z.mod_pos_bound l 3 ltac:(lia)) as Hm.
    assert (H : (l mod 3 = 0 \/ l mod 3 = 1 \/ l mod 3 = 2)%Z) by lia.
    destruct H as [H|[H|H]]; rewrite H; [left | right; left | right; right];
      lra.
  - unfold interval_of_level. cbv zeta.
    pose proof (Z.rem_bound_pos_neg (l + 3000) 3) as Hr.
    assert (Hr' : (Z.rem (l + 3000) 3 <= 0)%Z) by (apply Hr; lia).
    destruct (Z.eqb_spec (Z.rem (l + 3000) 3) 1); [lia|].
    destruct (Z.eqb_spec (Z.rem (l + 3000) 3) 2); [lia|].
    exists (Zceil (IZR l / 3)). left. apply Rpower_10_IZR.
Qed.

Lemma ln_10_pos : 0 < ln 10.
Proof. rewrite <- ln_1. apply ln_increasing; lra. Qed.

(** [level] rounds [3 * log10 target] to the nearest integer. *)
Lemma level_eq (target : R) (l : Z) :
  (2 * IZR l - 1) * ln 10 <= 6 * ln target < (2 * IZR l + 1) * ln 10 ->
  level target = l.
Proof.
  intros [H1 H2]. unfold level, log10. apply Zfloor_eq.
  pose proof ln_10_pos as HL.
  set (y := ln target) in *. set (L := ln 10) in *.
  assert (Hk : y = (y / L) * L) by (field; lra).
  set (k := y / L) in *. rewrite Hk in H1, H2.
  split; nra.
Qed.

Lemma level_of_12_10000 : level (12 / 10000) = (-9)%Z.
Proof.
  apply level_eq.
  assert (Hx : 0 < 12 / 10000) by lra.
  assert (H6 : 6 * ln (12 / 10000) = ln ((12 / 10000) ^ 6)).
  { rewrite ln_pow by exact Hx. simpl INR. lra. }
  assert (Hp : forall n : nat, ln (/ 10 ^ n) = - INR n * ln 10).
  { intro n. rewrite ln_Rinv by (apply pow_lt; lra).
    rewrite ln_pow by lra. lra. }
  rewrite H6. split.
  - replace ((2 * IZR (-9) - 1) * ln 10) with (ln (/ 10 ^ 19))
      by (rewrite Hp; simpl INR; lra).
    apply Rlt_le, ln_increasing.
    + apply Rinv_0_lt_compat, pow_lt. lra.
    + simpl. lra.
  - replace ((2 * IZR (-9) + 1) * ln 10) with (ln (/ 10 ^ 17))
      by (rewrite Hp; simpl INR; lra).
    apply ln_increasing.
    + apply pow_lt. lra.
    + simpl. lra.
Qed.

Lemma level_of_1 : level 1 = 0%Z.
Proof.
  apply level_eq. rewrite ln_1. pose proof ln_10_pos. simpl. lra.
Qed.

Lemma level_round (target : R) :
  3 * log10 target - 1 / 2 < IZR (level target) <= 3 * log10 target + 1 / 2.
Proof.
  unfold level. pose proof (Zfloor_bound (3 * log10 target + 1 / 2)). lra.
Qed.

Lemma exp_le (a b : R) : a <= b -> exp a <= exp b.
Proof.
  intros [H|H]; [left; apply exp_increasing; exact H | right; now f_equal].
Qed.

(** [level target] is the integer [l] with
    [10^((l - 1/2) / 3) <= target < 10^((l + 1/2) / 3)]. *)
Lemma level_bracket (target : R) :
  0 < target ->
  Rpower 10 ((IZR (level target) - 1 / 2) / 3) <= target
  < Rpower 10 ((IZR (level target) + 1 / 2) / 3).
Proof.
  intro Hpos. pose proof (level_round target) as [H1 H2].
  pose proof ln_10_pos as HL. unfold log10 in H1, H2.
  set (l := IZR (level target)) in *.
  set (y := ln target) in *. set (L := ln 10) in *.
  assert (Hk : y = (y / L) * L) by (field; lra).
  set (k := y / L) in *.
  assert (Ht : exp y = target) by (apply exp_ln; exact Hpos).
  unfold Rpower. fold L. rewrite <- Ht. split.
  - apply exp_le. rewrite Hk. nra.
  - apply exp_increasing. rewrite Hk. nra.
Qed.

(** C9.  For every positive target, [l = round(3 log10 target)] is the
    integer within one half of [3 log10 target], that is, the target lies
    between [10^((l - 1/2) / 3)] and [10^((l + 1/2) / 3)]; the interval is 1,
    2 or 5 times an integer power of ten; when [l] is at least -3000 it is
    the step of the 1/2/5 sequence selected by [l mod 3] in the decade
    [l / 3]; and for the target 0.0012 it is 0.001. *)
Theorem guide_interval_on_125_sequence :
  (forall target, 0 < target ->
     (3 * log10 target - 1 / 2 < IZR (level target)
      <= 3 * log10 target + 1 / 2)
     /\ (Rpower 10 ((IZR (level target) - 1 / 2) / 3) <= target
         < Rpower 10 ((IZR (level target) + 1 / 2) / 3))
     /\ on_125_sequence (guide_interval target)
     /\ ((-3000 <= level target)%Z ->
         guide_interval target
         = IZR (match (level target mod 3)%Z with
                | 0%Z => 1 | 1%Z => 2 | _ => 5
                end)
           * powerRZ 10 (level target / 3)))
  /\ guide_interval (12 / 10000) = 1 / 1000.
Proof.
  split.
  - intros target Hpos.
    split; [apply level_round|]. split; [apply level_bracket, Hpos|]. split.
    + apply interval_of_level_on_sequence.
    + apply interval_of_level_step.
  - unfold guide_interval. rewrite level_of_12_10000.
    rewrite interval_of_level_step by lia.
    change ((-9) mod 3)%Z with 0%Z. change (-9 / 3)%Z with (-3)%Z.
    simpl. lra.
Qed.

Lemma guide_interval_on_125_sequence_witness :
  0 < 12 / 10000
  /\ (Rpower 10 ((IZR (level (12 / 10000)) - 1 / 2) / 3) <= 12 / 10000
      < Rpower 10 ((IZR (level (12 / 10000)) + 1 / 2) / 3))
  /\ on_125_sequence (guide_interval (12 / 10000)).
Proof.
  assert (H : 0 < 12 / 10000) by lra.
  split; [exact H|].
  exact (conj
           (proj1 (proj2 (proj1 guide_interval_on_125_sequence
                            (12 / 10000) H)))
           (proj1 (proj2 (proj2 (proj1 guide_interval_on_125_sequence
                                   (12 / 10000) H))))).
Defined.

(** With 150 pixels per time unit the interval is one time unit. *)
Lemma guide_interval_of_1 : guide_interval 1 = 1.
Proof.
  unfold guide_interval. rewrite level_of_1.
  rewrite interval_of_level_step by lia. simpl. lra.
Qed.

End GuideIntervalFacts.

(** ** The animation tick *)

Module AnimateFacts.
Import Animate.
Local Open Scope R_scope.

Section Facts.
Context {D : Declarations}.

Lemma ease_start_time_targets (v : View) (dt : R) :
  _target_start_time (ease_start_time v dt) = _target_start_time v
  /\ _target_time_scale (ease_start_time v dt) = _target_time_scale v
  /\ _time_scale (ease_start_time v dt) = _time_scale v.
Proof.
  unfold ease_start_time.
  destruct (Req_dec_T _ _); [auto|]. cbv zeta.
  destruct (Rlt_dec _ _); auto.
Qed.

(** C7 (amended).  On every tick, after the speeds have been applied:
    the start time snaps to its target when it is less than two pixels away
    and otherwise moves the fraction [1 - exp(-12 dt)] of the way, whatever
    the time scale does; the time scale snaps to its target when it is less
    than 0.01 away and the start time has reached its target in this tick,
    and otherwise moves the fraction [1 - exp(-12 dt)] of the way. *)
Theorem animate_eases_and_snaps (v : View) (dt : R) :
  let v1 := move_view v dt in
  let v2 := fst (animate v dt) in
  let dstart := _target_start_time v1 - _start_time v1 in
  let dscale := _target_time_scale v1 - _time_scale v1 in
  (Rabs dstart < _time_scale v1 * 2 -> _start_time v2 = _target_start_time v1)
  /\ (~ Rabs dstart < _time_scale v1 * 2 ->
      _start_time v2 = _start_time v1 + dstart * (1 - exp (-12 * dt)))
  /\ (Rabs dscale < 1 / 100 -> _start_time v2 = _target_start_time v1 ->
      _time_scale v2 = _target_time_scale v1)
  /\ (~ (Rabs dscale < 1 / 100 /\ _start_time v2 = _target_start_time v1) ->
      _time_scale v2 = _time_scale v1 + dscale * (1 - exp (-12 * dt))).
Proof.
  intros v1 v2 dstart dscale.
  assert (Hstart :
    (Rabs dstart < _time_scale v1 * 2 ->
     _start_time (ease_start_time v1 dt) = _target_start_time v1)
    /\ (~ Rabs dstart < _time_scale v1 * 2 ->
        _start_time (ease_start_time v1 dt)
        = _start_time v1 + dstart * (1 - exp (-12 * dt)))).
  { unfold ease_start_time. subst dstart.
    destruct (Req_dec_T (_target_start_time v1) (_start_time v1)) as [E|E].
    - split; intros _; [congruence | rewrite E; lra].
    - cbv zeta. destruct (Rlt_dec _ _) as [L|L]; simpl; split; intro H;
        try reflexivity; contradiction. }
  destruct (ease_start_time_targets v1 dt) as [Ht [Hts Hs]].
  assert (Hv2 : v2 = ease_time_scale (ease_start_time v1 dt) dt) by reflexivity.
  set (w := ease_start_time v1 dt) in *.
  assert (Hkeep : _start_time v2 = _start_time w).
  { rewrite Hv2. unfold ease_time_scale.
    destruct (Req_dec_T (_target_time_scale w) _); [reflexivity|]. cbv zeta.
    destruct (Req_dec_T (_target_start_time w) _); [|reflexivity].
    destruct (Rlt_dec _ _); reflexivity. }
  rewrite Hkeep. destruct Hstart as [Hsnap Hease].
  split; [exact Hsnap|]. split; [exact Hease|].
  subst dscale. rewrite <- Ht, <- Hts, <- Hs, Hv2. unfold ease_time_scale.
  destruct (Req_dec_T (_target_time_scale w) (_time_scale w)) as [E|E].
  - split; [intros _ _; congruence | intros _; rewrite E; lra].
  - cbv zeta.
    destruct (Req_dec_T (_target_start_time w) (_start_time w)) as [S|S].
    + destruct (Rlt_dec _ _) as [L|L]; simpl; split; intros; try reflexivity.
      * exfalso. auto.
      * contradiction.
    + simpl. split; intros; [exfalso; auto | reflexivity].
Qed.

End Facts.

Lemma animate_eases_and_snaps_witness :
  Rabs (_target_time_scale near_view - _time_scale near_view) < 1 / 100
  /\ forall (D : Declarations) (dt : R),
       _time_scale (fst (animate near_view dt)) = _target_time_scale near_view.
Proof.
  assert (H0 : Rabs (_target_time_scale near_view - _time_scale near_view)
               < 1 / 100) by (simpl; rewrite Rabs_right; lra).
  split; [exact H0|].
  intros D dt.
  assert (Hmove : move_view near_view dt = near_view).
  { unfold move_view, held, next_speed, with_speeds.
    repeat (simpl;
            match goal with
            | |- context [Req_dec_T 0 0] =>
                destruct (Req_dec_T 0 0) as [_|N]; [|contradiction]
            end).
    reflexivity. }
  pose proof (animate_eases_and_snaps near_view dt) as H. cbv zeta in H.
  rewrite Hmove in H. destruct H as [Hsnap [_ [Hscale _]]].
  apply Hscale; [exact H0|].
  apply Hsnap. simpl. rewrite Rabs_right; lra.
Defined.

(** C7 as stated fails: in [far_view] the time scale is 0.0001 from its
    target, less than 0.01, but the start time is a whole time unit from its
    target; whatever the declarations and the length of the tick, the tick
    leaves the time scale short of its target. *)
Lemma time_scale_does_not_snap_alone :
  Rabs (_target_time_scale far_view - _time_scale far_view) < 1 / 100
  /\ forall (D : Declarations) (dt : R),
       _time_scale (fst (animate far_view dt)) <> _target_time_scale far_view.
Proof.
  split.
  - simpl. rewrite Rabs_right; lra.
  - intros D dt.
    assert (Hmove : move_view far_view dt = far_view).
    { unfold move_view, held, next_speed, with_speeds.
      repeat (simpl;
              match goal with
              | |- context [Req_dec_T 0 0] =>
                  destruct (Req_dec_T 0 0) as [_|N]; [|contradiction]
              end).
      reflexivity. }
    unfold animate. cbv zeta. cbn [fst]. rewrite Hmove.
    pose proof (exp_pos (-12 * dt)) as He.
    unfold ease_start_time. simpl.
    destruct (Req_dec_T 1 0) as [F|_]; [lra|].
    destruct (Rlt_dec _ _) as [L|_].
    { rewrite Rabs_right in L; lra. }
    unfold ease_time_scale. simpl.
    destruct (Req_dec_T (2 / 10000) (1 / 10000)) as [F|_]; [lra|].
    destruct (Req_dec_T _ _) as [S|_]; simpl; [|nra].
    exfalso. nra.
Qed.

End AnimateFacts.

(** ** Ingestion: bars, rows and threads *)

Module IngestionFacts.
Import Timeline TimelineFacts Ingestion.

Lemma bar_count_push (rows : list Row) (i : nat) (b : ColorBar) :
  (i < length rows)%nat -> bar_count (push_bar rows i b) = S (bar_count rows).
Proof.
  unfold bar_count. revert i.
  induction rows as [|r rows IH]; intros [|i] H; simpl in *; try lia.
  - rewrite !length_app. simpl. lia.
  - rewrite !length_app in *. rewrite (IH i) by lia. lia.
Qed.

Lemma bar_count_resize (rows : list Row) (n : nat) :
  bar_count (resize_rows rows n) = bar_count rows.
Proof.
  unfold bar_count, resize_rows. rewrite concat_app, length_app.
  assert (H : forall k, concat (repeat (@nil ColorBar) k) = []).
  { induction k; simpl; auto. }
  rewrite H. simpl. lia.
Qed.

Lemma open_count_pop_invalid (stack : list (Z * Q)) :
  open_count (pop_invalid stack) = open_count stack.
Proof.
  unfold open_count. induction stack as [|[c t] below IH]; simpl; [reflexivity|].
  destruct (Z.ltb_spec c 0) as [H|H].
  - destruct (Z.leb_spec 0 c); [lia | exact IH].
  - reflexivity.
Qed.

Lemma open_count_invalidate (stack : list (Z * Q)) (collector_index : Z)
    (i : nat) (t : Q) (stack' : list (Z * Q)) :
  0 <= collector_index ->
  invalidate_open stack collector_index = Some (i, t, stack') ->
  open_count stack = S (open_count stack').
Proof.
  intro Hc. unfold open_count. revert i t stack'.
  induction stack as [|[c t0] below IH]; simpl; intros i t stack' H.
  - discriminate.
  - destruct (Z.eqb_spec c collector_index) as [E|E].
    + inversion H; subst. simpl.
      destruct (Z.leb_spec 0 collector_index); [reflexivity | lia].
    + destruct (invalidate_open below collector_index)
        as [[[i1 t1] below1]|] eqn:E1; [|discriminate].
      inversion H; subst. simpl. specialize (IH _ _ _ eq_refl).
      destruct (0 <=? c); simpl; lia.
Qed.

(** One event keeps the balance: bars written plus collectors still open
    grow by one at a start event and stay at an end event. *)
Lemma process_event_balance (start_time : Q) (thread_index frame_number : Z)
    (st : BarState) (e : Event) :
  0 <= ev_collector e ->
  (length (bs_stack st) <= length (bs_rows st))%nat ->
  let st' := process_event start_time thread_index frame_number st e in
  (bar_count (bs_rows st') + open_count (bs_stack st'))%nat
  = (bar_count (bs_rows st) + open_count (bs_stack st)
     + if ev_is_start e then 1 else 0)%nat.
Proof.
  intros Hc Hw. unfold process_event. destruct (ev_is_start e).
  - assert (Ho : open_count ((ev_collector e, fmax (ev_time e) start_time)
                               :: bs_stack st)
                 = S (open_count (bs_stack st))).
    { unfold open_count. simpl.
      destruct (Z.leb_spec 0 (ev_collector e)); [reflexivity | lia]. }
    destruct (_ <? _)%nat; cbn [bs_rows bs_stack]; rewrite Ho;
      rewrite ?bar_count_resize; lia.
  - destruct (bs_stack st) as [|[c t0] below] eqn:Es.
    + rewrite Es. lia.
    + simpl in Hw. destruct (Z.eqb_spec c (ev_collector e)) as [E|E].
      * cbn [bs_rows bs_stack]. rewrite bar_count_push by lia.
        rewrite open_count_pop_invalid. unfold open_count. simpl.
        destruct (Z.leb_spec 0 c); [simpl; lia | lia].
      * destruct (invalidate_open ((c, t0) :: below) (ev_collector e))
          as [[[i t1] stack']|] eqn:E1.
        -- cbn [bs_rows bs_stack].
           pose proof (invalidate_open_length _ _ _ _ _ E1) as [_ Hi].
           simpl in Hi. rewrite bar_count_push by lia.
           rewrite (open_count_invalidate _ _ _ _ _ Hc E1). lia.
        -- rewrite Es. lia.
Qed.

Lemma process_events_balance (start_time : Q) (thread_index frame_number : Z)
    (evs : list Event) (st : BarState) :
  Forall (fun e => 0 <= ev_collector e) evs ->
  (length (bs_stack st) <= length (bs_rows st))%nat ->
  let st' := process_events start_time thread_index frame_number evs st in
  (bar_count (bs_rows st') + open_count (bs_stack st'))%nat
  = (bar_count (bs_rows st) + open_count (bs_stack st) + start_count evs)%nat.
Proof.
  revert st. induction evs as [|e evs IH]; intros st Hall Hw; simpl.
  - unfold start_count. simpl. lia.
  - inversion Hall as [|? ? He Hrest]; subst.
    destruct (process_event_within start_time thread_index frame_number st e Hw)
      as [Hw' _].
    rewrite (IH _ Hrest Hw').
    rewrite (process_event_balance start_time thread_index frame_number st e
               He Hw).
    unfold start_count. simpl. destruct (ev_is_start e); simpl; lia.
Qed.

Lemma add_unclosed_count (frame_end : Q) (thread_index frame_number : Z)
    (stack : list (Z * Q)) (rows : list Row) :
  (length stack <= length rows)%nat ->
  bar_count (add_unclosed frame_end thread_index frame_number stack rows)
  = (bar_count rows + open_count stack)%nat.
Proof.
  revert rows. induction stack as [|[c t0] below IH]; intros rows H; simpl.
  - unfold open_count. simpl. lia.
  - simpl in H. unfold open_count in *. simpl.
    destruct (0 <=? c); simpl.
    + rewrite IH by (rewrite length_push_bar; lia).
      rewrite bar_count_push by lia. lia.
    + rewrite IH by lia. lia.
Qed.

Lemma add_frame_bars_count (start_time : Q) (thread_index frame_number : Z)
    (fd : FrameData) (rows : list Row) :
  Forall (fun e => 0 <= ev_collector e) (events fd) ->
  bar_count (fst (add_frame_bars start_time thread_index frame_number fd rows))
  = (bar_count rows + start_count (events fd))%nat.
Proof.
  intro Hall. unfold add_frame_bars. cbn [fst].
  pose proof (process_events_within start_time thread_index frame_number
                (events fd) (mkBarState [] rows false)) as Hw.
  pose proof (process_events_balance start_time thread_index frame_number
                (events fd) (mkBarState [] rows false) Hall) as Hb.
  cbn [bs_stack bs_rows length] in Hw, Hb.
  destruct Hw as [Hw _]; [lia|]. specialize (Hb ltac:(lia)).
  rewrite add_unclosed_count by exact Hw.
  unfold open_count in Hb at 2. simpl in Hb. lia.
Qed.

Lemma bar_count_map_sort `{Declarations} (rows : list Row) :
  bar_count (map sort_row rows) = bar_count rows.
Proof.
  unfold bar_count. induction rows as [|r rows IH]; simpl; [reflexivity|].
  rewrite !length_app, IH.
  rewrite (Permutation_length (sort_row_perm r)). reflexivity.
Qed.

(** *** Subscripts of the rows *)

Lemma event_accesses_within (start_time : Q) (thread_index frame_number : Z)
    (evs : list Event) :
  forall st,
    (length (bs_stack st) <= length (bs_rows st))%nat ->
    Forall (fun a => (fst a < snd a)%nat)
      (event_accesses start_time thread_index frame_number evs st).
Proof.
  induction evs as [|e evs IH]; intros st Hst; [constructor|].
  cbn [event_accesses]. apply Forall_app. split.
  - unfold written_row. destruct (ev_is_start e); [constructor|].
    destruct (bs_stack st) as [|[c t0] below] eqn:Es; [constructor|].
    destruct (c =? ev_collector e).
    + constructor; [|constructor]. cbn [fst snd length] in *. lia.
    + destruct (invalidate_open _ _) as [[[i t1] s1]|] eqn:Ei;
        [|constructor].
      apply invalidate_open_length in Ei. destruct Ei as [_ Ei].
      constructor; [|constructor]. cbn [fst snd] in *. lia.
  - apply IH.
    exact (proj1 (process_event_within start_time thread_index frame_number
                    st e Hst)).
Qed.

Lemma unclosed_accesses_within (stack : list (Z * Q)) (size : nat) :
  (length stack <= size)%nat ->
  Forall (fun a => (fst a < snd a)%nat) (unclosed_accesses stack size).
Proof.
  induction stack as [|[c t0] below IH]; intro H; [constructor|].
  cbn [unclosed_accesses]. cbn [length] in H. apply Forall_app. split.
  - destruct (0 <=? c); [|constructor].
    constructor; [|constructor]. cbn [fst snd]. lia.
  - apply IH. lia.
Qed.

(** Whatever the events of the frame and the rows of the thread,
    [update_bars] evaluates [_rows[i]] only for [i] below the size that
    [_rows] has at that moment. *)
Theorem update_bars_indexes_within_rows
    (start_time : Q) (thread_index frame_number : Z)
    (fd : FrameData) (rows : list Row) :
  Forall (fun a => (fst a < snd a)%nat)
    (frame_accesses start_time thread_index frame_number fd rows).
Proof.
  unfold frame_accesses. cbv zeta. apply Forall_app. split.
  - apply event_accesses_within. cbn [bs_stack bs_rows length]. lia.
  - apply unclosed_accesses_within.
    apply (process_events_within start_time thread_index frame_number
             (events fd) (mkBarState [] rows false)).
    cbn [bs_stack bs_rows length]. lia.
Qed.

Section Facts.
Context {D : Declarations}.

(** Bar conservation.  When no event of the frame has a negative
    collector index, [update_bars] adds exactly as many bars to the rows of
    the thread as the frame has start events: every started collector gets
    one bar, whether it is closed by its end event, by a mismatched end or
    at the end of the frame, and end events without an open collector add
    none. *)
Theorem update_bars_one_bar_per_start
    (cd : ClientData) (td : ThreadData) (tl : TimelineState)
    (thread_index : nat) (frame_number : Z) (tr : ThreadRow) :
  nth_error (_threads tl) thread_index = Some tr ->
  Forall (fun e => 0 <= ev_collector e) (events (get_frame td frame_number)) ->
  exists tr',
    nth_error (_threads (fst (update_bars cd td tl thread_index frame_number)))
      thread_index = Some tr'
    /\ bar_count (_rows tr')
       = (bar_count (_rows tr)
          + start_count (events (get_frame td frame_number)))%nat.
Proof.
  intros Htr Hall.
  rewrite (update_bars_unfold _ _ _ _ _ _ Htr). cbn [fst _threads set_threads].
  assert (Hlt : (thread_index < length (_threads tl))%nat)
    by (apply nth_error_Some; congruence).
  rewrite nth_error_set_thread_same by exact Hlt.
  eexists. split; [reflexivity|].
  unfold update_thread_row.
  pose proof (add_frame_bars_count (_start_time tl) (Z.of_nat thread_index)
                frame_number (get_frame td frame_number) (_rows tr) Hall) as Hc.
  destruct (add_frame_bars _ _ _ _ _) as [rows changed]. cbn [fst] in Hc.
  destruct (_ && _); cbn [fst _rows]; rewrite ?bar_count_map_sort; exact Hc.
Qed.

(** *** Properly nested events *)

Lemma process_events_app (start_time : Q) (thread_index frame_number : Z)
    (evs evs' : list Event) (st : BarState) :
  process_events start_time thread_index frame_number (evs ++ evs') st
  = process_events start_time thread_index frame_number evs'
      (process_events start_time thread_index frame_number evs st).
Proof. unfold process_events. apply fold_left_app. Qed.

Lemma process_events_cons (start_time : Q) (thread_index frame_number : Z)
    (e : Event) (evs : list Event) (st : BarState) :
  process_events start_time thread_index frame_number (e :: evs) st
  = process_events start_time thread_index frame_number evs
      (process_event start_time thread_index frame_number st e).
Proof. reflexivity. Qed.

Lemma process_start (start_time : Q) (thread_index frame_number : Z)
    (c : Z) (t : Q) (stack : list (Z * Q)) (rows : list Row) (flag : bool) :
  exists flag',
    process_event start_time thread_index frame_number
      (mkBarState stack rows flag) (mkEvent c t true)
    = mkBarState ((c, fmax t start_time) :: stack)
        (resize_rows rows (S (length stack))) flag'.
Proof.
  unfold process_event. cbn [ev_is_start ev_collector ev_time bs_stack bs_rows].
  destruct (Nat.ltb_spec (length rows)
              (length ((c, fmax t start_time) :: stack))) as [H|H].
  - eexists. reflexivity.
  - eexists. rewrite resize_rows_id by exact H. reflexivity.
Qed.

Lemma process_matching_end (start_time : Q) (thread_index frame_number : Z)
    (c : Z) (t0 t : Q) (below : list (Z * Q)) (rows : list Row) (flag : bool) :
  process_event start_time thread_index frame_number
    (mkBarState ((c, t0) :: below) rows flag) (mkEvent c t false)
  = mkBarState (pop_invalid below)
      (push_bar rows (length below) (mkBar t0 t c thread_index frame_number))
      flag.
Proof.
  unfold process_event.
  cbn [ev_is_start ev_collector ev_time bs_stack bs_rows changed_num_rows].
  rewrite Z.eqb_refl. reflexivity.
Qed.

Lemma firstn_push_bar (rows : list Row) (i n : nat) (b : ColorBar) :
  (n <= i)%nat -> firstn n (push_bar rows i b) = firstn n rows.
Proof.
  revert i n. induction rows as [|r rows IH]; intros [|i] [|n] H; simpl;
    try reflexivity; try lia.
  rewrite IH by lia. reflexivity.
Qed.

Lemma firstn_resize_rows (rows : list Row) (n k : nat) :
  (n <= length rows)%nat -> firstn n (resize_rows rows k) = firstn n rows.
Proof.
  intro H. unfold resize_rows. rewrite firstn_app.
  replace (n - length rows)%nat with O by lia. simpl. apply app_nil_r.
Qed.

Lemma firstn_weaken {A : Type} (l l' : list A) (n m : nat) :
  (n <= m)%nat -> firstn m l = firstn m l' -> firstn n l = firstn n l'.
Proof.
  intros H E.
  assert (K : forall x : list A, firstn n x = firstn n (firstn m x)).
  { intro x. rewrite firstn_firstn, Nat.min_l by exact H. reflexivity. }
  rewrite (K l), (K l'), E. reflexivity.
Qed.

(** A properly nested block, processed on a stack whose top is open,
    leaves the stack as it found it and writes only on rows at or above the
    depth at which it starts. *)
Lemma well_nested_block (start_time : Q) (thread_index frame_number : Z)
    (evs : list Event) :
  well_nested evs ->
  Forall (fun e => 0 <= ev_collector e) evs ->
  forall (stack : list (Z * Q)) (rows : list Row) (flag : bool),
    pop_invalid stack = stack ->
    (length stack <= length rows)%nat ->
    let st' := process_events start_time thread_index frame_number evs
                 (mkBarState stack rows flag) in
    bs_stack st' = stack
    /\ firstn (length stack) (bs_rows st') = firstn (length stack) rows
    /\ (length rows <= length (bs_rows st'))%nat.
Proof.
  induction 1 as [|c t t' inner rest Hinner IHinner Hrest IHrest];
    intros Hall stack rows flag Hpop Hlen.
  - simpl. auto.
  - inversion Hall as [|? ? Hc Hall']; subst. cbn [ev_collector] in Hc.
    apply Forall_app in Hall'. destruct Hall' as [Hin Hall''].
    inversion Hall'' as [|? ? _ Hre]; subst.
    rewrite process_events_cons.
    destruct (process_start start_time thread_index frame_number c t
                stack rows flag) as [flag1 E1]. rewrite E1.
    rewrite process_events_app.
    assert (Hpop1 : pop_invalid ((c, fmax t start_time) :: stack)
                    = (c, fmax t start_time) :: stack).
    { simpl. destruct (Z.ltb_spec c 0); [lia | reflexivity]. }
    assert (Hlen1 : (length ((c, fmax t start_time) :: stack)
                     <= length (resize_rows rows (S (length stack))))%nat).
    { rewrite length_resize_rows. cbn [length]. lia. }
    destruct (IHinner Hin _ _ flag1 Hpop1 Hlen1) as [Hs2 [Hf2 Hl2]].
    destruct (process_events start_time thread_index frame_number inner _)
      as [stack2 rows2 flag2]. cbn [bs_stack bs_rows] in Hs2, Hf2, Hl2.
    subst stack2. rewrite process_events_cons, process_matching_end, Hpop.
    assert (Hlen3 : (length stack
                     <= length (push_bar rows2 (length stack)
                                  (mkBar (fmax t start_time) t' c
                                     thread_index frame_number)))%nat).
    { rewrite length_push_bar. rewrite length_resize_rows in Hl2. lia. }
    destruct (IHrest Hre _ _ flag2 Hpop Hlen3) as [Hs4 [Hf4 Hl4]].
    split; [exact Hs4|]. split.
    + rewrite Hf4, firstn_push_bar by lia.
      cbn [length] in Hf2.
      rewrite (firstn_weaken _ _ (length stack) (S (length stack))
                 ltac:(lia) Hf2).
      apply firstn_resize_rows. exact Hlen.
    + rewrite length_push_bar in Hl4. rewrite length_resize_rows in Hl2. lia.
Qed.

(** Depth of nested bars.  For a collector started at stack depth [d]
    (on a stack whose top is open) and ended after a properly nested block,
    all collector indices being non-negative, the stack is afterwards as
    before, the bar of the collector is the last bar written and goes to row
    [d], and the block inside it has only written to rows deeper than
    [d]. *)
Theorem nested_bars_go_deeper
    (start_time : Q) (thread_index frame_number : Z)
    (c : Z) (t t' : Q) (inner : list Event)
    (stack : list (Z * Q)) (rows : list Row) (flag : bool) :
  well_nested inner ->
  0 <= c ->
  Forall (fun e => 0 <= ev_collector e) inner ->
  pop_invalid stack = stack ->
  (length stack <= length rows)%nat ->
  let st' :=
    process_events start_time thread_index frame_number
      (mkEvent c t true :: inner ++ [mkEvent c t' false])
      (mkBarState stack rows flag) in
  bs_stack st' = stack
  /\ exists deeper,
       bs_rows st'
       = push_bar deeper (length stack)
           (mkBar (fmax t start_time) t' c thread_index frame_number)
       /\ firstn (S (length stack)) deeper
          = firstn (S (length stack)) (resize_rows rows (S (length stack))).
Proof.
  intros Hinner Hc Hall Hpop Hlen.
  rewrite process_events_cons.
  destruct (process_start start_time thread_index frame_number c t
              stack rows flag) as [flag1 E1]. rewrite E1.
  rewrite process_events_app.
  assert (Hpop1 : pop_invalid ((c, fmax t start_time) :: stack)
                  = (c, fmax t start_time) :: stack).
  { simpl. destruct (Z.ltb_spec c 0); [lia | reflexivity]. }
  assert (Hlen1 : (length ((c, fmax t start_time) :: stack)
                   <= length (resize_rows rows (S (length stack))))%nat).
  { rewrite length_resize_rows. cbn [length]. lia. }
  destruct (well_nested_block start_time thread_index frame_number inner
              Hinner Hall _ _ flag1 Hpop1 Hlen1) as [Hs2 [Hf2 _]].
  destruct (process_events start_time thread_index frame_number inner _)
    as [stack2 rows2 flag2]. cbn [bs_stack bs_rows] in Hs2, Hf2.
  subst stack2. cbn [process_events fold_left].
  rewrite process_matching_end, Hpop. cbn [bs_stack bs_rows].
  split; [reflexivity|]. exists rows2. split; [reflexivity | exact Hf2].
Qed.

(** *** Reported changes of the row count *)

Lemma process_event_changed (start_time : Q) (thread_index frame_number : Z)
    (st : BarState) (e : Event) :
  let st' := process_event start_time thread_index frame_number st e in
  (length (bs_rows st) <= length (bs_rows st'))%nat
  /\ (changed_num_rows st' = true ->
      changed_num_rows st = true
      \/ (length (bs_rows st) < length (bs_rows st'))%nat).
Proof.
  unfold process_event. destruct (ev_is_start e).
  - destruct (Nat.ltb_spec (length (bs_rows st))
                (length ((ev_collector e, fmax (ev_time e) start_time)
                           :: bs_stack st))) as [H|H];
      cbn [bs_rows changed_num_rows].
    + rewrite length_resize_rows. cbn [length] in *.
      split; [lia | intros _; right; lia].
    + split; [lia | auto].
  - destruct (bs_stack st) as [|[c t0] below]; [split; [lia | auto]|].
    destruct (c =? ev_collector e); cbn [bs_rows changed_num_rows].
    + rewrite length_push_bar. split; [lia | auto].
    + destruct (invalidate_open _ _) as [[[i t1] stack']|];
        cbn [bs_rows changed_num_rows];
        rewrite ?length_push_bar; split; auto; lia.
Qed.

Lemma process_events_changed (start_time : Q) (thread_index frame_number : Z)
    (evs : list Event) (st : BarState) :
  let st' := process_events start_time thread_index frame_number evs st in
  (length (bs_rows st) <= length (bs_rows st'))%nat
  /\ (changed_num_rows st' = true ->
      changed_num_rows st = true
      \/ (length (bs_rows st) < length (bs_rows st'))%nat).
Proof.
  revert st. induction evs as [|e evs IH]; intros st; simpl.
  - split; [lia | auto].
  - destruct (IH (process_event start_time thread_index frame_number st e))
      as [H1 H2].
    destruct (process_event_changed start_time thread_index frame_number st e)
      as [H3 H4].
    split; [lia|]. intro H. destruct (H2 H) as [H5|H5]; [|right; lia].
    destruct (H4 H5) as [H6|H6]; [left; exact H6 | right; lia].
Qed.

(** [update_bars] returns [true] exactly when the thread has more rows
    than before, and it never removes a row. *)
Theorem update_bars_reports_growth
    (cd : ClientData) (td : ThreadData) (tl : TimelineState)
    (thread_index : nat) (frame_number : Z) (tr : ThreadRow) :
  nth_error (_threads tl) thread_index = Some tr ->
  exists tr',
    nth_error (_threads (fst (update_bars cd td tl thread_index frame_number)))
      thread_index = Some tr'
    /\ (length (_rows tr) <= length (_rows tr'))%nat
    /\ (snd (update_bars cd td tl thread_index frame_number) = true
        <-> (length (_rows tr) < length (_rows tr'))%nat).
Proof.
  intros Htr.
  rewrite (update_bars_unfold _ _ _ _ _ _ Htr).
  cbn [fst snd _threads set_threads].
  assert (Hlt : (thread_index < length (_threads tl))%nat)
    by (apply nth_error_Some; congruence).
  rewrite nth_error_set_thread_same by exact Hlt.
  eexists. split; [reflexivity|].
  pose proof (update_thread_row_unchanged (_start_time tl)
                (get_thread_name cd (Z.of_nat thread_index))
                (Z.of_nat thread_index) frame_number
                (get_frame td frame_number) tr) as Hsame.
  cbv zeta in Hsame.
  assert (Hgrow :
    let r := update_thread_row (_start_time tl)
               (get_thread_name cd (Z.of_nat thread_index))
               (Z.of_nat thread_index) frame_number
               (get_frame td frame_number) tr in
    (length (_rows tr) <= length (_rows (fst r)))%nat
    /\ (snd r = true -> (length (_rows tr) < length (_rows (fst r)))%nat)).
  { unfold update_thread_row, add_frame_bars.
    destruct (process_events_changed (_start_time tl) (Z.of_nat thread_index)
                frame_number (events (get_frame td frame_number))
                (mkBarState [] (_rows tr) false)) as [H1 H2].
    cbn [bs_rows changed_num_rows] in H1, H2.
    destruct (_ && _); cbn [fst snd _rows];
      rewrite ?length_map, length_add_unclosed; split; try exact H1;
      intro H; destruct (H2 H) as [H3|H3]; [discriminate | exact H3
                                          | discriminate | exact H3]. }
  cbv zeta in Hgrow. destruct Hgrow as [H1 H2].
  split; [exact H1|]. split; [exact H2|].
  intro H. destruct (snd (update_thread_row _ _ _ _ _ _)) eqn:E;
    [reflexivity|]. specialize (Hsame eq_refl). lia.
Qed.

(** *** End events without an open collector *)

Lemma invalidate_open_absent (stack : list (Z * Q)) (collector_index : Z) :
  Forall (fun entry => fst entry <> collector_index) stack ->
  invalidate_open stack collector_index = None.
Proof.
  induction 1 as [|[c t] below Hc Hbelow IH]; simpl; [reflexivity|].
  simpl in Hc. destruct (Z.eqb_spec c collector_index); [contradiction|].
  rewrite IH. reflexivity.
Qed.

(** An end event for a collector that no stack entry holds, in particular
    any end event on an empty stack, changes neither the stack nor the rows
    nor the reported change. *)
Theorem end_without_open_collector_is_ignored
    (start_time : Q) (thread_index frame_number : Z)
    (st : BarState) (e : Event) :
  ev_is_start e = false ->
  Forall (fun entry => fst entry <> ev_collector e) (bs_stack st) ->
  process_event start_time thread_index frame_number st e = st.
Proof.
  intros He Habs. unfold process_event. rewrite He.
  destruct (bs_stack st) as [|[c t0] below] eqn:Es; [reflexivity|].
  rewrite (invalidate_open_absent _ _ Habs).
  inversion Habs as [|? ? Hc _]; subst. simpl in Hc.
  destruct (Z.eqb_spec c (ev_collector e)); [contradiction | reflexivity].
Qed.

(** *** Frames added out of order *)

Lemma insert_bar_ascend (b : ColorBar) (row : Row) :
  (forall x y, bar_lt x y = Qltb (_end x) (_end y)) ->
  ends_ascend row -> ends_ascend (insert_bar b row).
Proof.
  intros Hlt. induction row as [|x row IH]; intros Hrow.
  - simpl. auto.
  - cbn [insert_bar]. rewrite Hlt.
    destruct (Qltb (_end b) (_end x)) eqn:E.
    + apply Qltb_lt in E. split; [lra | exact Hrow].
    + apply Qltb_ge in E. destruct Hrow as [Hx Hrest].
      specialize (IH Hrest). split; [|exact IH].
      destruct row as [|y row]; [exact E|].
      cbn [insert_bar]. rewrite Hlt.
      destruct (Qltb (_end b) (_end y)); [exact E | exact Hx].
Qed.

Lemma sort_row_ascend (row : Row) :
  (forall x y, bar_lt x y = Qltb (_end x) (_end y)) ->
  ends_ascend (sort_row row).
Proof.
  intros Hlt. induction row as [|b row IH]; [exact I|].
  cbn [sort_row]. apply insert_bar_ascend; assumption.
Qed.

(** When the bars are compared by their end times, a frame older than the
    latest one the thread has seen leaves every row of the thread in
    ascending order of end time, whatever order the rows were in, and the
    latest frame number as it was. *)
Theorem out_of_order_frame_sorts_rows
    (cd : ClientData) (td : ThreadData) (tl : TimelineState)
    (thread_index : nat) (frame_number : Z) (tr : ThreadRow) :
  (forall x y, bar_lt x y = Qltb (_end x) (_end y)) ->
  nth_error (_threads tl) thread_index = Some tr ->
  0 <= _last_frame tr ->
  frame_number < _last_frame tr ->
  exists tr',
    nth_error (_threads (fst (update_bars cd td tl thread_index frame_number)))
      thread_index = Some tr'
    /\ Forall ends_ascend (_rows tr')
    /\ _last_frame tr' = _last_frame tr.
Proof.
  intros Hlt Htr H0 Hold.
  rewrite (update_bars_unfold _ _ _ _ _ _ Htr).
  cbn [fst snd _threads set_threads].
  assert (Hlen : (thread_index < length (_threads tl))%nat)
    by (apply nth_error_Some; congruence).
  rewrite nth_error_set_thread_same by exact Hlen.
  eexists. split; [reflexivity|].
  unfold update_thread_row.
  destruct (add_frame_bars _ _ _ _ _) as [rows changed].
  destruct (Z.leb_spec 0 (_last_frame tr)); [|lia].
  destruct (Z.ltb_spec frame_number (_last_frame tr)); [|lia].
  cbn [andb fst _rows _last_frame]. split; [|reflexivity].
  apply Forall_forall. intros row Hin. apply in_map_iff in Hin.
  destruct Hin as [row0 [<- _]]. apply sort_row_ascend. exact Hlt.
Qed.

(** Once a thread has seen a frame, the latest frame number it records is
    the largest frame number passed to [update_bars]. *)
Theorem update_bars_records_latest_frame
    (cd : ClientData) (td : ThreadData) (tl : TimelineState)
    (thread_index : nat) (frame_number : Z) (tr : ThreadRow) :
  nth_error (_threads tl) thread_index = Some tr ->
  0 <= _last_frame tr ->
  exists tr',
    nth_error (_threads (fst (update_bars cd td tl thread_index frame_number)))
      thread_index = Some tr'
    /\ _last_frame tr' = Z.max (_last_frame tr) frame_number.
Proof.
  intros Htr H0.
  rewrite (update_bars_unfold _ _ _ _ _ _ Htr).
  cbn [fst snd _threads set_threads].
  assert (Hlen : (thread_index < length (_threads tl))%nat)
    by (apply nth_error_Some; congruence).
  rewrite nth_error_set_thread_same by exact Hlen.
  eexists. split; [reflexivity|].
  unfold update_thread_row.
  destruct (add_frame_bars _ _ _ _ _) as [rows changed].
  destruct (Z.leb_spec 0 (_last_frame tr)); [|lia].
  destruct (Z.ltb_spec frame_number (_last_frame tr));
    cbn [andb fst _last_frame]; lia.
Qed.

(** *** The other threads *)

Lemma thread_rows_nth (tl : TimelineState) (j : nat) :
  thread_rows tl j = nth j (map _rows (_threads tl)) [].
Proof.
  unfold thread_rows. generalize (_threads tl). intro threads.
  revert j. induction threads as [|tr threads IH]; intros [|j]; simpl;
    try reflexivity.
  apply IH.
Qed.

Lemma map_rows_assign_offsets (offset : nat) (threads : list ThreadRow) :
  map _rows (assign_offsets offset threads) = map _rows threads.
Proof.
  revert offset. induction threads as [|tr threads IH]; intro offset;
    [reflexivity|].
  cbn [assign_offsets map _rows]. rewrite IH. reflexivity.
Qed.

Lemma grow_threads_map_rows (threads : list ThreadRow) (thread_index : nat) :
  exists k,
    map _rows (grow_threads threads thread_index)
    = map _rows threads ++ repeat [] k.
Proof.
  unfold grow_threads.
  induction (S thread_index - length threads)%nat as [|n [k IH]].
  - exists O. simpl. rewrite app_nil_r. reflexivity.
  - exists (S k). rewrite Nat.iter_succ.
    destruct (add_thread_last (Nat.iter n add_thread threads)) as [tr [E Hr]].
    rewrite E, map_app, IH. cbn [map]. rewrite Hr.
    rewrite <- app_assoc. f_equal. symmetry. apply repeat_cons.
Qed.

Lemma nth_app_repeat_nil (rows : list (list Row)) (k j : nat) :
  nth j (rows ++ repeat [] k) [] = nth j rows [].
Proof.
  destruct (Nat.lt_ge_cases j (length rows)) as [H|H].
  - apply app_nth1. exact H.
  - rewrite app_nth2 by exact H. rewrite (nth_overflow rows) by exact H.
    apply nth_repeat.
Qed.

Lemma nth_middle_other {A : Type} (pre post post' : list A) (x y d : A)
    (j : nat) :
  j <> length pre ->
  (forall k, nth k post' d = nth k post d) ->
  nth j (pre ++ y :: post') d = nth j (pre ++ x :: post) d.
Proof.
  revert j. induction pre as [|p pre IH]; intros [|j] Hj Hpost; simpl in *;
    try reflexivity; try congruence.
  apply IH; [lia | exact Hpost].
Qed.

Lemma register_thread_others (tl : TimelineState) (thread_index : nat) :
  (forall j, thread_rows (register_thread tl thread_index) j = thread_rows tl j)
  /\ (length (_threads tl)
      <= length (_threads (register_thread tl thread_index)))%nat
  /\ (thread_index < length (_threads (register_thread tl thread_index)))%nat.
Proof.
  unfold register_thread.
  destruct (Nat.leb_spec (length (_threads tl)) thread_index) as [H|H].
  - destruct (grow_threads_map_rows (_threads tl) thread_index) as [k Hk].
    split; [|split].
    + intro j. rewrite !thread_rows_nth. cbn [_threads set_threads].
      rewrite Hk. apply nth_app_repeat_nil.
    + cbn [_threads set_threads].
      rewrite <- (length_map _rows (grow_threads _ _)), Hk, length_app,
        length_map. lia.
    + cbn [_threads set_threads]. apply length_grow_threads.
  - split; [reflexivity|]. split; [lia | exact H].
Qed.

Lemma ingest_frame_others (cd : ClientData) (td : ThreadData)
    (tl : TimelineState) (thread_index : nat) (frame_number : Z)
    (frame_start frame_end : Q) :
  (thread_index < length (_threads tl))%nat ->
  let tl' := ingest_frame cd td tl thread_index frame_number
               frame_start frame_end in
  (forall j, j <> thread_index -> thread_rows tl' j = thread_rows tl j)
  /\ length (_threads tl') = length (_threads tl).
Proof.
  intros Hlt.
  destruct (nth_error (_threads tl) thread_index) as [tr|] eqn:Hnth;
    [|apply nth_error_None in Hnth; lia].
  destruct (nth_error_split_thread _ _ _ Hnth) as [pre [post [Hsplit Hlen]]].
  subst thread_index.
  destruct (update_bars_split cd td tl frame_number pre post tr Hsplit)
    as [tr' [changed [Hup _]]].
  unfold ingest_frame. rewrite Hup. cbv zeta.
  assert (Hshift :
    (forall j, j <> length pre ->
       nth j (map _rows
                (pre ++ tr'
                   :: assign_offsets
                        (_row_offset tr' + length (_rows tr') + 1) post)) []
       = nth j (map _rows (_threads tl)) [])
    /\ length (pre ++ tr'
                 :: assign_offsets
                      (_row_offset tr' + length (_rows tr') + 1) post)
       = length (_threads tl)).
  { rewrite Hsplit. split.
    - intros j Hj. rewrite !map_app. cbn [map].
      apply nth_middle_other; [rewrite length_map; exact Hj|].
      intro k. rewrite map_rows_assign_offsets. reflexivity.
    - rewrite !length_app. cbn [length].
      rewrite <- (length_map _rows (assign_offsets _ _)),
        map_rows_assign_offsets, length_map. reflexivity. }
  assert (Hkeep :
    (forall j, j <> length pre ->
       nth j (map _rows (pre ++ tr' :: post)) []
       = nth j (map _rows (_threads tl)) [])
    /\ length (pre ++ tr' :: post) = length (_threads tl)).
  { rewrite Hsplit. split.
    - intros j Hj. rewrite !map_app. cbn [map].
      apply nth_middle_other; [rewrite length_map; exact Hj | reflexivity].
    - rewrite !length_app. reflexivity. }
  destruct changed.
  - simpl. rewrite shift_following_app. destruct Hshift as [H1 H2].
    split; [|exact H2]. intros j Hj. rewrite !thread_rows_nth. simpl.
    apply H1. exact Hj.
  - destruct Hkeep as [H1 H2].
    destruct (_ || _); simpl; (split; [|exact H2]); intros j Hj;
      rewrite !thread_rows_nth; simpl; apply H1; exact Hj.
Qed.

Lemma rows_app_longer (rows extra : list Row) :
  (length rows <= length (rows_app rows extra))%nat.
Proof.
  revert extra. induction rows as [|r rows IH]; intros [|x extra];
    cbn [rows_app length]; try lia.
  specialize (IH extra). lia.
Qed.

(** [new_data] for one thread leaves the rows of every other thread as
    they are, and removes neither a row of its own thread nor a thread. *)
Theorem new_data_leaves_other_threads
    (client_data : option ClientData) (tl : TimelineState)
    (thread_index : nat) (frame_number : Z) :
  (forall j, j <> thread_index ->
     thread_rows (new_data client_data tl thread_index frame_number) j
     = thread_rows tl j)
  /\ (length (thread_rows tl thread_index)
      <= length (thread_rows
                   (new_data client_data tl thread_index frame_number)
                   thread_index))%nat
  /\ (length (_threads tl)
      <= length (_threads
                   (new_data client_data tl thread_index frame_number)))%nat.
Proof.
  unfold new_data.
  destruct client_data as [cd|]; [|split; [reflexivity | split; lia]].
  destruct (get_thread_data cd (Z.of_nat thread_index)) as [td|];
    [|split; [reflexivity | split; lia]].
  destruct (is_empty td); [split; [reflexivity | split; lia]|].
  cbv zeta.
  set (fd := get_frame td frame_number).
  set (tl0 := note_frame_times tl (get_start fd) (get_end fd)).
  destruct (register_thread_others tl0 thread_index) as [Hr1 [Hr2 Hr3]].
  destruct (ingest_frame_others cd td (register_thread tl0 thread_index)
              thread_index frame_number (get_start fd) (get_end fd) Hr3)
    as [Hi1 Hi2].
  destruct (ingest_frame_rows cd td (register_thread tl0 thread_index)
              thread_index frame_number (get_start fd) (get_end fd) Hr3)
    as [Hrows _].
  assert (Hsame : forall j, thread_rows tl0 j = thread_rows tl j).
  { intro j. unfold thread_rows, tl0. rewrite threads_note_frame_times.
    reflexivity. }
  assert (Hthreads : _threads tl0 = _threads tl)
    by apply threads_note_frame_times.
  split; [|split].
  - intros j Hj. rewrite (Hi1 j Hj), Hr1. apply Hsame.
  - apply Forall2_length in Hrows. rewrite Hrows.
    rewrite <- Hsame, <- (Hr1 thread_index). apply rows_app_longer.
  - rewrite Hi2, <- Hthreads. exact Hr2.
Qed.

(** *** The test before the partial redraw (line 147) *)

(** For a frame that does not end before it starts, in a view whose
    window is not of negative width when the test at line 147 is made,
    that test cannot fail: [new_data] on a thread with data always ends with
    [normal_guide_bars], whether or not the frame is in the window. *)
Theorem new_data_always_updates_guide_bars
    (cd : ClientData) (td : ThreadData) (tl : TimelineState)
    (thread_index : nat) (frame_number : Z) :
  get_thread_data cd (Z.of_nat thread_index) = Some td ->
  is_empty td = false ->
  (get_start (get_frame td frame_number)
   <= get_end (get_frame td frame_number))%Q ->
  (0 <= get_horizontal_scale
          (fst (update_bars cd td
                  (register_thread
                     (note_frame_times tl
                        (get_start (get_frame td frame_number))
                        (get_end (get_frame td frame_number)))
                     thread_index)
                  thread_index frame_number)))%Q ->
  exists t,
    new_data (Some cd) tl thread_index frame_number = normal_guide_bars t.
Proof.
  intros Htd Hne Hframe Hscale. unfold new_data. rewrite Htd, Hne. cbv zeta.
  unfold ingest_frame.
  destruct (update_bars cd td _ thread_index frame_number) as [tl' changed].
  cbn [fst] in Hscale.
  destruct changed; [eexists; reflexivity|].
  destruct (Qle_bool (_start_time tl') _) eqn:E1; [eexists; reflexivity|].
  destruct (Qle_bool _ (_start_time tl' + get_horizontal_scale tl')) eqn:E2;
    [eexists; reflexivity|].
  exfalso.
  assert (H1 : (get_end (get_frame td frame_number) < _start_time tl')%Q).
  { destruct (Qlt_le_dec (get_end (get_frame td frame_number))
                (_start_time tl')) as [H|H]; [exact H|].
    apply Qle_bool_iff in H. congruence. }
  assert (H2 : (get_start (get_frame td frame_number)
                <= _start_time tl' + get_horizontal_scale tl')%Q) by lra.
  apply Qle_bool_iff in H2. congruence.
Qed.

(** *** The initial load *)

Lemma load_frames_rows (cd : ClientData) (td : ThreadData)
    (frames : list Z) (pre post : list ThreadRow) :
  forall (tr : ThreadRow) (tl : TimelineState),
    _threads tl = pre ++ tr :: post ->
    let tl' := fold_left
                 (fun t frame => fst (update_bars cd td t (length pre) frame))
                 frames tl in
    exists tr',
      _threads tl' = pre ++ tr' :: post
      /\ rows_equiv (_rows tr')
           (rows_of_frames (_start_time tl) (Z.of_nat (length pre)) td frames
              (_rows tr))
      /\ _start_time tl' = _start_time tl.
Proof.
  induction frames as [|frame frames IH]; intros tr tl H; cbn [fold_left].
  - exists tr. split; [exact H|]. split; [apply rows_equiv_refl | reflexivity].
  - destruct (update_bars_split cd td tl frame pre post tr H)
      as [tr1 [changed [Hup [_ [_ Hrows]]]]].
    rewrite Hup. cbn [fst].
    destruct (IH tr1 (set_threads tl (pre ++ tr1 :: post) (_threads_changed tl))
                eq_refl) as [tr' [H1 [H2 H3]]].
    exists tr'. split; [exact H1|]. split; [|exact H3].
    eapply rows_equiv_trans; [exact H2|].
    rewrite rows_of_frames_cons. cbn [_start_time set_threads].
    apply rows_of_frames_equiv. exact Hrows.
Qed.

Lemma load_thread_rows (cd : ClientData) (tl : TimelineState)
    (row_offset : nat) :
  let r := load_thread cd (tl, row_offset) (length (_threads tl)) in
  exists tr',
    _threads (fst r) = _threads tl ++ [tr']
    /\ _start_time (fst r) = _start_time tl
    /\ loaded_rows cd (_start_time tl) (length (_threads tl)) (_rows tr').
Proof.
  unfold load_thread, loaded_rows. cbv zeta.
  destruct (get_thread_data cd (Z.of_nat (length (_threads tl)))) as [td|].
  - destruct (is_empty td).
    + cbn [fst]. eexists. split; [reflexivity|]. split; reflexivity.
    + cbn [fst].
      match goal with
      | |- context [fold_left ?f ?l ?t0] =>
          destruct (load_frames_rows cd td l (_threads tl) []
                      (new_thread_row row_offset) t0 eq_refl)
            as [tr' [Ha [Hb Hc]]]
      end.
      exists tr'. split; [exact Ha|]. split; [exact Hc | exact Hb].
  - cbn [fst]. eexists. split; [reflexivity|]. split; reflexivity.
Qed.

Lemma load_threads_rows (cd : ClientData) (n : nat) :
  forall (tl : TimelineState) (row_offset : nat),
    let r := fold_left (load_thread cd) (seq (length (_threads tl)) n)
               (tl, row_offset) in
    exists added,
      _threads (fst r) = _threads tl ++ added
      /\ length added = n
      /\ _start_time (fst r) = _start_time tl
      /\ forall k tr',
           nth_error added k = Some tr' ->
           loaded_rows cd (_start_time tl) (length (_threads tl) + k)
             (_rows tr').
Proof.
  induction n as [|n IH]; intros tl row_offset.
  - exists []. cbn [seq fold_left fst]. rewrite app_nil_r.
    repeat split. intros [|k] tr' H; discriminate.
  - cbn [seq fold_left].
    destruct (load_thread_rows cd tl row_offset) as [tr1 [Ha [Hb Hc]]].
    destruct (load_thread cd (tl, row_offset) (length (_threads tl)))
      as [tl1 ro1]. cbn [fst] in Ha, Hb.
    assert (Hlen : length (_threads tl1) = S (length (_threads tl)))
      by (rewrite Ha, length_app; simpl; lia).
    rewrite <- Hlen.
    destruct (IH tl1 ro1) as [added [H1 [H2 [H3 H4]]]].
    exists (tr1 :: added). cbv zeta. rewrite H1, Ha, <- app_assoc.
    split; [reflexivity|]. split; [simpl; lia|]. split; [congruence|].
    intros [|k] tr' Hk; simpl in Hk.
    + inversion Hk; subst tr'. rewrite Nat.add_0_r. exact Hc.
    + specialize (H4 k tr' Hk). rewrite Hb, Hlen in H4.
      replace (length (_threads tl) + S k)%nat
        with (S (length (_threads tl)) + k)%nat by lia.
      exact H4.
Qed.

(** The constructor registers one thread row for each thread of the
    client, in index order.  A thread without data, or with empty data, gets
    no rows; a thread with data gets the bars of its recorded frames, from the
    oldest to the latest, with starts clamped to the start time that the
    member initialisers left (the window start is set only after the
    load). *)
Theorem constructor_loads_recorded_frames
    (init : TimelineState) (cd : ClientData) :
  length (_threads (PStatTimeline init (Some cd)))
  = Z.to_nat (get_num_threads cd)
  /\ forall thread_index,
       (thread_index < Z.to_nat (get_num_threads cd))%nat ->
       loaded_rows cd (_start_time init) thread_index
         (thread_rows (PStatTimeline init (Some cd)) thread_index).
Proof.
  unfold PStatTimeline. cbv zeta.
  match goal with
  | |- context [fold_left _ _ (?t0, O)] =>
      destruct (load_threads_rows cd (Z.to_nat (get_num_threads cd)) t0 O)
        as [added [H1 [H2 [_ H4]]]]
  end.
  cbn [_threads length Nat.add] in H1, H4. cbn [_start_time] in H4.
  cbn [_threads]. unfold thread_rows. cbn [_threads]. rewrite H1.
  split; [exact H2|].
  intros i Hi.
  destruct (nth_error added i) as [tr|] eqn:E;
    [|apply nth_error_None in E; lia].
  cbn [app]. rewrite E. exact (H4 i tr E).
Qed.

End Facts.

End IngestionFacts.

(** *** Closed instances *)

Module IngestionInstances.
Import Timeline TimelineFacts Ingestion IngestionFacts Examples.

#[local] Existing Instance unit_decls.

Lemma nested_frame_collectors :
  Forall (fun e => 0 <= ev_collector e)
    (events (get_frame (one_thread_data nested_frame) 1)).
Proof. repeat (constructor; [cbn; lia|]). constructor. Qed.

Lemma update_bars_one_bar_per_start_witness :
  nth_error (_threads (view_at 0)) 0
  = Some (mkThreadRow String.EmptyString [] 0 (-1))
  /\ Forall (fun e => 0 <= ev_collector e)
       (events (get_frame (one_thread_data nested_frame) 1))
  /\ exists tr',
       nth_error
         (_threads (fst (update_bars (one_thread_client nested_frame)
                           (one_thread_data nested_frame) (view_at 0) 0 1)))
         0 = Some tr'
       /\ bar_count (_rows tr')
          = (bar_count []
             + start_count
                 (events (get_frame (one_thread_data nested_frame) 1)))%nat.
Proof.
  split; [reflexivity|]. split; [exact nested_frame_collectors|].
  exact (update_bars_one_bar_per_start (one_thread_client nested_frame)
           (one_thread_data nested_frame) (view_at 0) 0 1
           (mkThreadRow String.EmptyString [] 0 (-1)) eq_refl
           nested_frame_collectors).
Defined.

Lemma nested_bars_go_deeper_witness :
  well_nested [mkEvent 3 1 true; mkEvent 3 4 false]
  /\ 0 <= 0
  /\ Forall (fun e => 0 <= ev_collector e)
       [mkEvent 3 1 true; mkEvent 3 4 false]
  /\ pop_invalid [] = []
  /\ (length (@nil (Z * Q)) <= length (@nil Row))%nat
  /\ bs_stack
       (process_events 0 0 1
          (mkEvent 0 0 true
             :: [mkEvent 3 1 true; mkEvent 3 4 false] ++ [mkEvent 0 10 false])
          (mkBarState [] [] false)) = []
  /\ exists deeper,
       bs_rows
         (process_events 0 0 1
            (mkEvent 0 0 true
               :: [mkEvent 3 1 true; mkEvent 3 4 false]
                    ++ [mkEvent 0 10 false])
            (mkBarState [] [] false))
       = push_bar deeper (length (@nil (Z * Q))) (mkBar (fmax 0 0) 10 0 0 1)
       /\ firstn (S (length (@nil (Z * Q)))) deeper
          = firstn (S (length (@nil (Z * Q))))
              (resize_rows [] (S (length (@nil (Z * Q))))).
Proof.
  assert (Hnest : well_nested [mkEvent 3 1 true; mkEvent 3 4 false])
    by exact (well_nested_pair 3 1 4 [] [] well_nested_nil well_nested_nil).
  assert (Hall : Forall (fun e => 0 <= ev_collector e)
                   [mkEvent 3 1 true; mkEvent 3 4 false])
    by (repeat (constructor; [cbn; lia|]); constructor).
  split; [exact Hnest|]. split; [lia|]. split; [exact Hall|].
  split; [reflexivity|]. split; [apply le_n|].
  exact (nested_bars_go_deeper 0 0 1 0 0 10
           [mkEvent 3 1 true; mkEvent 3 4 false] [] [] false
           Hnest (Z.le_refl 0) Hall eq_refl (le_n _)).
Defined.

Lemma update_bars_reports_growth_witness :
  nth_error (_threads (view_at 0)) 0
  = Some (mkThreadRow String.EmptyString [] 0 (-1))
  /\ exists tr',
       nth_error
         (_threads (fst (update_bars (one_thread_client nested_frame)
                           (one_thread_data nested_frame) (view_at 0) 0 1)))
         0 = Some tr'
       /\ (length (@nil Row) <= length (_rows tr'))%nat
       /\ (snd (update_bars (one_thread_client nested_frame)
                  (one_thread_data nested_frame) (view_at 0) 0 1) = true
           <-> (length (@nil Row) < length (_rows tr'))%nat).
Proof.
  split; [reflexivity|].
  exact (update_bars_reports_growth (one_thread_client nested_frame)
           (one_thread_data nested_frame) (view_at 0) 0 1
           (mkThreadRow String.EmptyString [] 0 (-1)) eq_refl).
Defined.

Lemma end_without_open_collector_is_ignored_witness :
  ev_is_start (mkEvent 5 2 false) = false
  /\ Forall (fun entry => fst entry <> ev_collector (mkEvent 5 2 false))
       (bs_stack (mkBarState [(3, 1%Q); (0, 0%Q)] [[]; []] true))
  /\ process_event 0 0 1 (mkBarState [(3, 1%Q); (0, 0%Q)] [[]; []] true)
       (mkEvent 5 2 false)
     = mkBarState [(3, 1%Q); (0, 0%Q)] [[]; []] true.
Proof.
  assert (Habs : Forall (fun entry => fst entry <> ev_collector (mkEvent 5 2 false))
                   (bs_stack (mkBarState [(3, 1%Q); (0, 0%Q)] [[]; []] true)))
    by (repeat (constructor; [cbn; lia|]); constructor).
  split; [reflexivity|]. split; [exact Habs|].
  exact (end_without_open_collector_is_ignored 0 0 1
           (mkBarState [(3, 1%Q); (0, 0%Q)] [[]; []] true)
           (mkEvent 5 2 false) eq_refl Habs).
Defined.

Lemma out_of_order_frame_sorts_rows_witness :
  (forall x y, bar_lt x y = Qltb (_end x) (_end y))
  /\ nth_error (_threads two_bar_view) 0
     = Some (mkThreadRow String.EmptyString
               [[mkBar 0 10 0 0 1; mkBar 20 30 0 0 2]] 0 2)
  /\ 0 <= 2
  /\ 1 < 2
  /\ exists tr',
       nth_error
         (_threads (fst (update_bars (one_thread_client early_frame)
                           (one_thread_data early_frame) two_bar_view 0 1)))
         0 = Some tr'
       /\ Forall ends_ascend (_rows tr')
       /\ _last_frame tr' = 2.
Proof.
  split; [intros x y; reflexivity|]. split; [reflexivity|].
  split; [lia|]. split; [lia|].
  exact (out_of_order_frame_sorts_rows (one_thread_client early_frame)
           (one_thread_data early_frame) two_bar_view 0 1
           (mkThreadRow String.EmptyString
              [[mkBar 0 10 0 0 1; mkBar 20 30 0 0 2]] 0 2)
           (fun x y => eq_refl) eq_refl ltac:(cbn; lia) ltac:(cbn; lia)).
Defined.

Lemma update_bars_records_latest_frame_witness :
  nth_error (_threads two_bar_view) 0
  = Some (mkThreadRow String.EmptyString
            [[mkBar 0 10 0 0 1; mkBar 20 30 0 0 2]] 0 2)
  /\ 0 <= 2
  /\ exists tr',
       nth_error
         (_threads (fst (update_bars (one_thread_client late_frame)
                           (one_thread_data late_frame) two_bar_view 0 3)))
         0 = Some tr'
       /\ _last_frame tr' = Z.max 2 3.
Proof.
  split; [reflexivity|]. split; [lia|].
  exact (update_bars_records_latest_frame (one_thread_client late_frame)
           (one_thread_data late_frame) two_bar_view 0 3
           (mkThreadRow String.EmptyString
              [[mkBar 0 10 0 0 1; mkBar 20 30 0 0 2]] 0 2)
           eq_refl ltac:(cbn; lia)).
Defined.

Lemma new_data_always_updates_guide_bars_witness :
  get_thread_data (one_thread_client early_frame) (Z.of_nat 0)
  = Some (one_thread_data early_frame)
  /\ is_empty (one_thread_data early_frame) = false
  /\ (get_start (get_frame (one_thread_data early_frame) 2)
      <= get_end (get_frame (one_thread_data early_frame) 2))%Q
  /\ snd (update_bars (one_thread_client early_frame)
            (one_thread_data early_frame)
            (register_thread
               (note_frame_times Scenarios.late_window_view
                  (get_start (get_frame (one_thread_data early_frame) 2))
                  (get_end (get_frame (one_thread_data early_frame) 2)))
               0)
            0 2) = false
  /\ Qle_bool (_start_time Scenarios.late_window_view)
       (get_end (get_frame (one_thread_data early_frame) 2)) = false
  /\ exists t,
       new_data (Some (one_thread_client early_frame))
         Scenarios.late_window_view 0 2
       = normal_guide_bars t.
Proof.
  assert (H2 : (get_start (get_frame (one_thread_data early_frame) 2)
                <= get_end (get_frame (one_thread_data early_frame) 2))%Q)
    by (unfold Qle; simpl; lia).
  assert (H3 : (0 <= get_horizontal_scale
                       (fst (update_bars (one_thread_client early_frame)
                               (one_thread_data early_frame)
                               (register_thread
                                  (note_frame_times Scenarios.late_window_view
                                     (get_start
                                        (get_frame
                                           (one_thread_data early_frame) 2))
                                     (get_end
                                        (get_frame
                                           (one_thread_data early_frame) 2)))
                                  0)
                               0 2)))%Q)
    by (vm_compute; intro H; discriminate H).
  split; [reflexivity|]. split; [reflexivity|]. split; [exact H2|].
  split; [vm_compute; reflexivity|]. split; [vm_compute; reflexivity|].
  exact (new_data_always_updates_guide_bars (one_thread_client early_frame)
           (one_thread_data early_frame) Scenarios.late_window_view 0 2
           eq_refl eq_refl H2 H3).
Defined.

End IngestionInstances.

(** ** Drawing *)

Module DrawingFacts.
Import Timeline TimelineFacts Drawing.

Lemma row_ordered_In (bars : Row) (b : ColorBar) :
  row_ordered bars -> In b bars -> (_start b <= _end b)%Q.
Proof.
  induction bars as [|x rest IH]; intros Hord Hin; [destruct Hin|].
  destruct Hord as [H1 [_ H3]]. destruct Hin as [<-|Hin]; auto.
Qed.

Lemma row_ordered_tail (b : ColorBar) (rest : Row) :
  row_ordered (b :: rest) -> row_ordered rest.
Proof. intros [_ [_ H]]. exact H. Qed.

Lemma row_ordered_app_r (skipped it : Row) :
  row_ordered (skipped ++ it) -> row_ordered it.
Proof.
  induction skipped as [|b skipped IH]; intro H; [exact H|].
  apply IH. exact (row_ordered_tail _ _ H).
Qed.

Lemma bar_row_small (row_offset : nat) (row_index : Z) :
  0 <= row_index ->
  Z.of_nat row_offset + row_index < 2 ^ 31 ->
  bar_row row_offset row_index = Z.of_nat row_offset + row_index.
Proof.
  intros H0 H1. unfold bar_row.
  rewrite size_t_of_int_nonneg by lia.
  rewrite Z.mod_small by lia. apply int_of_size_t_small. lia.
Qed.

Lemma at_index_nat {A : Type} (v : list A) (i : nat) :
  Z.of_nat i < 2 ^ 31 ->
  at_index v (int_of_size_t (Z.of_nat i)) = nth_error v i.
Proof.
  intro H. unfold at_index.
  rewrite int_of_size_t_small by lia.
  rewrite size_t_of_int_nonneg by lia. rewrite Nat2Z.id. reflexivity.
Qed.

Lemma at_index_Z {A : Type} (v : list A) (i : Z) :
  0 <= i < 2 ^ 64 -> at_index v i = nth_error v (Z.to_nat i).
Proof.
  intro H. unfold at_index. rewrite size_t_of_int_nonneg by lia. reflexivity.
Qed.

Section Facts.
Context {D : Timeline.Declarations} {P : Drawing.Declarations}.

(** *** The bars that [draw_row] draws *)

(** The lookup at line 519 splits an ordered row into the bars that end
    before the time and the bars that do not. *)
Lemma lower_bound_split (row : Row) (a t : Q) (c th f : Z) :
  (forall x y, bar_lt x y = Qltb (_end x) (_end y)) ->
  row_ordered row ->
  exists skipped,
    row = skipped ++ lower_bound row (mkBar a t c th f)
    /\ Forall (fun b => (_end b < t)%Q) skipped
    /\ Forall (fun b => (t <= _end b)%Q) (lower_bound row (mkBar a t c th f)).
Proof.
  intros Hlt. induction row as [|b rest IH]; intro Hord.
  - exists []. simpl. auto.
  - cbn [lower_bound]. rewrite Hlt. cbn [_end].
    destruct (Qltb (_end b) t) eqn:E.
    + apply Qltb_lt in E.
      destruct (IH (row_ordered_tail _ _ Hord)) as [skipped [H1 [H2 H3]]].
      exists (b :: skipped). split; [simpl; congruence|].
      split; [constructor; assumption | exact H3].
    + apply Qltb_ge in E. exists []. split; [reflexivity|].
      split; [constructor|]. constructor; [exact E|].
      apply Forall_forall. intros x Hx.
      pose proof (row_ordered_after b rest Hord x Hx) as H1.
      pose proof (row_ordered_In _ x (row_ordered_tail _ _ Hord) Hx) as H2.
      lra.
Qed.

Lemma draw_one_some (tl : TimelineState) (cd : ClientData) (row : Z)
    (bar : ColorBar) :
  draw_one tl (Some cd) row bar
  = Some (if on_screen tl bar then [bar_call tl row bar] else []).
Proof.
  unfold draw_one.
  destruct (on_screen tl bar); [|reflexivity].
  destruct (negb _); reflexivity.
Qed.

Lemma draw_one_calls (tl : TimelineState) (client_data : option ClientData)
    (row : Z) (bar : ColorBar) (calls : list DrawCall) :
  draw_one tl client_data row bar = Some calls ->
  calls = if on_screen tl bar then [bar_call tl row bar] else [].
Proof.
  unfold draw_one.
  destruct (on_screen tl bar); [|congruence].
  destruct (negb _); [destruct client_data|]; congruence.
Qed.

Lemma draw_bars_some (tl : TimelineState) (cd : ClientData) (row : Z)
    (end_time : Q) (frame_number : Z) (it : Row) :
  exists calls, draw_bars tl (Some cd) row end_time frame_number it = Some calls.
Proof.
  induction it as [|bar rest IH]; [exists []; reflexivity|].
  cbn [draw_bars]. rewrite draw_one_some. cbn [bind].
  destruct rest as [|next rest']; [eexists; reflexivity|].
  destruct (_ || _); [|eexists; reflexivity].
  destruct IH as [more ->]. eexists. reflexivity.
Qed.

Lemma draw_bars_sound (tl : TimelineState) (client_data : option ClientData)
    (row : Z) (end_time : Q) (frame_number : Z) (it : Row) :
  forall calls,
    draw_bars tl client_data row end_time frame_number it = Some calls ->
    forall call, In call calls ->
      exists b, In b it /\ on_screen tl b = true /\ call = bar_call tl row b.
Proof.
  induction it as [|bar rest IH]; intros calls Hcalls call Hin.
  - inversion Hcalls; subst. destruct Hin.
  - cbn [draw_bars] in Hcalls.
    destruct (draw_one tl client_data row bar) as [first|] eqn:E;
      [|discriminate].
    apply draw_one_calls in E. cbn [bind] in Hcalls.
    assert (Hfirst : forall c, In c first ->
              exists b, In b (bar :: rest) /\ on_screen tl b = true
                        /\ c = bar_call tl row b).
    { intros c Hc. subst first. destruct (on_screen tl bar) eqn:Es;
        [|destruct Hc].
      destruct Hc as [<-|[]]. exists bar. split; [left; reflexivity | auto]. }
    destruct rest as [|next rest'].
    + inversion Hcalls; subst calls. auto.
    + destruct (_ || _).
      * destruct (draw_bars tl client_data row end_time frame_number
                    (next :: rest')) as [more|] eqn:Em; [|discriminate].
        cbn [bind] in Hcalls. inversion Hcalls; subst calls.
        apply in_app_or in Hin. destruct Hin as [Hin|Hin]; [auto|].
        destruct (IH more eq_refl call Hin) as [b [H1 H2]].
        exists b. split; [right; exact H1 | exact H2].
      * inversion Hcalls; subst calls. auto.
Qed.

Lemma draw_bars_complete (tl : TimelineState)
    (client_data : option ClientData) (row : Z) (end_time : Q)
    (frame_number : Z) (it : Row) :
  row_ordered it ->
  forall calls,
    draw_bars tl client_data row end_time frame_number it = Some calls ->
    forall b, In b it -> (_start b <= end_time)%Q -> on_screen tl b = true ->
      In (bar_call tl row b) calls.
Proof.
  induction it as [|bar rest IH]; intros Hord calls Hcalls b Hin Hb Hs.
  - destruct Hin.
  - cbn [draw_bars] in Hcalls.
    destruct (draw_one tl client_data row bar) as [first|] eqn:E;
      [|discriminate].
    apply draw_one_calls in E. cbn [bind] in Hcalls.
    assert (Hfirst : b = bar -> In (bar_call tl row b) first).
    { intros ->. subst first. rewrite Hs. left. reflexivity. }
    destruct Hin as [Hin|Hin].
    + symmetry in Hin. specialize (Hfirst Hin).
      destruct rest as [|next rest'].
      * inversion Hcalls; subst calls. exact Hfirst.
      * destruct (_ || _).
        -- destruct (draw_bars tl client_data row end_time frame_number
                       (next :: rest')) as [more|]; [|discriminate].
           cbn [bind] in Hcalls. inversion Hcalls; subst calls.
           apply in_or_app. left. exact Hfirst.
        -- inversion Hcalls; subst calls. exact Hfirst.
    + destruct rest as [|next rest']; [destruct Hin|].
      pose proof (row_ordered_tail _ _ Hord) as Hrest.
      destruct (Qle_bool (_start next) end_time
                || (_frame_number next =? frame_number)) eqn:Ego.
      * destruct (draw_bars tl client_data row end_time frame_number
                    (next :: rest')) as [more|] eqn:Em; [|discriminate].
        cbn [bind] in Hcalls. inversion Hcalls; subst calls.
        apply in_or_app. right. exact (IH Hrest more eq_refl b Hin Hb Hs).
      * exfalso. apply orb_false_iff in Ego. destruct Ego as [Ego _].
        assert (Hnext : (end_time < _start next)%Q).
        { destruct (Qlt_le_dec end_time (_start next)) as [H|H]; [exact H|].
          apply Qle_bool_iff in H. congruence. }
        destruct Hin as [<-|Hin]; [lra|].
        pose proof (row_ordered_after next rest' Hrest b Hin) as H1.
        destruct Hrest as [H2 _]. lra.
Qed.

(** With the bars compared by their end times, [draw_row] on an ordered
    row of a registered thread, with client data at hand, makes a
    [draw_bar] call for every bar of the row that meets the time range and
    passes the pixel test of line 531, and every call it makes is the
    [draw_bar] call of a bar of the row that passes the pixel test and does
    not end before the start of the range. *)
Theorem draw_row_draws_bars_in_range
    (tl : TimelineState) (cd : ClientData) (thread_index row_index : Z)
    (start_time end_time : Q) (thread_row : ThreadRow) (row : Row) :
  (forall x y, bar_lt x y = Qltb (_end x) (_end y)) ->
  at_index (_threads tl) thread_index = Some thread_row ->
  at_index (_rows thread_row) row_index = Some row ->
  row_ordered row ->
  exists calls,
    draw_row tl (Some cd) thread_index row_index start_time end_time
    = Some calls
    /\ (forall b,
          In b row -> bar_meets b start_time end_time ->
          on_screen tl b = true ->
          In (bar_call tl (bar_row (_row_offset thread_row) row_index) b)
             calls)
    /\ (forall call,
          In call calls ->
          exists b,
            In b row /\ (start_time <= _end b)%Q /\ on_screen tl b = true
            /\ call
               = bar_call tl (bar_row (_row_offset thread_row) row_index) b).
Proof.
  intros Hlt Hthread Hrow Hord.
  unfold draw_row. rewrite Hthread. cbn [bind]. rewrite Hrow.
  cbn [bind]. cbv zeta.
  destruct (lower_bound_split row 0 start_time 0 0 0 Hlt Hord)
    as [skipped [Hsplit [Hskipped Hit]]].
  assert (Hordit : row_ordered (lower_bound row (mkBar 0 start_time 0 0 0))).
  { apply (row_ordered_app_r skipped). rewrite <- Hsplit. exact Hord. }
  destruct (lower_bound row (mkBar 0 start_time 0 0 0)) as [|first it] eqn:El.
  - exists []. split; [reflexivity|]. split.
    + intros b Hin [Hb _] _. rewrite Hsplit, app_nil_r in Hin.
      rewrite Forall_forall in Hskipped. specialize (Hskipped b Hin). lra.
    + intros call [].
  - destruct (draw_bars_some tl cd (bar_row (_row_offset thread_row) row_index)
                end_time (_frame_number first) (first :: it)) as [calls Hc].
    exists calls. split; [exact Hc|]. split.
    + intros b Hin [Hb1 Hb2] Hs.
      apply (draw_bars_complete _ _ _ _ _ _ Hordit calls Hc b); auto.
      rewrite Hsplit in Hin. apply in_app_or in Hin.
      destruct Hin as [Hin|Hin]; [|exact Hin].
      rewrite Forall_forall in Hskipped. specialize (Hskipped b Hin). lra.
    + intros call Hin.
      destruct (draw_bars_sound _ _ _ _ _ _ calls Hc call Hin)
        as [b [H1 [H2 H3]]].
      exists b. split; [rewrite Hsplit; apply in_or_app; right; exact H1|].
      split; [|auto]. rewrite Forall_forall in Hit. exact (Hit b H1).
Qed.

(** *** Redrawing one row *)

Lemma redraw_row_in_before (tl : TimelineState)
    (client_data : option ClientData) (row : Z) (start_time end_time : Q)
    (ti offset : nat) (threads : list ThreadRow) :
  offsets_from offset threads -> 0 <= row < Z.of_nat offset ->
  Z.of_nat offset < 2 ^ 31 ->
  redraw_row_in tl client_data row start_time end_time ti threads = Some [].
Proof.
  intros Hch Hrow Hoff. destruct threads as [|tr rest]; [reflexivity|].
  destruct Hch as [H1 _]. cbn [redraw_row_in].
  rewrite size_t_of_int_nonneg by lia.
  destruct (Z.ltb_spec row (Z.of_nat (_row_offset tr))); [reflexivity | lia].
Qed.

Lemma bind_app_nil (m : option (list DrawCall)) :
  bind m (fun calls => bind (Some []) (fun more => Some (calls ++ more))) = m.
Proof. destruct m as [calls|]; [|reflexivity]. simpl. now rewrite app_nil_r. Qed.

Lemma redraw_row_in_spec (tl : TimelineState)
    (client_data : option ClientData) (row : Z) (start_time end_time : Q)
    (threads : list ThreadRow) :
  forall (ti offset : nat),
    offsets_from offset threads ->
    Forall (fun tr =>
              Z.of_nat (_row_offset tr + length (_rows tr)) < 2 ^ 31 - 1)
      threads ->
    - 2 ^ 31 <= row < 2 ^ 31 ->
    (forall k tr d,
       nth_error threads k = Some tr -> (d < length (_rows tr))%nat ->
       row = Z.of_nat (_row_offset tr + d) ->
       redraw_row_in tl client_data row start_time end_time ti threads
       = draw_row tl client_data (int_of_size_t (Z.of_nat (ti + k)))
           (Z.of_nat d) start_time end_time)
    /\ ((forall k tr d,
           nth_error threads k = Some tr -> (d < length (_rows tr))%nat ->
           row <> Z.of_nat (_row_offset tr + d)) ->
        redraw_row_in tl client_data row start_time end_time ti threads
        = Some []).
Proof.
  induction threads as [|tr rest IH]; intros ti offset Hch Hall Hrow.
  - split; [intros [|k] t d H; discriminate | reflexivity].
  - destruct Hch as [Hoff Hch]. inversion Hall as [|? ? Hsize Hrest]; subst.
    assert (Hlater : forall k t d,
              nth_error rest k = Some t -> (d < length (_rows t))%nat ->
              row = Z.of_nat (_row_offset t + d) ->
              Z.of_nat (_row_offset tr + length (_rows tr) + 1) <= row).
    { intros k t d H1 H2 H3.
      apply (resolves_to_from _ rest row (nth d (_rows t) [])); [exact Hch|].
      exists k, t, d. split; [exact H1|]. split; [|exact H3].
      apply nth_error_nth'. exact H2. }
    cbn [redraw_row_in].
    destruct (Z.ltb_spec (size_t_of_int row) (Z.of_nat (_row_offset tr)))
      as [Hbefore|Hnot].
    + assert (Hpos : 0 <= row).
      { destruct (Z.lt_ge_cases row 0) as [Hneg|]; [|assumption].
        rewrite size_t_of_int_neg in Hbefore by lia. lia. }
      rewrite size_t_of_int_nonneg in Hbefore by lia.
      split; [|reflexivity].
      intros [|k] t d H1 H2 H3; simpl in H1.
      * inversion H1; subst t. lia.
      * specialize (Hlater k t d H1 H2 H3). lia.
    + rewrite int_of_size_t_small by lia.
      set (row_index := row - Z.of_nat (_row_offset tr)).
      destruct (Z.ltb_spec (size_t_of_int row_index)
                  (Z.of_nat (length (_rows tr)))) as [Hin|Hout].
      * assert (Hidx : 0 <= row_index).
        { destruct (Z.lt_ge_cases row_index 0) as [Hneg|]; [|assumption].
          subst row_index. rewrite size_t_of_int_neg in Hin by lia. lia. }
        rewrite size_t_of_int_nonneg in Hin by lia.
        rewrite (redraw_row_in_before tl client_data row start_time end_time
                   (S ti) _ rest Hch) by (subst row_index; lia).
        rewrite bind_app_nil. split.
        -- intros [|k] t d H1 H2 H3; simpl in H1.
           ++ inversion H1; subst t. rewrite Nat.add_0_r.
              replace (Z.of_nat d) with row_index by (subst row_index; lia).
              reflexivity.
           ++ specialize (Hlater k t d H1 H2 H3). subst row_index. lia.
        -- intro Hnone. exfalso.
           apply (Hnone O tr (Z.to_nat row_index) eq_refl);
             subst row_index; lia.
      * assert (Hnothere : forall d, (d < length (_rows tr))%nat ->
                             row <> Z.of_nat (_row_offset tr + d)).
        { intros d Hd ->. subst row_index.
          rewrite size_t_of_int_nonneg in Hout by lia. lia. }
        destruct (IH (S ti) _ Hch Hrest Hrow) as [IH1 IH2]. split.
        -- intros [|k] t d H1 H2 H3; simpl in H1.
           ++ inversion H1; subst t. exfalso. exact (Hnothere d H2 H3).
           ++ rewrite (IH1 k t d H1 H2 H3).
              replace (ti + S k)%nat with (S ti + k)%nat by lia. reflexivity.
        -- intro Hnone. apply IH2. intros k t d H1 H2.
           exact (Hnone (S k) t d H1 H2).
Qed.

(** With consecutive offsets, [force_redraw(row, from_x, to_x)] calls
    [draw_row] for the one row of the one thread that the global row index
    falls on, clipped to the pixel range, and draws nothing when the index
    falls on no row (a separator, or a row past the last thread). *)
Theorem force_redraw_row_draws_one_row
    (tl : TimelineState) (client_data : option ClientData)
    (row from_x to_x : Z) :
  offsets_chained (_threads tl) ->
  Forall (fun tr =>
            Z.of_nat (_row_offset tr + length (_rows tr)) < 2 ^ 31 - 1)
    (_threads tl) ->
  Z.of_nat (length (_threads tl)) < 2 ^ 31 ->
  - 2 ^ 31 <= row < 2 ^ 31 ->
  (forall ti tr ri,
     nth_error (_threads tl) ti = Some tr -> (ri < length (_rows tr))%nat ->
     row = Z.of_nat (_row_offset tr + ri) ->
     force_redraw_row tl client_data row from_x to_x
     = (calls <- draw_row tl client_data (Z.of_nat ti) (Z.of_nat ri)
                   (fmax (_start_time tl) (pixel_to_timestamp tl from_x))
                   (fmin (_start_time tl + get_horizontal_scale tl)
                      (pixel_to_timestamp tl to_x)) ;;
        Some (begin_draw :: calls ++ [end_draw])))
  /\ ((forall ti tr ri,
         nth_error (_threads tl) ti = Some tr ->
         (ri < length (_rows tr))%nat ->
         row <> Z.of_nat (_row_offset tr + ri)) ->
      force_redraw_row tl client_data row from_x to_x
      = Some [begin_draw; end_draw]).
Proof.
  intros [offset Hch] Hall Hlen Hrow.
  destruct (redraw_row_in_spec tl client_data row
              (fmax (_start_time tl) (pixel_to_timestamp tl from_x))
              (fmin (_start_time tl + get_horizontal_scale tl)
                 (pixel_to_timestamp tl to_x))
              (_threads tl) O offset Hch Hall Hrow) as [H1 H2].
  unfold force_redraw_row. cbv zeta. split.
  - intros ti tr ri Hti Hri Hr. rewrite (H1 ti tr ri Hti Hri Hr).
    assert (Hlt : (ti < length (_threads tl))%nat)
      by (apply nth_error_Some; congruence).
    rewrite Nat.add_0_l, int_of_size_t_small by lia. reflexivity.
  - intros Hnone. rewrite (H2 Hnone). reflexivity.
Qed.

(** *** The separators of a full redraw *)

Lemma separators_app (a b : list DrawCall) :
  separators (a ++ b) = separators a ++ separators b.
Proof. unfold separators. apply flat_map_app. Qed.

Lemma separators_bar_calls (calls : list DrawCall) :
  (forall call, In call calls ->
     exists tl row b, call = bar_call tl row b) ->
  separators calls = [].
Proof.
  induction calls as [|c calls IH]; intro H; [reflexivity|].
  destruct (H c (or_introl eq_refl)) as [tl [row [b ->]]].
  cbn [separators flat_map bar_call app].
  apply IH. intros call Hin. apply H. right. exact Hin.
Qed.

Lemma draw_row_bar_calls (tl : TimelineState)
    (client_data : option ClientData) (thread_index row_index : Z)
    (start_time end_time : Q) (calls : list DrawCall) :
  draw_row tl client_data thread_index row_index start_time end_time
  = Some calls ->
  forall call, In call calls -> exists tl' row b, call = bar_call tl' row b.
Proof.
  unfold draw_row.
  destruct (at_index (_threads tl) thread_index) as [tr|]; [|discriminate].
  cbn [bind].
  destruct (at_index (_rows tr) row_index) as [row|]; [|discriminate].
  cbn [bind]. cbv zeta.
  destruct (lower_bound row _) as [|first it].
  - intros H call Hin. inversion H; subst. destruct Hin.
  - intros H call Hin.
    destruct (draw_bars_sound _ _ _ _ _ _ calls H call Hin) as [b [_ [_ Hb]]].
    eauto.
Qed.

Lemma draw_rows_separators (tl : TimelineState)
    (client_data : option ClientData) (thread_index : Z)
    (start_time end_time : Q) (rows : list nat) :
  forall calls,
    draw_rows tl client_data thread_index start_time end_time rows
    = Some calls ->
    separators calls = [].
Proof.
  induction rows as [|ri rows IH]; intros calls H.
  - inversion H; subst. reflexivity.
  - cbn [draw_rows] in H.
    destruct (draw_row tl client_data thread_index _ start_time end_time)
      as [first|] eqn:E; [|discriminate].
    cbn [bind] in H.
    destruct (draw_rows tl client_data thread_index start_time end_time rows)
      as [more|]; [|discriminate].
    cbn [bind] in H. inversion H; subst calls.
    rewrite separators_app, (IH more eq_refl), app_nil_r.
    apply separators_bar_calls. exact (draw_row_bar_calls _ _ _ _ _ _ _ E).
Qed.

Lemma draw_rows_some (tl : TimelineState) (cd : ClientData)
    (ti : nat) (tr : ThreadRow) (start_time end_time : Q) (rows : list nat) :
  nth_error (_threads tl) ti = Some tr ->
  Z.of_nat ti < 2 ^ 31 ->
  Z.of_nat (length (_rows tr)) < 2 ^ 31 ->
  Forall (fun ri => (ri < length (_rows tr))%nat) rows ->
  exists calls,
    draw_rows tl (Some cd) (int_of_size_t (Z.of_nat ti)) start_time end_time
      rows = Some calls.
Proof.
  intros Hti Hsmall Hlen. induction 1 as [|ri rows Hri _ [more IH]].
  - exists []. reflexivity.
  - cbn [draw_rows]. unfold draw_row.
    rewrite at_index_nat by exact Hsmall. rewrite Hti. cbn [bind].
    rewrite at_index_nat by lia.
    destruct (nth_error (_rows tr) ri) as [row|] eqn:Er;
      [|apply nth_error_None in Er; lia].
    cbn [bind]. cbv zeta. rewrite IH.
    destruct (lower_bound row _) as [|first it]; [eexists; reflexivity|].
    destruct (draw_bars_some tl cd
                (bar_row (_row_offset tr) (int_of_size_t (Z.of_nat ri)))
                end_time (_frame_number first) (first :: it)) as [calls ->].
    eexists. reflexivity.
Qed.

Lemma draw_threads_separators (tl : TimelineState) (cd : ClientData)
    (start_time end_time : Q) (threads : list ThreadRow) :
  forall (pre : list ThreadRow) (offset : nat) (num_rows : Z),
    _threads tl = pre ++ threads ->
    offsets_from offset threads ->
    Forall (fun tr => Z.of_nat (length (_rows tr)) < 2 ^ 31) threads ->
    Z.of_nat (length (_threads tl)) < 2 ^ 31 ->
    exists calls,
      draw_threads tl (Some cd) start_time end_time (length pre) threads
        num_rows = Some calls
      /\ separators calls
         = map (fun tr =>
                  Z.of_nat (_row_offset tr + length (_rows tr))
                  - Z.of_nat offset + num_rows)
             threads.
Proof.
  induction threads as [|tr rest IH];
    intros pre offset num_rows Hsplit Hch Hall Hlen.
  - exists []. split; reflexivity.
  - destruct Hch as [Hoff Hch]. inversion Hall as [|? ? Hsize Hrest]; subst.
    assert (Hti : nth_error (_threads tl) (length pre) = Some tr).
    { rewrite Hsplit, nth_error_app2, Nat.sub_diag by lia. reflexivity. }
    assert (Hpre : Z.of_nat (length pre) < 2 ^ 31).
    { rewrite Hsplit, length_app in Hlen. lia. }
    destruct (draw_rows_some tl cd (length pre) tr start_time end_time
                (seq 0 (length (_rows tr))) Hti Hpre Hsize) as [calls Hcalls].
    { apply Forall_forall. intros ri Hin. apply in_seq in Hin. lia. }
    assert (Hsplit' : _threads tl = (pre ++ [tr]) ++ rest)
      by (rewrite <- app_assoc; exact Hsplit).
    destruct (IH (pre ++ [tr]) _
                (num_rows + Z.of_nat (length (_rows tr)) + 1)
                Hsplit' Hch Hrest Hlen) as [more [Hmore Hseps]].
    rewrite length_app in Hmore. cbn [length] in Hmore.
    rewrite Nat.add_1_r in Hmore.
    exists (calls ++ draw_separator (num_rows + Z.of_nat (length (_rows tr)))
              :: more).
    split.
    + cbn [draw_threads]. rewrite Hcalls. cbn [bind]. cbv zeta.
      rewrite Hmore. reflexivity.
    + rewrite separators_app, (draw_rows_separators _ _ _ _ _ _ _ Hcalls).
      cbn [app separators flat_map map]. fold (separators more).
      rewrite Hseps. f_equal; [lia|].
      apply map_ext. intro t. lia.
Qed.

Lemma separators_guide_bars (tl : TimelineState) :
  separators (draw_guide_bars tl) = [].
Proof.
  unfold draw_guide_bars. induction (_guide_bars tl) as [|bar bars IH];
    [reflexivity|].
  cbn [flat_map]. rewrite separators_app, IH, app_nil_r.
  destruct (_ && _); reflexivity.
Qed.

(** With the offsets of the threads chained from [offset], within the
    range of [int], and client data at hand, [force_redraw()] completes, and
    the separator it draws after the rows of a thread is at the row that the
    offsets leave free after that thread: row offset plus number of rows,
    counted from [offset]. *)
Theorem force_redraw_separators_match_offsets
    (tl : TimelineState) (cd : ClientData) (offset : nat) :
  offsets_from offset (_threads tl) ->
  Forall (fun tr => Z.of_nat (length (_rows tr)) < 2 ^ 31) (_threads tl) ->
  Z.of_nat (length (_threads tl)) < 2 ^ 31 ->
  exists calls,
    force_redraw tl (Some cd) = Some calls
    /\ separators calls
       = map (fun tr =>
                Z.of_nat (_row_offset tr + length (_rows tr))
                - Z.of_nat offset)
           (_threads tl).
Proof.
  intros Hch Hall Hlen.
  destruct (draw_threads_separators tl cd (_start_time tl)
              (_start_time tl + get_horizontal_scale tl) (_threads tl)
              [] offset 0 eq_refl Hch Hall Hlen) as [calls [Hcalls Hseps]].
  cbn [length] in Hcalls.
  unfold force_redraw. cbv zeta. rewrite Hcalls. cbn [bind].
  eexists. split; [reflexivity|].
  change (clear_region :: begin_draw :: draw_guide_bars tl ++ calls ++ [end_draw])
    with ([clear_region; begin_draw]
            ++ draw_guide_bars tl ++ calls ++ [end_draw]).
  rewrite !separators_app, separators_guide_bars, Hseps.
  cbn [separators flat_map app]. rewrite app_nil_r.
  apply map_ext. intro t. lia.
Qed.

End Facts.

End DrawingFacts.

(** *** Closed instances *)

Module DrawingInstances.
Import Timeline TimelineFacts Drawing DrawingFacts Examples.

#[local] Existing Instance unit_decls.

#[local] Existing Instance pixel_decls.

Lemma two_thread_view_offsets : offsets_from 0 (_threads two_thread_view).
Proof. simpl. auto. Qed.

Lemma two_thread_view_sizes :
  Forall (fun tr => Z.of_nat (_row_offset tr + length (_rows tr)) < 2 ^ 31 - 1)
    (_threads two_thread_view).
Proof. repeat constructor; simpl; lia. Qed.

Lemma draw_row_draws_bars_in_range_witness :
  (forall x y, bar_lt x y = Qltb (_end x) (_end y))
  /\ at_index (_threads two_bar_view) 0
     = Some (mkThreadRow String.EmptyString
               [[mkBar 0 10 0 0 1; mkBar 20 30 0 0 2]] 0 2)
  /\ row_ordered [mkBar 0 10 0 0 1; mkBar 20 30 0 0 2]
  /\ exists calls,
       draw_row two_bar_view (Some (one_thread_client early_frame)) 0 0 5 15
       = Some calls
       /\ (forall b,
             In b [mkBar 0 10 0 0 1; mkBar 20 30 0 0 2] ->
             bar_meets b 5 15 ->
             on_screen two_bar_view b = true ->
             In (bar_call two_bar_view (bar_row 0 0) b) calls)
       /\ (forall call,
             In call calls ->
             exists b,
               In b [mkBar 0 10 0 0 1; mkBar 20 30 0 0 2]
               /\ (5 <= _end b)%Q /\ on_screen two_bar_view b = true
               /\ call = bar_call two_bar_view (bar_row 0 0) b).
Proof.
  assert (H0 : forall x y, bar_lt x y = Qltb (_end x) (_end y))
    by (intros x y; reflexivity).
  assert (H1 : row_ordered [mkBar 0 10 0 0 1; mkBar 20 30 0 0 2])
    by (repeat split; unfold Qle; simpl; lia).
  split; [exact H0|]. split; [reflexivity|]. split; [exact H1|].
  exact (draw_row_draws_bars_in_range two_bar_view
           (one_thread_client early_frame) 0 0 5 15
           (mkThreadRow String.EmptyString
              [[mkBar 0 10 0 0 1; mkBar 20 30 0 0 2]] 0 2)
           [mkBar 0 10 0 0 1; mkBar 20 30 0 0 2] H0 eq_refl eq_refl H1).
Defined.

Lemma force_redraw_row_draws_one_row_witness :
  offsets_chained (_threads two_thread_view)
  /\ Z.of_nat (length (_threads two_thread_view)) < 2 ^ 31
  /\ - 2 ^ 31 <= 3 < 2 ^ 31
  /\ nth_error (_threads two_thread_view) 1
     = Some (mkThreadRow String.EmptyString [[mkBar 0 10 0 1 1]] 3 1)
  /\ force_redraw_row two_thread_view None 3 0 50
     = (calls <- draw_row two_thread_view None (Z.of_nat 1) (Z.of_nat 0)
                   (fmax (_start_time two_thread_view)
                      (pixel_to_timestamp two_thread_view 0))
                   (fmin (_start_time two_thread_view
                          + get_horizontal_scale two_thread_view)
                      (pixel_to_timestamp two_thread_view 50)) ;;
        Some (begin_draw :: calls ++ [end_draw])).
Proof.
  assert (H0 : offsets_chained (_threads two_thread_view))
    by (exists O; exact two_thread_view_offsets).
  assert (H1 : Z.of_nat (length (_threads two_thread_view)) < 2 ^ 31)
    by (simpl; lia).
  assert (H2 : - 2 ^ 31 <= 3 < 2 ^ 31) by lia.
  split; [exact H0|]. split; [exact H1|]. split; [exact H2|].
  split; [reflexivity|].
  exact (proj1 (force_redraw_row_draws_one_row two_thread_view None 3 0 50
                  H0 two_thread_view_sizes H1 H2)
           1%nat (mkThreadRow String.EmptyString [[mkBar 0 10 0 1 1]] 3 1)
           0%nat eq_refl ltac:(simpl; lia) eq_refl).
Defined.

Lemma force_redraw_separators_match_offsets_witness :
  offsets_from 0 (_threads two_thread_view)
  /\ Z.of_nat (length (_threads two_thread_view)) < 2 ^ 31
  /\ exists calls,
       force_redraw two_thread_view (Some (one_thread_client nested_frame))
       = Some calls
       /\ separators calls
          = map (fun tr =>
                   Z.of_nat (_row_offset tr + length (_rows tr))
                   - Z.of_nat 0)
              (_threads two_thread_view).
Proof.
  assert (H1 : Z.of_nat (length (_threads two_thread_view)) < 2 ^ 31)
    by (simpl; lia).
  assert (H2 : Forall (fun tr => Z.of_nat (length (_rows tr)) < 2 ^ 31)
                 (_threads two_thread_view))
    by (repeat constructor; simpl; lia).
  split; [exact two_thread_view_offsets|]. split; [exact H1|].
  exact (force_redraw_separators_match_offsets two_thread_view
           (one_thread_client nested_frame) 0 two_thread_view_offsets H2 H1).
Defined.

End DrawingInstances.

(** ** Where the guide bars lie and how many there are *)

Module GuideBarsFacts.
Import Timeline TimelineFacts GuideBars.

(** *** Rounding *)

Lemma Qfloor_le_Qtrunc (x : Q) : Qfloor x <= Qtrunc x.
Proof.
  destruct x as [a b]. unfold Qtrunc. cbn [Qfloor Qnum Qden].
  pose proof (Z.div_mod a (Zpos b) ltac:(lia)) as Hd.
  pose proof (Z.mod_pos_bound a (Zpos b) ltac:(lia)) as Hm.
  pose proof (Z.quot_rem' a (Zpos b)) as Hq.
  assert (Hr : - Zpos b < Z.rem a (Zpos b) < Zpos b).
  { destruct (Z.le_gt_cases 0 a) as [Ha|Ha].
    - pose proof (Z.rem_bound_pos a (Zpos b) Ha ltac:(lia)). lia.
    - pose proof (Z.rem_bound_pos_neg a (Zpos b) ltac:(lia) ltac:(lia)). lia. }
  nia.
Qed.

Lemma Qtrunc_above (x : Q) : (x - 1 < inject_Z (Qtrunc x))%Q.
Proof.
  pose proof (Qlt_floor x) as H1.
  pose proof (Qfloor_le_Qtrunc x) as H2.
  rewrite inject_Z_plus in H1. rewrite Zle_Qle in H2.
  change (inject_Z 1) with 1%Q in H1. lra.
Qed.

Lemma Qround_half_away_below (x : Q) :
  (inject_Z (Qround_half_away x) <= x + (1 # 2))%Q.
Proof.
  unfold Qround_half_away. destruct (Qle_bool 0 x).
  - apply Qfloor_le.
  - pose proof (Qceiling_lt (x - (1 # 2))) as H.
    unfold Zminus in H. rewrite inject_Z_plus in H.
    cbn [Z.opp] in H. change (inject_Z (-1)) with (-1 # 1)%Q in H. lra.
Qed.

(** The multiples [i * interval] that the two loops over [i] (lines
    452-457 and 466-470) produce, for the bounds computed from [lo] and
    [width]. *)
Lemma grid_bounds (interval lo width : Q) (i : Z) :
  (0 < interval)%Q ->
  Z.max (Qtrunc (lo / interval)) 1 <= i
    < Qround_half_away (width / interval) ->
  (interval <= inject_Z i * interval)%Q
  /\ (lo - interval < inject_Z i * interval)%Q
  /\ (inject_Z i * interval <= width - interval * (1 # 2))%Q.
Proof.
  intros Hpos [Hlo Hhi].
  assert (Hne : ~ (interval == 0)%Q) by lra.
  pose proof (Qmult_div_r lo interval Hne) as Elo.
  pose proof (Qmult_div_r width interval Hne) as Ew.
  pose proof (Qtrunc_above (lo / interval)) as H1.
  pose proof (Qround_half_away_below (width / interval)) as H2.
  assert (H3 : (inject_Z (Qtrunc (lo / interval)) <= inject_Z i)%Q)
    by (rewrite <- Zle_Qle; lia).
  assert (H4 : (1 <= inject_Z i)%Q)
    by (change 1%Q with (inject_Z 1); rewrite <- Zle_Qle; lia).
  assert (H5 : (inject_Z i + 1 <= inject_Z (Qround_half_away (width / interval)))%Q).
  { change 1%Q with (inject_Z 1). rewrite <- inject_Z_plus.
    rewrite <- Zle_Qle. lia. }
  set (q := inject_Z i) in *.
  set (x := (lo / interval)%Q) in *.
  set (w := (width / interval)%Q) in *.
  assert (K1 : (1 * interval <= q * interval)%Q)
    by (apply Qmult_le_compat_r; lra).
  assert (K2 : ((x - 1) * interval < q * interval)%Q)
    by (apply Qmult_lt_compat_r; lra).
  assert (K3 : (q * interval <= (w - (1 # 2)) * interval)%Q)
    by (apply Qmult_le_compat_r; lra).
  split; [lra|]. split.
  - apply Qle_lt_trans with ((x - 1) * interval)%Q; [|exact K2].
    setoid_replace ((x - 1) * interval)%Q with (interval * x - interval)%Q
      by ring.
    rewrite Elo. lra.
  - apply Qle_trans with ((w - (1 # 2)) * interval)%Q; [exact K3|].
    setoid_replace ((w - (1 # 2)) * interval)%Q
      with (interval * w - interval * (1 # 2))%Q by ring.
    rewrite Ew. lra.
Qed.

Section Facts.
Context {D : Declarations}.

(** *** Where the guide bars lie *)

Lemma offset_bars_near (interval start_time end_time frame_start
    frame_width : Q) :
  (0 < interval)%Q ->
  (frame_width <= end_time - frame_start)%Q ->
  in_int_range (Qtrunc ((start_time - frame_start) / interval)) = true ->
  in_int_range (Qround_half_away (frame_width / interval)) = true ->
  Forall (near_window interval start_time end_time)
    (offset_bars interval start_time frame_start frame_width).
Proof.
  intros Hpos Hw Hfirst Hnum. unfold offset_bars.
  destruct (Qltb 0 interval); [|constructor]. cbv zeta.
  rewrite (double_to_int_fits _ Hfirst), (round_to_int_fits _ Hnum).
  apply Forall_forall. intros g Hg. apply in_map_iff in Hg.
  destruct Hg as [i [<- Hi]]. apply in_zrange in Hi.
  destruct (grid_bounds interval (start_time - frame_start) frame_width i
              Hpos Hi) as [_ [H2 H3]].
  unfold near_window. cbn [_height]. split; lra.
Qed.

Lemma absolute_bars_near (interval start_time end_time : Q) :
  (0 < interval)%Q ->
  in_int_range (Qtrunc (start_time / interval)) = true ->
  in_int_range (Qround_half_away (end_time / interval)) = true ->
  Forall (near_window interval start_time end_time)
    (absolute_bars interval start_time end_time).
Proof.
  intros Hpos Hfirst Hnum. unfold absolute_bars. cbv zeta.
  rewrite (double_to_int_fits _ Hfirst), (round_to_int_fits _ Hnum).
  apply Forall_forall. intros g Hg. apply in_map_iff in Hg.
  destruct Hg as [i [<- Hi]]. apply in_zrange in Hi.
  destruct (grid_bounds interval start_time end_time i Hpos Hi)
    as [_ [H2 H3]].
  unfold near_window. cbn [_height]. split; lra.
Qed.

Lemma clear_last_label_near (tl : TimelineState)
    (interval start_time end_time frame_start : Q) (bars : list GuideBar) :
  Forall (near_window interval start_time end_time) bars ->
  Forall (near_window interval start_time end_time)
    (clear_last_label tl frame_start bars).
Proof.
  intro H. unfold clear_last_label.
  destruct (rev bars) as [|last before] eqn:E; [exact H|].
  destruct (_ <? 30); [|exact H].
  assert (Hb : bars = rev before ++ [last]).
  { rewrite <- (rev_involutive bars), E. reflexivity. }
  rewrite Hb in H. apply Forall_app in H. destruct H as [H1 H2].
  apply Forall_app. split; [exact H1|].
  inversion H2; subst. constructor; [|constructor]. assumption.
Qed.

Lemma skip_to_frame_In (it : Row) (b : ColorBar) :
  In b (skip_to_frame it) -> In b it.
Proof.
  induction it as [|x rest IH]; intro H; [exact H|].
  cbn [skip_to_frame] in H.
  destruct (_collector_index x =? 0); [exact H | right; apply IH, H].
Qed.

Lemma lower_bound_In (row : Row) (value b : ColorBar) :
  In b (lower_bound row value) -> In b row.
Proof.
  induction row as [|x rest IH]; intro H; [exact H|].
  cbn [lower_bound] in H.
  destruct (bar_lt x value); [right; apply IH, H | exact H].
Qed.

Lemma bars_fit_tail (interval start_time end_time : Q) (b : ColorBar)
    (rest : Row) :
  bars_fit interval start_time end_time (b :: rest) ->
  bars_fit interval start_time end_time rest.
Proof.
  intros H x Hx. destruct (H x (or_intror Hx)) as [H1 [H2 H3]].
  split; [exact H1|]. split; [exact H2|].
  intros next Hn. apply H3. right. exact Hn.
Qed.

Lemma frame_guide_bars_near (tl : TimelineState)
    (interval start_time end_time : Q) (max_frames : Z) (it : Row) :
  (0 < interval)%Q ->
  bars_fit interval start_time end_time it ->
  forall (num_frames : Z) (bars : list GuideBar),
    Forall (near_window interval start_time end_time) bars ->
    Forall (near_window interval start_time end_time)
      (frame_guide_bars tl interval start_time end_time max_frames it
         num_frames bars).
Proof.
  intros Hpos. induction it as [|b rest IH];
    intros Hfit num_frames bars Hbars; [exact Hbars|].
  specialize (IH (bars_fit_tail _ _ _ _ _ Hfit)).
  cbn [frame_guide_bars].
  destruct (negb (_collector_index b =? 0)); [apply IH; exact Hbars|].
  destruct (Qltb end_time (_start b)) eqn:Eend; [exact Hbars|].
  apply Qltb_ge in Eend. cbv zeta.
  destruct (Hfit b (or_introl eq_refl)) as [Hfirst [Hedge Hnext]].
  set (frame_width :=
         match skip_to_frame rest with
         | [] => (end_time - _start b)%Q
         | next :: _ => fmin (_start next - _start b) (end_time - _start b)
         end).
  assert (Hw : (frame_width <= end_time - _start b)%Q).
  { subst frame_width. destruct (skip_to_frame rest);
      [apply Qle_refl | apply fmin_le_r]. }
  assert (Hnum : in_int_range (Qround_half_away (frame_width / interval))
                 = true).
  { subst frame_width.
    destruct (skip_to_frame rest) as [|next tail] eqn:Es; [exact Hedge|].
    unfold fmin. destruct (Qltb _ _); [exact Hedge|].
    apply Hnext. right. apply skip_to_frame_In. rewrite Es. left.
    reflexivity. }
  pose proof (offset_bars_near interval start_time end_time (_start b)
                frame_width Hpos Hw Hfirst Hnum) as Hoff.
  destruct (Qltb start_time (_start b)) eqn:Estart.
  - apply Qltb_lt in Estart.
    destruct (max_frames <? num_frames + 1); [constructor|].
    apply IH. apply Forall_app. split; [|exact Hoff].
    apply Forall_app. split; [apply clear_last_label_near; exact Hbars|].
    constructor; [|constructor]. unfold near_window. cbn [_height].
    split; lra.
  - apply IH. apply Forall_app. split; [exact Hbars | exact Hoff].
Qed.

Lemma conversions_fit_bars (interval start_time end_time : Q) (row : Row) :
  conversions_fit interval start_time end_time row = true ->
  in_int_range (Qtrunc (start_time / interval)) = true
  /\ in_int_range (Qround_half_away (end_time / interval)) = true
  /\ bars_fit interval start_time end_time row.
Proof.
  unfold conversions_fit. intro H.
  apply andb_true_iff in H. destruct H as [H H3].
  apply andb_true_iff in H. destruct H as [H1 H2].
  split; [exact H1|]. split; [exact H2|].
  rewrite forallb_forall in H3. intros b Hb. specialize (H3 b Hb).
  apply andb_true_iff in H3. destruct H3 as [H3 H6].
  apply andb_true_iff in H3. destruct H3 as [H4 H5].
  split; [exact H4|]. split; [exact H5|].
  rewrite forallb_forall in H6. exact H6.
Qed.

(** When the guide bar interval is positive and every conversion to
    [int] has its value in the range of [int], every guide bar that
    [normal_guide_bars] leaves is at or left of the right edge of the window
    and less than one interval left of its left edge. *)
Theorem guide_bars_stay_near_window (tl : TimelineState) :
  (0 < guide_interval (pixel_to_height tl 150))%Q ->
  conversions_fit (guide_interval (pixel_to_height tl 150))
    (get_horizontal_scroll tl)
    (get_horizontal_scroll tl + get_horizontal_scale tl) (first_row tl)
  = true ->
  Forall
    (near_window (guide_interval (pixel_to_height tl 150))
       (get_horizontal_scroll tl)
       (get_horizontal_scroll tl + get_horizontal_scale tl))
    (_guide_bars (normal_guide_bars tl)).
Proof.
  intros Hpos Hfit. apply conversions_fit_bars in Hfit.
  destruct Hfit as [Hfirst [Hnum Hbars]].
  unfold normal_guide_bars, set_guide_bars. cbn [_guide_bars].
  unfold computed_guide_bars. cbv zeta.
  destruct (is_nil _ && Qltb 0 _).
  - apply absolute_bars_near; assumption.
  - unfold frame_pass. unfold first_row in Hbars.
    destruct (_threads tl) as [|thread0 ?]; [constructor|].
    destruct (_rows thread0) as [|row ?]; [constructor|].
    apply frame_guide_bars_near; [exact Hpos | | constructor].
    intros b Hb.
    assert (Hin : forall x,
              In x (skip_to_frame
                      (lower_bound row
                         (mkBar 0 (get_horizontal_scroll tl) 0 0 0))) ->
              In x row).
    { intros x Hx. apply skip_to_frame_In in Hx.
      exact (lower_bound_In _ _ _ Hx). }
    destruct (Hbars b (Hin b Hb)) as [H1 [H2 H3]].
    split; [exact H1|]. split; [exact H2|].
    intros next Hn. apply H3. exact (Hin next Hn).
Qed.

(** *** The number of frame boundaries *)

Lemma frame_bar_count_app (a b : list GuideBar) :
  frame_bar_count (a ++ b) = (frame_bar_count a + frame_bar_count b)%nat.
Proof. unfold frame_bar_count. now rewrite filter_app, length_app. Qed.

Lemma frame_bar_count_offset_bars (interval start_time frame_start
    frame_width : Q) :
  frame_bar_count (offset_bars interval start_time frame_start frame_width)
  = O.
Proof.
  unfold offset_bars. destruct (Qltb 0 interval); [|reflexivity]. cbv zeta.
  induction (zrange _ _) as [|i l IH]; [reflexivity | exact IH].
Qed.

Lemma frame_bar_count_clear_last_label (tl : TimelineState)
    (frame_start : Q) (bars : list GuideBar) :
  frame_bar_count (clear_last_label tl frame_start bars)
  = frame_bar_count bars.
Proof.
  unfold clear_last_label.
  destruct (rev bars) as [|last before] eqn:E; [reflexivity|].
  destruct (_ <? 30); [|reflexivity].
  assert (Hb : bars = rev before ++ [last]).
  { rewrite <- (rev_involutive bars), E. reflexivity. }
  rewrite Hb, !frame_bar_count_app. f_equal.
  unfold frame_bar_count, is_frame_bar. cbn [filter _style].
  destruct (_style last); reflexivity.
Qed.

Lemma frame_guide_bars_cap (tl : TimelineState)
    (interval start_time end_time : Q) (max_frames : Z) (it : Row) :
  forall (num_frames : Z) (bars : list GuideBar),
    Z.of_nat (frame_bar_count bars) <= num_frames ->
    Z.of_nat (frame_bar_count bars) <= Z.max 0 max_frames ->
    Z.of_nat
      (frame_bar_count
         (frame_guide_bars tl interval start_time end_time max_frames it
            num_frames bars))
    <= Z.max 0 max_frames.
Proof.
  induction it as [|b rest IH]; intros num_frames bars Hnum Hcap;
    [exact Hcap|].
  cbn [frame_guide_bars].
  destruct (negb (_collector_index b =? 0)); [apply IH; assumption|].
  destruct (Qltb end_time (_start b)); [exact Hcap|]. cbv zeta.
  destruct (Qltb start_time (_start b)).
  - destruct (Z.ltb_spec max_frames (num_frames + 1)); [simpl; lia|].
    apply IH;
      rewrite !frame_bar_count_app, frame_bar_count_offset_bars,
        frame_bar_count_clear_last_label; cbn [frame_bar_count filter
        is_frame_bar _style length]; lia.
  - apply IH; rewrite frame_bar_count_app, frame_bar_count_offset_bars; lia.
Qed.

(** The guide bars taken from the frames (lines 403-460) hold at most
    [get_xsize() / 100] frame boundaries, and none when that number is
    negative. *)
Theorem frame_pass_caps_frame_bars (tl : TimelineState)
    (interval start_time end_time : Q) :
  Z.of_nat (frame_bar_count (frame_pass tl interval start_time end_time))
  <= Z.max 0 (Z.quot (_xsize tl) 100).
Proof.
  unfold frame_pass. destruct (_threads tl) as [|thread0 ?]; [simpl; lia|].
  destruct (_rows thread0) as [|row ?]; [simpl; lia|].
  apply frame_guide_bars_cap; simpl; lia.
Qed.

End Facts.

End GuideBarsFacts.

(** *** Closed instances *)

Module GuideBarsInstances.
Import Timeline TimelineFacts GuideBars GuideBarsFacts Examples.

#[local] Existing Instance unit_decls.

Lemma guide_bars_stay_near_window_witness :
  (0 < guide_interval (pixel_to_height Scenarios.two_frame_view 150))%Q
  /\ conversions_fit
       (guide_interval (pixel_to_height Scenarios.two_frame_view 150))
       (get_horizontal_scroll Scenarios.two_frame_view)
       (get_horizontal_scroll Scenarios.two_frame_view
        + get_horizontal_scale Scenarios.two_frame_view)
       (first_row Scenarios.two_frame_view) = true
  /\ map _style (_guide_bars (normal_guide_bars Scenarios.two_frame_view))
     = [GBS_frame; GBS_normal; GBS_frame; GBS_normal; GBS_normal]
  /\ Forall
       (near_window
          (guide_interval (pixel_to_height Scenarios.two_frame_view 150))
          (get_horizontal_scroll Scenarios.two_frame_view)
          (get_horizontal_scroll Scenarios.two_frame_view
           + get_horizontal_scale Scenarios.two_frame_view))
       (_guide_bars (normal_guide_bars Scenarios.two_frame_view)).
Proof.
  assert (H : (0 < guide_interval
                     (pixel_to_height Scenarios.two_frame_view 150))%Q)
    by reflexivity.
  assert (Hfit : conversions_fit
                   (guide_interval
                      (pixel_to_height Scenarios.two_frame_view 150))
                   (get_horizontal_scroll Scenarios.two_frame_view)
                   (get_horizontal_scroll Scenarios.two_frame_view
                    + get_horizontal_scale Scenarios.two_frame_view)
                   (first_row Scenarios.two_frame_view) = true)
    by (vm_compute; reflexivity).
  split; [exact H|]. split; [exact Hfit|].
  split; [vm_compute; reflexivity|].
  exact (guide_bars_stay_near_window Scenarios.two_frame_view H Hfit).
Defined.

End GuideBarsInstances.

(** ** Speeds, easing and the end of the animation *)

Module AnimationFacts.
Import Animate AnimateFacts Animation.
Local Open Scope R_scope.

Ltac decide_same :=
  repeat match goal with
         | |- context [Req_dec_T ?a ?a] =>
             destruct (Req_dec_T a a) as [_|N]; [|contradiction N; reflexivity]
         end.

Lemma exp_decay_le_1 (dt : R) : 0 <= dt -> 0 < exp (-12 * dt) <= 1.
Proof.
  intro H. split; [apply exp_pos|].
  destruct H as [H|<-].
  - left. rewrite <- exp_0. apply exp_increasing. lra.
  - right. replace (-12 * 0) with 0 by ring. apply exp_0.
Qed.

Lemma exp_decay_lt_1 (dt : R) : 0 < dt -> 0 < exp (-12 * dt) < 1.
Proof.
  intro H. split; [apply exp_pos|].
  rewrite <- exp_0. apply exp_increasing. lra.
Qed.

(** *** Speeds *)

(** The speed after the lines 597-614: at least 1 in a held direction,
    and otherwise either zero or not below the cut-off of 0.2. *)
Theorem next_speed_keeps_direction_or_floor (move : Z) (speed dt : R) :
  ((0 < move)%Z -> 1 <= next_speed move speed dt)
  /\ ((move < 0)%Z -> next_speed move speed dt <= -1)
  /\ (move = 0%Z ->
      next_speed move speed dt = 0
      \/ 2 / 10 <= Rabs (next_speed move speed dt)).
Proof.
  unfold next_speed.
  destruct (Z.ltb_spec 0 move) as [Hp|Hp].
  - split; [|split; intros; lia]. intros _.
    destruct (Rlt_dec speed 0); lra.
  - destruct (Z.ltb_spec move 0) as [Hn|Hn].
    + split; [intros; lia|]. split; [|intros; lia]. intros _.
      destruct (Rlt_dec 0 speed); lra.
    + split; [intros; lia|]. split; [intros; lia|]. intros _.
      destruct (Req_dec_T speed 0) as [E|E]; [left; exact E|]. cbv zeta.
      destruct (Rlt_dec _ _) as [L|L]; [left; reflexivity | right; lra].
Qed.

Lemma coast_zero (n : nat) (dt : R) : coast n 0 dt = 0.
Proof.
  induction n as [|n IH]; [reflexivity|].
  cbn [coast]. unfold next_speed. cbn [Z.ltb Z.compare].
  destruct (Req_dec_T 0 0) as [_|N]; [exact IH | contradiction N; reflexivity].
Qed.

Lemma coast_form (dt : R) (n : nat) :
  forall speed,
    coast n speed dt = 0
    \/ (coast n speed dt = speed * exp (-12 * dt) ^ n
        /\ ((0 < n)%nat -> 2 / 10 <= Rabs (speed * exp (-12 * dt) ^ n))).
Proof.
  induction n as [|n IH]; intro speed.
  - right. split; [simpl; ring | intro H; inversion H].
  - cbn [coast].
    assert (Hnext : next_speed 0 speed dt = 0
                    \/ (next_speed 0 speed dt = speed * exp (-12 * dt)
                        /\ ~ Rabs (speed * exp (-12 * dt)) < 2 / 10)).
    { unfold next_speed. cbn [Z.ltb Z.compare].
      destruct (Req_dec_T speed 0) as [E|E]; [left; exact E|]. cbv zeta.
      destruct (Rlt_dec _ _) as [L|L]; [left; reflexivity | right; auto]. }
    destruct Hnext as [->|[-> L]]; [left; apply coast_zero|].
    destruct (IH (speed * exp (-12 * dt))) as [H|[H1 H2]]; [left; exact H|].
    right.
    assert (Epow : speed * exp (-12 * dt) * exp (-12 * dt) ^ n
                   = speed * exp (-12 * dt) ^ S n) by (simpl; ring).
    rewrite <- Epow. split; [exact H1|]. intros _.
    destruct n as [|n]; [|apply H2; apply Nat.lt_0_succ].
    simpl. rewrite Rmult_1_r. lra.
Qed.

(** With no key held, a speed dies out: after finitely many ticks of a
    positive length it is zero. *)
Theorem released_speed_dies_out (speed dt : R) :
  0 < dt -> exists n, coast n speed dt = 0.
Proof.
  intro Hdt. destruct (exp_decay_lt_1 dt Hdt) as [Hr0 Hr1].
  assert (Habs : Rabs (exp (-12 * dt)) < 1) by (rewrite Rabs_right; lra).
  assert (Hy : 0 < 2 / 10 / (Rabs speed + 1)).
  { pose proof (Rabs_pos speed). apply Rdiv_lt_0_compat; lra. }
  destruct (pow_lt_1_zero _ Habs _ Hy) as [N HN].
  exists (S N).
  destruct (coast_form dt (S N) speed) as [H|[_ H]]; [exact H|].
  exfalso. specialize (H (Nat.lt_0_succ N)).
  specialize (HN (S N) ltac:(lia)).
  rewrite Rabs_mult in H.
  pose proof (Rabs_pos speed) as Hs.
  pose proof (Rabs_pos (exp (-12 * dt) ^ S N)) as Hp.
  assert (Hlt : Rabs speed * Rabs (exp (-12 * dt) ^ S N)
                < (Rabs speed + 1) * (2 / 10 / (Rabs speed + 1))).
  { apply Rle_lt_trans
      with ((Rabs speed + 1) * Rabs (exp (-12 * dt) ^ S N)).
    - apply Rmult_le_compat_r; lra.
    - apply Rmult_lt_compat_l; lra. }
  replace ((Rabs speed + 1) * (2 / 10 / (Rabs speed + 1))) with (2 / 10)
    in Hlt by (field; lra).
  lra.
Qed.

Section Facts.
Context {D : Declarations}.

(** *** A finished animation *)

Lemma animate_at_rest (v : View) (dt : R) :
  at_rest v -> animate v dt = (v, false).
Proof.
  destruct v as [keys scroll zoom center scale target_scale start target_start].
  unfold at_rest. cbn [_keys_held _scroll_speed _zoom_speed _target_start_time
                       _start_time _target_time_scale _time_scale].
  intros [-> [-> [-> [-> ->]]]].
  assert (Hmove : move_view (mkView 0 0 0 center scale scale start start) dt
                  = mkView 0 0 0 center scale scale start start).
  { unfold move_view, held, next_speed, with_speeds. simpl. decide_same.
    simpl. decide_same. simpl. decide_same. reflexivity. }
  unfold animate. cbv zeta. rewrite Hmove.
  unfold ease_start_time. simpl. decide_same.
  unfold ease_time_scale. simpl. decide_same. simpl. decide_same.
  reflexivity.
Qed.

Lemma animate_false_at_rest (v : View) (dt : R) :
  snd (animate v dt) = false -> at_rest (fst (animate v dt)).
Proof.
  unfold animate. cbv zeta. cbn [fst snd].
  set (v' := ease_time_scale (ease_start_time (move_view v dt) dt) dt).
  intro H.
  apply orb_false_iff in H. destruct H as [H H5].
  apply orb_false_iff in H. destruct H as [H H4].
  apply orb_false_iff in H. destruct H as [H H3].
  apply orb_false_iff in H. destruct H as [H1 H2].
  unfold at_rest. repeat split.
  - apply negb_false_iff in H1. apply Z.eqb_eq in H1. exact H1.
  - destruct (Req_dec_T (_scroll_speed v') 0); [assumption | discriminate].
  - destruct (Req_dec_T (_zoom_speed v') 0); [assumption | discriminate].
  - destruct (Req_dec_T (_target_start_time v') (_start_time v'));
      [assumption | discriminate].
  - destruct (Req_dec_T (_target_time_scale v') (_time_scale v'));
      [assumption | discriminate].
Qed.

(** Once [animate] has returned [false], a further tick of any length
    changes nothing and returns [false] again. *)
Theorem animate_done_is_stable (v : View) (dt dt' : R) :
  snd (animate v dt) = false ->
  animate (fst (animate v dt)) dt' = (fst (animate v dt), false).
Proof.
  intro H. apply animate_at_rest. apply animate_false_at_rest. exact H.
Qed.

(** *** Easing *)

Lemma ease_start_time_fraction (v : View) (dt : R) :
  0 <= dt ->
  exists k,
    0 <= k <= 1
    /\ _target_start_time v - _start_time (ease_start_time v dt)
       = k * (_target_start_time v - _start_time v).
Proof.
  intro Hdt. destruct (exp_decay_le_1 dt Hdt) as [He0 He1].
  unfold ease_start_time.
  destruct (Req_dec_T _ _) as [E|E].
  - exists 1. split; [lra | ring].
  - cbv zeta. destruct (Rlt_dec _ _).
    + exists 0. split; [lra|]. simpl. ring.
    + exists (exp (-12 * dt)). split; [lra|]. simpl. ring.
Qed.

Lemma ease_time_scale_fraction (v : View) (dt : R) :
  0 <= dt ->
  exists k,
    0 <= k <= 1
    /\ _target_time_scale v - _time_scale (ease_time_scale v dt)
       = k * (_target_time_scale v - _time_scale v).
Proof.
  intro Hdt. destruct (exp_decay_le_1 dt Hdt) as [He0 He1].
  unfold ease_time_scale.
  destruct (Req_dec_T (_target_time_scale v) _) as [E|E].
  - exists 1. split; [lra | ring].
  - cbv zeta. destruct (Req_dec_T _ _); [destruct (Rlt_dec _ _)|].
    + exists 0. split; [lra|]. simpl. ring.
    + exists (exp (-12 * dt)). split; [lra|]. simpl. ring.
    + exists (exp (-12 * dt)). split; [lra|]. simpl. ring.
Qed.

Lemma ease_time_scale_start (v : View) (dt : R) :
  _start_time (ease_time_scale v dt) = _start_time v.
Proof.
  unfold ease_time_scale.
  destruct (Req_dec_T (_target_time_scale v) _); [reflexivity|]. cbv zeta.
  destruct (Req_dec_T _ _); [destruct (Rlt_dec _ _)|]; reflexivity.
Qed.

(** In a tick of non-negative length, after the speeds have been
    applied, the start time and the time scale each end between their old
    value and their target: what is left of the way to the target is a
    fraction between 0 and 1 of what it was, so the target is neither
    overshot nor moved away from. *)
Theorem animate_never_overshoots (v : View) (dt : R) :
  0 <= dt ->
  let v1 := move_view v dt in
  let v2 := fst (animate v dt) in
  (exists k,
     0 <= k <= 1
     /\ _target_start_time v1 - _start_time v2
        = k * (_target_start_time v1 - _start_time v1))
  /\ (exists k,
        0 <= k <= 1
        /\ _target_time_scale v1 - _time_scale v2
           = k * (_target_time_scale v1 - _time_scale v1)).
Proof.
  intros Hdt v1 v2.
  assert (Hv2 : v2 = ease_time_scale (ease_start_time v1 dt) dt)
    by reflexivity.
  destruct (ease_start_time_targets v1 dt) as [_ [Hts Hs]].
  split.
  - rewrite Hv2, ease_time_scale_start.
    apply ease_start_time_fraction. exact Hdt.
  - destruct (ease_time_scale_fraction (ease_start_time v1 dt) dt Hdt)
      as [k [Hk Hfrac]].
    exists k. split; [exact Hk|]. rewrite Hv2, <- Hts, <- Hs. exact Hfrac.
Qed.

End Facts.

Lemma released_speed_dies_out_witness :
  0 < 1 /\ exists n, coast n 5 1 = 0.
Proof.
  split; [lra|]. exact (released_speed_dies_out 5 1 ltac:(lra)).
Defined.

Lemma animate_done_is_stable_witness :
  (forall D : Declarations, snd (animate still_view 1) = false)
  /\ (forall D : Declarations,
        animate (fst (animate still_view 1)) 2
        = (fst (animate still_view 1), false)).
Proof.
  assert (Hrest : at_rest still_view)
    by (unfold at_rest, still_view; simpl; repeat split; reflexivity).
  assert (H : forall D : Declarations, snd (animate still_view 1) = false)
    by (intro D; rewrite (animate_at_rest still_view 1 Hrest); reflexivity).
  split; [exact H|].
  intro D. exact (animate_done_is_stable still_view 1 2 (H D)).
Defined.

Lemma animate_never_overshoots_witness :
  0 <= 1
  /\ forall D : Declarations,
       (exists k,
          0 <= k <= 1
          /\ _target_start_time (move_view far_view 1)
             - _start_time (fst (animate far_view 1))
             = k * (_target_start_time (move_view far_view 1)
                    - _start_time (move_view far_view 1)))
       /\ (exists k,
             0 <= k <= 1
             /\ _target_time_scale (move_view far_view 1)
                - _time_scale (fst (animate far_view 1))
                = k * (_target_time_scale (move_view far_view 1)
                       - _time_scale (move_view far_view 1))).
Proof.
  assert (H : 0 <= 1) by lra.
  split; [exact H|].
  intro D. exact (animate_never_overshoots far_view 1 H).
Defined.

End AnimationFacts.

(** ** Tooltip *)

Module TooltipFacts.
Import Timeline TimelineFacts Tooltip.

Section Facts.
Context {D : Timeline.Declarations} {C : Tooltip.Declarations}.

(** On rows that are ordered and at consecutive offsets, with the bars
    compared by their end times: a tooltip is shown only for a bar of the row
    under the cursor that contains the time under the cursor, and names that
    bar's collector with that bar's duration, which is not negative; and
    when no bar of the row contains that time, no tooltip is shown. *)
Theorem tooltip_describes_bar_under_cursor
    (client_data : option ClientData) (tl : TimelineState) (row x : Z) :
  (forall a b, bar_lt a b = Qltb (_end a) (_end b)) ->
  offsets_consistent (_threads tl) ->
  Forall (fun tr => Forall row_ordered (_rows tr)
                    /\ Z.of_nat (_row_offset tr + length (_rows tr)) < 2 ^ 31 - 1)
    (_threads tl) ->
  - 2 ^ 31 <= row < 2 ^ 31 ->
  (forall text,
     get_bar_tooltip client_data tl row x = Some text ->
     exists bars b,
       resolves_to (_threads tl) row bars /\ In b bars
       /\ bar_contains b (pixel_to_timestamp tl x)
       /\ text = mkText (_collector_index b) (_end b - _start b)
       /\ (0 <= text_duration text)%Q)
  /\ ((~ exists bars b,
           resolves_to (_threads tl) row bars /\ In b bars
           /\ bar_contains b (pixel_to_timestamp tl x)) ->
      get_bar_tooltip client_data tl row x = None).
Proof.
  intros Hlt Hoff Hall Hrow.
  pose proof (find_bar_in_spec (_threads tl) row (pixel_to_timestamp tl x) _
                Hlt (offsets_consistent_from _ Hoff) Hall Hrow) as Hspec.
  unfold get_bar_tooltip, find_bar.
  destruct (find_bar_in (_threads tl) row (pixel_to_timestamp tl x))
    as [bar|].
  - destruct Hspec as [bars [H1 [H2 H3]]]. split.
    + intros text Htext.
      destruct client_data as [cd|]; [|discriminate].
      destruct (has_collector cd (_collector_index bar)); [|discriminate].
      inversion Htext; subst text. exists bars, bar.
      repeat (split; [assumption|]). split; [reflexivity|].
      destruct H3 as [Hs He]. cbn [text_duration]. lra.
    + intro Hnone. exfalso. apply Hnone. exists bars, bar. auto.
  - split; [intros text Htext; discriminate | reflexivity].
Qed.

End Facts.

End TooltipFacts.

(** *** Closed instances *)

Module TooltipInstances.
Import Timeline TimelineFacts Tooltip TooltipFacts Examples.

#[local] Existing Instance unit_decls.
#[local] Existing Instance every_collector.

Lemma tooltip_describes_bar_under_cursor_witness :
  (forall a b, bar_lt a b = Qltb (_end a) (_end b))
  /\ offsets_consistent (_threads two_bar_view)
  /\ - 2 ^ 31 <= 0 < 2 ^ 31
  /\ get_bar_tooltip (Some (one_thread_client early_frame)) two_bar_view
       0 50000 = Some (mkText 0 (10 - 0))
  /\ exists bars b,
       resolves_to (_threads two_bar_view) 0 bars /\ In b bars
       /\ bar_contains b (pixel_to_timestamp two_bar_view 50000)
       /\ mkText 0 (10 - 0) = mkText (_collector_index b) (_end b - _start b)
       /\ (0 <= text_duration (mkText 0 (10 - 0)))%Q.
Proof.
  assert (H0 : forall a b, bar_lt a b = Qltb (_end a) (_end b))
    by (intros a b; reflexivity).
  assert (H1 : offsets_consistent (_threads two_bar_view)).
  { intros i prev tr Hp Ht. destruct i; discriminate Ht. }
  assert (H2 : Forall
                 (fun tr => Forall row_ordered (_rows tr)
                            /\ Z.of_nat (_row_offset tr + length (_rows tr))
                               < 2 ^ 31 - 1)
                 (_threads two_bar_view)).
  { repeat constructor; simpl; unfold Qle; simpl; lia. }
  assert (H3 : - 2 ^ 31 <= 0 < 2 ^ 31) by lia.
  assert (H4 : get_bar_tooltip (Some (one_thread_client early_frame))
                 two_bar_view 0 50000 = Some (mkText 0 (10 - 0)))
    by reflexivity.
  split; [exact H0|]. split; [exact H1|]. split; [exact H3|].
  split; [exact H4|].
  exact (proj1 (tooltip_describes_bar_under_cursor
                  (Some (one_thread_client early_frame)) two_bar_view 0 50000
                  H0 H1 H2 H3)
           (mkText 0 (10 - 0)) H4).
Defined.

End TooltipInstances.
